(** * YEN: the Eternal Longing -- collision, boundary and spawn logic

    A shallow embedding of the simulation core of the game
    (JS/systems/CollisionSystem.js, JS/core/Snake.js, core/Nibble.js,
    core/Game.js, config/constants.js) and the properties of it that the
    design document states.

    Conventions of the embedding.
    - A JavaScript number is a rational [Q]; arithmetic, comparison,
      [Math.floor] and [Math.ceil] are exact, so rounding of doubles is
      not part of the model.  [a.distanceTo(b) < d] for a constant
      [d >= 0] is written as the comparison of the squares.
    - A THREE.js object (mesh, group) is an identity handle [Obj]; its
      mutable [position], [rotation], [parent] and material type live in
      the store [objects] of the [World].
    - A JS [Set] is a duplicate-free list in insertion order, a [Map] or
      [WeakMap] a [gmap].  The grid key string "x,y,z" is the triple of
      integers it prints.
    - [Math.random()] and [performance.now()] read the next element of
      a stream held in the [World].
    - The functions of THREE.js and [Math] that are transcendental or
      live outside the repository are the fields of the class
      [Platform]. *)

From Stdlib Require Import QArith Qround Qabs Lqa Lia ZArith.
From stdpp Require Import gmap list.

Abbreviation Obj := positive.
Abbreviation Key := (Z * Z * Z)%type.

(** ** JavaScript numbers *)

Definition Qltb (a b : Q) : bool := negb (Qle_bool b a).

Definition Math_sign (x : Q) : Q :=
  if Qltb 0 x then 1%Q else if Qltb x 0 then (-1)%Q else 0%Q.

Definition Math_min (a b : Q) : Q := if Qle_bool a b then a else b.
Definition Math_max (a b : Q) : Q := if Qle_bool a b then b else a.

(** ** THREE.Vector3 *)

Record Vec3 := mkVec3 { vx : Q; vy : Q; vz : Q }.

Definition origin : Vec3 := mkVec3 0 0 0.

Definition vadd (a b : Vec3) : Vec3 :=
  mkVec3 (vx a + vx b) (vy a + vy b) (vz a + vz b).
Definition vsub (a b : Vec3) : Vec3 :=
  mkVec3 (vx a - vx b) (vy a - vy b) (vz a - vz b).
Definition multiplyScalar (a : Vec3) (k : Q) : Vec3 :=
  mkVec3 (vx a * k) (vy a * k) (vz a * k).
Definition vdot (a b : Vec3) : Q :=
  (vx a * vx b + vy a * vy b + vz a * vz b)%Q.

(** [v.reflect(n)]: v - 2 (v . n) n. *)
Definition reflect (v n : Vec3) : Vec3 :=
  vsub v (multiplyScalar n (2 * vdot v n)).

(** Componentwise equality of rationals. *)
Definition veq (a b : Vec3) : Prop :=
  (vx a == vx b)%Q /\ (vy a == vy b)%Q /\ (vz a == vz b)%Q.

(** VectorMath (JS/utils/VectorMath.js). *)
Module VectorMath.

Definition moveForward (position direction : Vec3) (distance : Q) : Vec3 :=
  vadd position (multiplyScalar direction distance).

Definition distanceSquared (pos1 pos2 : Vec3) : Q :=
  let dx := (vx pos1 - vx pos2)%Q in
  let dy := (vy pos1 - vy pos2)%Q in
  let dz := (vz pos1 - vz pos2)%Q in
  (dx * dx + dy * dy + dz * dz)%Q.

End VectorMath.

(** ** config/constants.js *)

Definition CUBE_SIZE : Q := 100.
Definition CUBE_HALF_SIZE : Q := CUBE_SIZE / 2.
Definition SEGMENT_RADIUS : Q := 8 # 10.
Definition SEGMENT_SPACING : Q := SEGMENT_RADIUS * 2.
Definition COLLISION_DISTANCE : Q := 18 # 10.
Definition WALL_BUFFER : Q := 5.
Definition SAFE_WALL_DISTANCE : Q := 2.
Definition SAFE_OBJECT_DISTANCE : Q := 2.
Definition SPAWN_INTERVAL : Q := 3000.
Definition SHADOW_SPAWN_DELAY : Q := 3000.

(** [a.distanceTo(b) < d], for [d >= 0]. *)
Definition distanceLt (a b : Vec3) (d : Q) : bool :=
  Qltb (VectorMath.distanceSquared a b) (d * d).

(** ** A JS Set of object handles: insertion-ordered, duplicate-free *)

Definition set_add (o : Obj) (s : list Obj) : list Obj :=
  if decide (o ∈ s) then s else s ++ [o].

Definition set_delete (o : Obj) (s : list Obj) : list Obj :=
  filter (λ x, x ≠ o) s.

(** ** SpatialGrid (JS/systems/CollisionSystem.js) *)

Module SpatialGrid.

Record t := mk {
  cellSize : Q;
  grid : gmap Key (list Obj);
  objectMap : gmap Obj Key
}.

(** [new SpatialGrid(cellSize)] *)
Definition new (cs : Q) : t := mk cs ∅ ∅.

Definition getGridKey (g : t) (position : Vec3) : Key :=
  (Qfloor (vx position / cellSize g),
   Qfloor (vy position / cellSize g),
   Qfloor (vz position / cellSize g)).

Definition remove (g : t) (object : Obj) : t :=
  let cells :=
    match objectMap g !! object with
    | Some key =>
        match grid g !! key with
        | Some s =>
            let s' := set_delete object s in
            if Nat.eqb (length s') 0 then delete key (grid g)
            else <[key := s']> (grid g)
        | None => grid g
        end
    | None => grid g
    end in
  mk (cellSize g) cells (delete object (objectMap g)).

Definition insert (g : t) (object : Obj) (position : Vec3) : t :=
  let key := getGridKey g position in
  let g1 := remove g object in
  let cell := default [] (grid g1 !! key) in
  mk (cellSize g1)
     (<[key := set_add object cell]> (grid g1))
     (<[object := key]> (objectMap g1)).

(** The keys visited by the three nested loops of [getNearby], in
    visiting order. *)
Definition nearbyKeys (center : Key) (cellRadius : Z) : list Key :=
  let '(centerX, centerY, centerZ) := center in
  let span c := seqZ (c - cellRadius) (2 * cellRadius + 1) in
  x ← span centerX; y ← span centerY; z ← span centerZ; [(x, y, z)].

Definition getNearby (g : t) (position : Vec3) (radius : Q) : list Obj :=
  let cellRadius := Qceiling (radius / cellSize g) in
  let centerKey := getGridKey g position in
  foldl (λ nearbyObjects key,
           match grid g !! key with
           | Some s => foldl (λ acc obj, set_add obj acc) nearbyObjects s
           | None => nearbyObjects
           end)
        [] (nearbyKeys centerKey cellRadius).

Definition clear (g : t) : t := mk (cellSize g) ∅ ∅.

End SpatialGrid.

(** ** The scene store *)

Inductive Material :=
  | ShaderMaterial
  | LineBasicMaterial
  | MeshBasicMaterial
  | NoMaterial.

(** A THREE.Object3D as far as the simulation reads it: [parent] is
    true while the object is attached to the scene. *)
Record Object3D := mkObject3D {
  position : Vec3;
  rotation : Vec3;
  parent : bool;
  material : Material
}.

(** config/settings.js *)
Module Settings.

Record t := mk {
  speed : Q;
  shadowSpeed : Q;
  spawnRate : Q;
  trailLength : nat
}.

(** The values set by the constructor. *)
Definition defaults : t := mk (3 # 10) (4 # 10) 3 50.

End Settings.

(** Everything the subsystems share by reference: the objects of the
    scene, the spatial grid, the cube faces of the collision system,
    the nibble array of the nibble manager, the settings singleton,
    the performance monitor singleton ([collisionChecks],
    [frameCount], its [lastTime] as [monitorLastTime], and [fps]; its
    [memoryUsage] reads the object pools and its other two counters
    are never incremented), and the streams read by [Math.random()]
    and [performance.now()]. *)
Record World := mkWorld {
  objects : gmap Obj Object3D;
  nextObj : Obj;
  spatialGrid : SpatialGrid.t;
  faces : list (Obj * Obj);
  nibbles : list Obj;
  settings : Settings.t;
  collisionChecks : nat;
  frameCount : nat;
  monitorLastTime : Q;
  fps : nat;
  randoms : nat -> Q;
  randomIx : nat;
  clock : nat -> Q;
  clockIx : nat
}.

Definition withObjects (f : gmap Obj Object3D -> gmap Obj Object3D) (w : World) : World :=
  mkWorld (f (objects w)) (nextObj w) (spatialGrid w) (faces w) (nibbles w)
          (settings w) (collisionChecks w)
          (frameCount w) (monitorLastTime w) (fps w)
          (randoms w) (randomIx w) (clock w) (clockIx w).

Definition withGrid (f : SpatialGrid.t -> SpatialGrid.t) (w : World) : World :=
  mkWorld (objects w) (nextObj w) (f (spatialGrid w)) (faces w) (nibbles w)
          (settings w) (collisionChecks w)
          (frameCount w) (monitorLastTime w) (fps w)
          (randoms w) (randomIx w) (clock w) (clockIx w).

Definition withNibbles (f : list Obj -> list Obj) (w : World) : World :=
  mkWorld (objects w) (nextObj w) (spatialGrid w) (faces w) (f (nibbles w))
          (settings w) (collisionChecks w)
          (frameCount w) (monitorLastTime w) (fps w)
          (randoms w) (randomIx w) (clock w) (clockIx w).

(** [performanceMonitor.recordCollisionCheck()] *)
Definition recordCollisionCheck (w : World) : World :=
  mkWorld (objects w) (nextObj w) (spatialGrid w) (faces w) (nibbles w)
          (settings w) (S (collisionChecks w))
          (frameCount w) (monitorLastTime w) (fps w)
          (randoms w) (randomIx w) (clock w) (clockIx w).

(** [Math.random()] *)
Definition Math_random (w : World) : Q * World :=
  (randoms w (randomIx w),
   mkWorld (objects w) (nextObj w) (spatialGrid w) (faces w) (nibbles w)
           (settings w) (collisionChecks w)
           (frameCount w) (monitorLastTime w) (fps w)
           (randoms w) (S (randomIx w)) (clock w) (clockIx w)).

(** [performance.now()], in milliseconds *)
Definition performance_now (w : World) : Q * World :=
  (clock w (clockIx w),
   mkWorld (objects w) (nextObj w) (spatialGrid w) (faces w) (nibbles w)
           (settings w) (collisionChecks w)
           (frameCount w) (monitorLastTime w) (fps w)
           (randoms w) (randomIx w) (clock w) (S (clockIx w))).

(** *** PerformanceMonitor (JS/utils/PerformanceMonitor.js) *)

Module PerformanceMonitor.

(** [update()], called once per frame: counts the frame and, once
    1000 ms have passed since the last report, publishes the frame
    count as [fps] and resets the counters. *)
Definition update (w : World) : World :=
  let w := mkWorld (objects w) (nextObj w) (spatialGrid w) (faces w) (nibbles w)
                   (settings w) (collisionChecks w)
                   (S (frameCount w)) (monitorLastTime w) (fps w)
                   (randoms w) (randomIx w) (clock w) (clockIx w) in
  let '(currentTime, w) := performance_now w in
  if Qle_bool 1000 (currentTime - monitorLastTime w)%Q
  then mkWorld (objects w) (nextObj w) (spatialGrid w) (faces w) (nibbles w)
               (settings w) 0
               0 currentTime (frameCount w)
               (randoms w) (randomIx w) (clock w) (clockIx w)
  else w.

End PerformanceMonitor.

(** [new THREE.Mesh(...)], [new THREE.Group()]: a fresh handle. *)
Definition alloc (ob : Object3D) (w : World) : Obj * World :=
  (nextObj w,
   mkWorld (<[nextObj w := ob]> (objects w)) (Pos.succ (nextObj w)) (spatialGrid w)
           (faces w) (nibbles w) (settings w) (collisionChecks w)
           (frameCount w) (monitorLastTime w) (fps w)
           (randoms w) (randomIx w) (clock w) (clockIx w)).

Definition positionOf (w : World) (o : Obj) : Vec3 :=
  from_option position origin (objects w !! o).

Definition rotationOf (w : World) (o : Obj) : Vec3 :=
  from_option rotation origin (objects w !! o).

Definition setPosition (o : Obj) (p : Vec3) : World -> World :=
  withObjects (alter (λ ob, mkObject3D p (rotation ob) (parent ob) (material ob)) o).

Definition setRotation (o : Obj) (r : Vec3) : World -> World :=
  withObjects (alter (λ ob, mkObject3D (position ob) r (parent ob) (material ob)) o).

(** [scene.add(o)] and [scene.remove(o)] *)
Definition scene_add (o : Obj) : World -> World :=
  withObjects (alter (λ ob, mkObject3D (position ob) (rotation ob) true (material ob)) o).

Definition scene_remove (o : Obj) : World -> World :=
  withObjects (alter (λ ob, mkObject3D (position ob) (rotation ob) false (material ob)) o).

(** ** CollisionSystem, the part the entities call
    (JS/systems/CollisionSystem.js) *)

Module CollisionSystemBase.

Definition _isWallObject (w : World) (object : Obj) : bool :=
  match objects w !! object with
  | None => false
  | Some ob =>
      if negb (parent ob) then false
      else match material ob with
           | ShaderMaterial => true
           | LineBasicMaterial => true
           | _ => existsb (λ face, Pos.eqb object face.1 || Pos.eqb object face.2)
                          (faces w)
           end
  end.

Definition updateObject (object : Obj) (position : Vec3) (w : World) : World :=
  if _isWallObject w object then w
  else withGrid (λ g, SpatialGrid.insert g object position) w.

Definition removeObject (object : Obj) (w : World) : World :=
  if _isWallObject w object then w
  else withGrid (λ g, SpatialGrid.remove g object) w.

End CollisionSystemBase.

(** ** What THREE.js and Math provide *)

Class Platform := {
  (** [object.getWorldDirection(out)] of an object attached to the
      scene root, as a function of its Euler rotation *)
  getWorldDirection : Vec3 -> Vec3;
  (** the rotation of an object at the first position after
      [object.lookAt(target)] *)
  lookAt : Vec3 -> Vec3 -> Vec3;
  Math_sin : Q -> Q;
  Math_atan2 : Q -> Q -> Q;
  Math_sqrt : Q -> Q;
  Math_PI : Q;
  (** [new THREE.CatmullRomCurve3(points).getLength()] *)
  getLength : list Vec3 -> Q;
  (** [new THREE.CatmullRomCurve3(points).getPointAt(t)] *)
  getPointAt : list Vec3 -> Q -> Vec3
}.

(** [v.normalize()]: divideScalar(length() || 1) *)
Definition normalize `{Platform} (v : Vec3) : Vec3 :=
  let len := Math_sqrt (vdot v v) in
  multiplyScalar v (1 / (if Qeq_bool len 0 then 1 else len)).

(** [VectorMath.getDirection(from, to, out)] *)
Definition getDirection `{Platform} (from to : Vec3) : Vec3 :=
  normalize (vsub to from).

(** ** Snake (JS/core/Snake.js) *)

Module Snake.

Local Open Scope Q_scope.

Record t := mk {
  head : Obj;
  segments : list Obj;
  trail : list Vec3;
  direction : Vec3;
  speed : Q;
  isPlayer : bool;
  length : nat;
  nibblesEaten : nat;
  isInitialReflectionPhase : bool;
  creationTime : Q;
  colorOffset : Q;
  targetDirection : Vec3;
  (** [_nibblesRef]: whether the snake holds the reference to the
      nibble manager's array (the array itself is [nibbles] of the
      world, which the alias reads) *)
  _nibblesRef : bool
}.

Definition withSegments (v : list Obj) (s : t) : t :=
  mk (head s) v (trail s) (direction s) (speed s) (isPlayer s) (length s)
     (nibblesEaten s) (isInitialReflectionPhase s) (creationTime s)
     (colorOffset s) (targetDirection s) (_nibblesRef s).
Definition withTrail (v : list Vec3) (s : t) : t :=
  mk (head s) (segments s) v (direction s) (speed s) (isPlayer s) (length s)
     (nibblesEaten s) (isInitialReflectionPhase s) (creationTime s)
     (colorOffset s) (targetDirection s) (_nibblesRef s).
Definition withDirection (v : Vec3) (s : t) : t :=
  mk (head s) (segments s) (trail s) v (speed s) (isPlayer s) (length s)
     (nibblesEaten s) (isInitialReflectionPhase s) (creationTime s)
     (colorOffset s) (targetDirection s) (_nibblesRef s).
Definition withSpeed (v : Q) (s : t) : t :=
  mk (head s) (segments s) (trail s) (direction s) v (isPlayer s) (length s)
     (nibblesEaten s) (isInitialReflectionPhase s) (creationTime s)
     (colorOffset s) (targetDirection s) (_nibblesRef s).
Definition withLength (v : nat) (s : t) : t :=
  mk (head s) (segments s) (trail s) (direction s) (speed s) (isPlayer s) v
     (nibblesEaten s) (isInitialReflectionPhase s) (creationTime s)
     (colorOffset s) (targetDirection s) (_nibblesRef s).
Definition withNibblesEaten (v : nat) (s : t) : t :=
  mk (head s) (segments s) (trail s) (direction s) (speed s) (isPlayer s)
     (length s) v (isInitialReflectionPhase s) (creationTime s)
     (colorOffset s) (targetDirection s) (_nibblesRef s).
Definition withInitialReflectionPhase (v : bool) (s : t) : t :=
  mk (head s) (segments s) (trail s) (direction s) (speed s) (isPlayer s)
     (length s) (nibblesEaten s) v (creationTime s)
     (colorOffset s) (targetDirection s) (_nibblesRef s).
Definition withCreationTime (v : Q) (s : t) : t :=
  mk (head s) (segments s) (trail s) (direction s) (speed s) (isPlayer s)
     (length s) (nibblesEaten s) (isInitialReflectionPhase s) v
     (colorOffset s) (targetDirection s) (_nibblesRef s).
Definition withTargetDirection (v : Vec3) (s : t) : t :=
  mk (head s) (segments s) (trail s) (direction s) (speed s) (isPlayer s)
     (length s) (nibblesEaten s) (isInitialReflectionPhase s) (creationTime s)
     (colorOffset s) v (_nibblesRef s).

(** [setNibblesRef(nibbles)] *)
Definition setNibblesRef (s : t) : t :=
  mk (head s) (segments s) (trail s) (direction s) (speed s) (isPlayer s)
     (length s) (nibblesEaten s) (isInitialReflectionPhase s) (creationTime s)
     (colorOffset s) (targetDirection s) true.

(** [addSegment(initial)]; the visual segment it also creates is
    never handed to the collision system. *)
Definition addSegment (initial : bool) (s : t) (w : World) : t * World :=
  let lastPosition :=
    match last (segments s) with
    | Some seg => positionOf w seg
    | None => positionOf w (head s)
    end in
  let newPosition := vsub lastPosition (multiplyScalar (direction s) SEGMENT_SPACING) in
  let '(segment, w) := alloc (mkObject3D newPosition origin false MeshBasicMaterial) w in
  let w := scene_add segment w in
  let s := withSegments (segments s ++ [segment]) s in
  let w := CollisionSystemBase.updateObject segment (positionOf w segment) w in
  let s := if initial then s else withLength (S (length s)) s in
  (s, w).

(** The trail laid out behind the head by [_init] and
    [syncDirection]. *)
Definition initialTrail (s : t) (w : World) : list Vec3 :=
  (λ i : nat, vadd (positionOf w (head s))
                   (multiplyScalar (direction s) (- inject_Z (Z.of_nat i) * SEGMENT_SPACING)))
    <$> seq 0 (Settings.trailLength (settings w)).

Definition _init (s : t) (w : World) : t * World :=
  let w := scene_add (head s) w in
  let w := CollisionSystemBase.updateObject (head s) (positionOf w (head s)) w in
  let '(s, w) :=
    foldl (λ '(s, w) _, addSegment true s w) (s, w) (seq 0 (length s)) in
  (withTrail (initialTrail s w) s, w).

(** [new Snake(scene, collisionSystem, isPlayer)] *)
Definition new `{Platform} (isPlayer : bool) (w : World) : t * World :=
  let speed := if isPlayer then Settings.speed (settings w) else Settings.shadowSpeed (settings w) in
  let '(head, w) := alloc (mkObject3D origin origin false NoMaterial) w in
  let '(r, w) := Math_random w in
  _init (mk head [] [] (mkVec3 0 0 (-1)) speed isPlayer 5 0 false 0
            (r * Math_PI * 2) origin false) w.

(** The nearest nibble of [_seekNibbles], with the square of its
    distance; [None] stands for the initial [Infinity]. *)
Definition closest (w : World) (from : Vec3) (nibbles : list Obj) : option (Obj * Q) :=
  foldl (λ best nibble,
           match objects w !! nibble with
           | None => best
           | Some ob =>
               let d := VectorMath.distanceSquared from (position ob) in
               match best with
               | None => Some (nibble, d)
               | Some (_, closestDistance) =>
                   if Qltb d closestDistance then Some (nibble, d) else best
               end
           end)
        None nibbles.

Definition _seekNibbles `{Platform} (s : t) (w : World) : t * World :=
  if negb (_nibblesRef s) || Nat.eqb (List.length (nibbles w)) 0 then (s, w)
  else
    let headPos := positionOf w (head s) in
    match closest w headPos (nibbles w) with
    | Some (closestNibble, closestDistance) =>
        if Qltb (2 * 2) closestDistance then
          let directionToNibble := getDirection headPos (positionOf w closestNibble) in
          let targetRotation := Math_atan2 (vx directionToNibble) (vz directionToNibble) in
          let rot := rotationOf w (head s) in
          let currentRotation := vy rot in
          let rotationSpeed := 8 # 100 in
          let '(r, w) := Math_random w in
          let randomOffset := (r - (1 # 2)) * (5 # 100) in
          let rotY := vy rot + (targetRotation - currentRotation + randomOffset) * rotationSpeed in
          let verticalDirection := getDirection headPos (positionOf w closestNibble) in
          let targetYRotation :=
            Math_atan2 (- vy verticalDirection)
                       (Math_sqrt (vx verticalDirection * vx verticalDirection
                                   + vz verticalDirection * vz verticalDirection)) in
          let rotX := vx rot + (targetYRotation - vx rot) * rotationSpeed * (1 # 2) in
          (s, setRotation (head s) (mkVec3 rotX rotY (vz rot)) w)
        else
          (withSpeed (Settings.shadowSpeed (settings w) * (1 # 2)) s, w)
    | None =>
        let s := withSpeed (Settings.shadowSpeed (settings w)) s in
        let '(now, w) := performance_now w in
        let time := now * (1 # 1000) in
        let gentleWander := Math_sin (time * (1 # 2) + colorOffset s) * (2 # 100) in
        let rot := rotationOf w (head s) in
        (s, setRotation (head s) (mkVec3 (vx rot) (vy rot + gentleWander) (vz rot)) w)
    end.

(** The bounds of the hard clamp of [_avoidWalls]. *)
Definition clampToCube (x : Q) : Q :=
  Math_min (Math_max x (- CUBE_HALF_SIZE + SEGMENT_RADIUS))
           (CUBE_HALF_SIZE - SEGMENT_RADIUS).

(** The steering vector of [_avoidWalls] on one axis. *)
Definition steerAxis (safeBoundary x : Q) : Q :=
  if Qltb safeBoundary x then (0 - 1)%Q
  else if Qltb x (- safeBoundary) then (0 + 1)%Q
  else 0%Q.

Definition needsTurnAxis (safeBoundary x : Q) : bool :=
  Qltb safeBoundary x || Qltb x (- safeBoundary).

Definition _avoidWalls `{Platform} (s : t) (w : World) : World :=
  let safeBoundary := CUBE_HALF_SIZE - WALL_BUFFER in
  let pos := positionOf w (head s) in
  let steer := mkVec3 (steerAxis safeBoundary (vx pos))
                      (steerAxis safeBoundary (vy pos))
                      (steerAxis safeBoundary (vz pos)) in
  let needsTurn := needsTurnAxis safeBoundary (vx pos)
                   || needsTurnAxis safeBoundary (vy pos)
                   || needsTurnAxis safeBoundary (vz pos) in
  if negb needsTurn then w
  else
    let w := setPosition (head s)
               (mkVec3 (clampToCube (vx pos)) (clampToCube (vy pos)) (clampToCube (vz pos))) w in
    let steer := normalize steer in
    let targetRotation := Math_atan2 (vx steer) (vz steer) in
    let rotationSpeed := 12 # 100 in
    let rot := rotationOf w (head s) in
    let rotY := vy rot + (targetRotation - vy rot) * rotationSpeed in
    let targetYRotation :=
      Math_atan2 (- vy steer) (Math_sqrt (vx steer * vx steer + vz steer * vz steer)) in
    let rotX := vx rot + (targetYRotation - vx rot) * rotationSpeed * (1 # 2) in
    setRotation (head s) (mkVec3 rotX rotY (vz rot)) w.

(** The AI block of [update]: nothing for the player; for the
    others nibble seeking outside the initial reflection phase, then
    wall avoidance. *)
Definition aiBehavior `{Platform} (s : t) (w : World) : t * World :=
  if negb (isPlayer s) then
    let '(s, w) := if negb (isInitialReflectionPhase s) then _seekNibbles s w else (s, w) in
    (s, _avoidWalls s w)
  else (s, w).

(** [trail.unshift(p); if (trail.length > trailLength) trail.pop()] *)
Definition pushTrail (trailLength : nat) (p : Vec3) (trail : list Vec3) : list Vec3 :=
  let trail := p :: trail in
  if Nat.ltb trailLength (List.length trail) then removelast trail else trail.

(** One round of the segment loop of [update]. *)
Definition placeSegment `{Platform} (s : t) (time : Q) (w : World) (i : nat) (segment : Obj) : World :=
  let pathLength := getLength (trail s) in
  let index := inject_Z (Z.of_nat i) in
  let p :=
    if Qltb 0 pathLength then
      let t := (index + 1) * SEGMENT_SPACING / pathLength in
      getPointAt (trail s) (Math_min t 1)
    else
      let direction := getWorldDirection (rotationOf w (head s)) in
      VectorMath.moveForward (positionOf w (head s)) direction (- (index + 1) * SEGMENT_SPACING) in
  let segWiggle := Math_sin (time * 5 + index * (5 # 10) + colorOffset s) * (3 # 10) in
  let w := setPosition segment (mkVec3 (vx p + segWiggle * (5 # 100)) (vy p) (vz p)) w in
  if isPlayer s then CollisionSystemBase.updateObject segment (positionOf w segment) w else w.

Definition update `{Platform} (delta : Q) (s : t) (w : World) : t * World :=
  let s := withDirection (getWorldDirection (rotationOf w (head s))) s in
  let moveDistance := speed s * delta * 60 in
  let w := setPosition (head s)
             (vadd (positionOf w (head s)) (multiplyScalar (direction s) moveDistance)) w in
  let '(s, w) := aiBehavior s w in
  let '(now, w) := performance_now w in
  let time := now * (1 # 1000) in
  let wiggle := Math_sin (time * 5 + colorOffset s) * (5 # 10) in
  let pos := positionOf w (head s) in
  let w := setPosition (head s) (mkVec3 (vx pos) (vy pos + wiggle * (1 # 10)) (vz pos)) w in
  let s := withTrail (pushTrail (Settings.trailLength (settings w)) (positionOf w (head s)) (trail s)) s in
  let w := foldl (λ w '(i, segment), placeSegment s time w i segment) w
                 (imap (λ i segment, (i, segment)) (segments s)) in
  let w := if isPlayer s
           then CollisionSystemBase.updateObject (head s) (positionOf w (head s)) w
           else w in
  (s, w).

(** [syncDirection()] *)
Definition syncDirection `{Platform} (s : t) (w : World) : t :=
  let s := withDirection (getWorldDirection (rotationOf w (head s))) s in
  withTrail (initialTrail s w) s.

(** [rotate(rotationY, rotationX)] *)
Definition rotate `{Platform} (rotationY rotationX : Q) (s : t) (w : World) : World :=
  let rot := rotationOf w (head s) in
  let w := setRotation (head s) (mkVec3 (vx rot) (vy rot + rotationY) (vz rot)) w in
  let rot := rotationOf w (head s) in
  let w := setRotation (head s) (mkVec3 (vx rot + rotationX) (vy rot) (vz rot)) w in
  let rot := rotationOf w (head s) in
  setRotation (head s)
              (mkVec3 (Math_max (- Math_PI / 2) (Math_min (Math_PI / 2) (vx rot)))
                      (vy rot) (vz rot)) w.

Definition dispose (s : t) (w : World) : t * World :=
  let w := scene_remove (head s) w in
  let w := foldl (λ w segment,
                    CollisionSystemBase.removeObject segment (scene_remove segment w))
                 w (segments s) in
  let w := CollisionSystemBase.removeObject (head s) w in
  (withTrail [] s, w).

End Snake.

(** ** NibbleManager (core/Nibble.js) *)

Module NibbleManager.

Local Open Scope Q_scope.

(** [create()]: a nibble mesh, not yet in the scene. *)
Definition create (w : World) : Obj * World :=
  alloc (mkObject3D origin origin false MeshBasicMaterial) w.

Definition maxTries : nat := 100.

Definition isNearWall (x y z : Q) : bool :=
  Qltb (CUBE_HALF_SIZE - SAFE_WALL_DISTANCE) (Qabs x)
  || Qltb (CUBE_HALF_SIZE - SAFE_WALL_DISTANCE) (Qabs y)
  || Qltb (CUBE_HALF_SIZE - SAFE_WALL_DISTANCE) (Qabs z).

(** The inner [for] of [spawn]: is no nearby object closer than
    SAFE_OBJECT_DISTANCE? *)
Definition noObjectNear (w : World) (position : Vec3) : bool :=
  let nearbyObjects :=
    SpatialGrid.getNearby (spatialGrid w) position (SAFE_OBJECT_DISTANCE * 2) in
  forallb (λ obj, negb (Qltb (VectorMath.distanceSquared position (positionOf w obj))
                             (SAFE_OBJECT_DISTANCE * SAFE_OBJECT_DISTANCE)))
          nearbyObjects.

(** The [do { ... } while (!isSafe)] of [spawn].  [fuel] bounds the
    number of rounds the model will run; [None] is fuel exhausted.
    The result is the position the loop leaves with and the number
    of tries. *)
Fixpoint spawnLoop (fuel : nat) (tries : nat) (isSafe : bool) (w : World)
  : option (Vec3 * nat * World) :=
  match fuel with
  | O => None
  | S fuel =>
      let '(r, w) := Math_random w in
      let x := (r - (1 # 2)) * CUBE_SIZE in
      let '(r, w) := Math_random w in
      let y := (r - (1 # 2)) * CUBE_SIZE in
      let '(r, w) := Math_random w in
      let z := (r - (1 # 2)) * CUBE_SIZE in
      let position := mkVec3 x y z in
      if isNearWall x y z then
        (* tries++; continue: the loop condition is tested next *)
        let tries := S tries in
        if negb isSafe then spawnLoop fuel tries isSafe w
        else Some (position, tries, w)
      else
        let isSafe := noObjectNear w position in
        let tries := S tries in
        if Nat.ltb maxTries tries then Some (position, tries, w)
        else if negb isSafe then spawnLoop fuel tries isSafe w
        else Some (position, tries, w)
  end.

Definition spawn (fuel : nat) (w : World) : option World :=
  let '(nibble, w) := create w in
  match spawnLoop fuel 0 false w with
  | None => None
  | Some (position, _, w) =>
      let w := setPosition nibble position w in
      let w := scene_add nibble w in
      let w := withNibbles (λ l, l ++ [nibble]) w in
      Some (CollisionSystemBase.updateObject nibble (positionOf w nibble) w)
  end.

(** [remove(nibble)]: [indexOf], then as [removeByIndex] *)
Definition remove (nibble : Obj) (w : World) : World :=
  match list_find (λ x, x = nibble) (nibbles w) with
  | Some (index, _) =>
      let w := scene_remove nibble w in
      let w := CollisionSystemBase.removeObject nibble w in
      withNibbles (λ l, take index l ++ drop (S index) l) w
  | None => w
  end.

(** [removeByIndex(index)] *)
Definition removeByIndex (index : nat) (w : World) : World :=
  match nibbles w !! index with
  | Some nibble =>
      let w := scene_remove nibble w in
      let w := CollisionSystemBase.removeObject nibble w in
      withNibbles (λ l, take index l ++ drop (S index) l) w
  | None => w
  end.

(** [findNearby(position)] with the default threshold 2.25;
    [None] is the index -1. *)
Definition findNearby (w : World) (position : Vec3) : option nat :=
  fst <$> list_find (λ nibble,
                       Is_true (Qltb (VectorMath.distanceSquared position (positionOf w nibble))
                                     (225 # 100)))
                    (nibbles w).

Definition createAt (position : Vec3) (randomize : bool) (w : World) : World :=
  let '(nibble, w) := create w in
  let w := setPosition nibble position w in
  let w :=
    if randomize then
      let '(rx, w) := Math_random w in
      let '(ry, w) := Math_random w in
      let '(rz, w) := Math_random w in
      let p := positionOf w nibble in
      setPosition nibble (mkVec3 (vx p + (rx - (1 # 2)) * 2)
                                 (vy p + (ry - (1 # 2)) * 2)
                                 (vz p + (rz - (1 # 2)) * 2)) w
    else w in
  let w := scene_add nibble w in
  let w := withNibbles (λ l, l ++ [nibble]) w in
  CollisionSystemBase.updateObject nibble (positionOf w nibble) w.

Definition clear (w : World) : World :=
  let w := foldl (λ w nibble,
                    CollisionSystemBase.removeObject nibble (scene_remove nibble w))
                 w (nibbles w) in
  withNibbles (λ _, []) w.

End NibbleManager.

(** ** CollisionSystem (JS/systems/CollisionSystem.js) *)

Inductive CollisionType := player_collision | shadow_collision.

(** A collision record.  [snake] is the shadow snake of a
    [shadow_collision]; the reported distance is kept through its
    square (no code reads it). *)
Record Collision := mkCollision {
  type : CollisionType;
  snake : option Snake.t;
  object : Obj;
  distanceSquared : Q
}.

Module CollisionSystem.

Include CollisionSystemBase.

Local Open Scope Q_scope.

(** The body of the loop over the objects near the player head. *)
Definition checkPlayerObject (w : World) (playerSnake : Snake.t)
           (collisions : list Collision) (obj : Obj) : list Collision :=
  if Pos.eqb obj (Snake.head playerSnake) then collisions
  else if _isWallObject w obj then collisions
  else if bool_decide (obj ∈ Snake.segments playerSnake) then collisions
  else
    (* [obj === playerSnake] never holds: a grid object is not a Snake *)
    let headPos := positionOf w (Snake.head playerSnake) in
    if distanceLt headPos (positionOf w obj) COLLISION_DISTANCE then
      collisions ++ [mkCollision player_collision None obj
                                 (VectorMath.distanceSquared headPos (positionOf w obj))]
    else collisions.

(** The body of the loop over the objects near a shadow head. *)
Definition checkShadowObject (w : World) (shadow : Snake.t)
           (collisions : list Collision) (obj : Obj) : list Collision :=
  if Pos.eqb obj (Snake.head shadow) then collisions
  else if _isWallObject w obj then collisions
  else
    let headPos := positionOf w (Snake.head shadow) in
    if distanceLt headPos (positionOf w obj) COLLISION_DISTANCE then
      collisions ++ [mkCollision shadow_collision (Some shadow) obj
                                 (VectorMath.distanceSquared headPos (positionOf w obj))]
    else collisions.

Definition checkCollisions (playerSnake : option Snake.t) (shadowSnakes : list Snake.t)
           (w : World) : list Collision * World :=
  let w := recordCollisionCheck w in
  match playerSnake with
  | None => ([], w)
  | Some player =>
      let nearbyObjects :=
        SpatialGrid.getNearby (spatialGrid w) (positionOf w (Snake.head player))
                              (COLLISION_DISTANCE * 2) in
      let collisions := foldl (checkPlayerObject w player) [] nearbyObjects in
      let collisions :=
        foldl (λ collisions shadow,
                 let nearbyShadowObjects :=
                   SpatialGrid.getNearby (spatialGrid w) (positionOf w (Snake.head shadow))
                                         (COLLISION_DISTANCE * 2) in
                 foldl (checkShadowObject w shadow) collisions nearbyShadowObjects)
              collisions shadowSnakes in
      (collisions, w)
  end.

End CollisionSystem.

(** ** Game (core/Game.js) *)

Module Game.

Local Open Scope Q_scope.

Record t := mk {
  world : World;
  playerSnake : option Snake.t;
  shadowSnakes : list Snake.t;
  isGameOver : bool;
  gameStarted : bool;
  isPaused : bool;
  score : nat;
  lastSpawnTime : Q;
  lastShadowSpawnTime : Q;
  isShadowSnakeInvulnerable : bool;
  lastTime : Q;
  (** the callbacks handed to [setTimeout] by [_spawnShadowSnake]
      that have not run yet, each by the head of the shadow snake
      it closes over *)
  timers : list Obj
}.

Definition withWorld (v : World) (g : t) : t :=
  mk v (playerSnake g) (shadowSnakes g) (isGameOver g) (gameStarted g) (isPaused g)
     (score g) (lastSpawnTime g) (lastShadowSpawnTime g) (isShadowSnakeInvulnerable g)
     (lastTime g) (timers g).
Definition withPlayerSnake (v : option Snake.t) (g : t) : t :=
  mk (world g) v (shadowSnakes g) (isGameOver g) (gameStarted g) (isPaused g)
     (score g) (lastSpawnTime g) (lastShadowSpawnTime g) (isShadowSnakeInvulnerable g)
     (lastTime g) (timers g).
Definition withShadowSnakes (v : list Snake.t) (g : t) : t :=
  mk (world g) (playerSnake g) v (isGameOver g) (gameStarted g) (isPaused g)
     (score g) (lastSpawnTime g) (lastShadowSpawnTime g) (isShadowSnakeInvulnerable g)
     (lastTime g) (timers g).
Definition withGameOver (v : bool) (g : t) : t :=
  mk (world g) (playerSnake g) (shadowSnakes g) v (gameStarted g) (isPaused g)
     (score g) (lastSpawnTime g) (lastShadowSpawnTime g) (isShadowSnakeInvulnerable g)
     (lastTime g) (timers g).
Definition withScore (v : nat) (g : t) : t :=
  mk (world g) (playerSnake g) (shadowSnakes g) (isGameOver g) (gameStarted g) (isPaused g)
     v (lastSpawnTime g) (lastShadowSpawnTime g) (isShadowSnakeInvulnerable g)
     (lastTime g) (timers g).
Definition withLastSpawnTime (v : Q) (g : t) : t :=
  mk (world g) (playerSnake g) (shadowSnakes g) (isGameOver g) (gameStarted g) (isPaused g)
     (score g) v (lastShadowSpawnTime g) (isShadowSnakeInvulnerable g)
     (lastTime g) (timers g).
Definition withLastShadowSpawnTime (v : Q) (g : t) : t :=
  mk (world g) (playerSnake g) (shadowSnakes g) (isGameOver g) (gameStarted g) (isPaused g)
     (score g) (lastSpawnTime g) v (isShadowSnakeInvulnerable g)
     (lastTime g) (timers g).
Definition withInvulnerable (v : bool) (g : t) : t :=
  mk (world g) (playerSnake g) (shadowSnakes g) (isGameOver g) (gameStarted g) (isPaused g)
     (score g) (lastSpawnTime g) (lastShadowSpawnTime g) v
     (lastTime g) (timers g).
Definition withLastTime (v : Q) (g : t) : t :=
  mk (world g) (playerSnake g) (shadowSnakes g) (isGameOver g) (gameStarted g) (isPaused g)
     (score g) (lastSpawnTime g) (lastShadowSpawnTime g) (isShadowSnakeInvulnerable g)
     v (timers g).
Definition withTimers (v : list Obj) (g : t) : t :=
  mk (world g) (playerSnake g) (shadowSnakes g) (isGameOver g) (gameStarted g) (isPaused g)
     (score g) (lastSpawnTime g) (lastShadowSpawnTime g) (isShadowSnakeInvulnerable g)
     (lastTime g) v.
Definition withStarted (v : bool) (g : t) : t :=
  mk (world g) (playerSnake g) (shadowSnakes g) (isGameOver g) v (isPaused g)
     (score g) (lastSpawnTime g) (lastShadowSpawnTime g) (isShadowSnakeInvulnerable g)
     (lastTime g) (timers g).

(** Two references to snakes are the same snake ([===]) iff the
    snakes have the same head: every snake allocates its own. *)
Definition sameSnake (a b : Snake.t) : bool := Pos.eqb (Snake.head a) (Snake.head b).

(** The state the constructor and [init] leave, over a world whose
    grid is [new SpatialGrid(10)]. *)
Definition new (w : World) : t :=
  mk w None [] false false false 0%nat 0 0 false 0 [].

(** *** Boundary monitor *)

Definition isInsideCube (halfSize : Q) (position : Vec3) : bool :=
  Qle_bool (Qabs (vx position)) halfSize
  && Qle_bool (Qabs (vy position)) halfSize
  && Qle_bool (Qabs (vz position)) halfSize.

(** The previous position [_checkCubeBoundary] takes from the
    trail. *)
Definition previousPosition (player : Snake.t) (pos : Vec3) : Vec3 :=
  match Snake.trail player with
  | _ :: p :: _ => p
  | [p] => p
  | [] => vsub pos (multiplyScalar (Snake.direction player) SEGMENT_SPACING)
  end.

(** The decision of [_checkCubeBoundary] once [prevPos] and [pos]
    are known: [None] where it returns early or finds no wall, else
    the [wallHitPoint] and [normal] it hands to
    [_spawnShadowSnake]. *)
Definition wallCrossing (halfSize : Q) (prevPos pos : Vec3) : option (Vec3 * Vec3) :=
  let wasInside := isInsideCube halfSize prevPos in
  let isInside := isInsideCube halfSize pos in
  if negb wasInside || isInside then None
  else if Qltb halfSize (Qabs (vx pos)) && Qle_bool (Qabs (vx prevPos)) halfSize then
    Some (mkVec3 (Math_sign (vx pos) * halfSize) (vy pos) (vz pos),
          mkVec3 (- Math_sign (vx pos)) 0 0)
  else if Qltb halfSize (Qabs (vy pos)) && Qle_bool (Qabs (vy prevPos)) halfSize then
    Some (mkVec3 (vx pos) (Math_sign (vy pos) * halfSize) (vz pos),
          mkVec3 0 (- Math_sign (vy pos)) 0)
  else if Qltb halfSize (Qabs (vz pos)) && Qle_bool (Qabs (vz prevPos)) halfSize then
    Some (mkVec3 (vx pos) (vy pos) (Math_sign (vz pos) * halfSize),
          mkVec3 0 0 (- Math_sign (vz pos)))
  else None.

(** The inset of the spawn position on one axis. *)
Definition inset (hit : Q) : Q :=
  let insetAmount := 2 in
  if Qle_bool CUBE_HALF_SIZE (Qabs hit)
  then Math_sign hit * (CUBE_HALF_SIZE - insetAmount)
  else hit.

Definition _spawnShadowSnake `{Platform} (wallHitPoint normal : Vec3) (g : t) : t :=
  let '(currentTime, w) := performance_now (world g) in
  if Qltb (currentTime - lastShadowSpawnTime g) SHADOW_SPAWN_DELAY then withWorld w g
  else
    let g := withLastShadowSpawnTime currentTime g in
    let g := withInvulnerable true g in
    let '(shadowSnake, w) := Snake.new false w in
    let spawnPosition :=
      mkVec3 (inset (vx wallHitPoint)) (inset (vy wallHitPoint)) (inset (vz wallHitPoint)) in
    let w := setPosition (Snake.head shadowSnake) spawnPosition w in
    let playerRotation :=
      from_option (λ player, rotationOf w (Snake.head player)) origin (playerSnake g) in
    let playerDirection := getWorldDirection playerRotation in
    let reflectedDirection := reflect playerDirection normal in
    let lookAtPos :=
      VectorMath.moveForward (positionOf w (Snake.head shadowSnake)) reflectedDirection 1 in
    let w := setRotation (Snake.head shadowSnake)
                         (lookAt (positionOf w (Snake.head shadowSnake)) lookAtPos) w in
    let shadowSnake := Snake.withCreationTime currentTime shadowSnake in
    let shadowSnake := Snake.withInitialReflectionPhase true shadowSnake in
    let shadowSnake := Snake.withTargetDirection reflectedDirection shadowSnake in
    let shadowSnake := Snake.withSpeed (Settings.shadowSpeed (settings w)) shadowSnake in
    let shadowSnake := Snake.withNibblesEaten 0 shadowSnake in
    let shadowSnake := Snake.setNibblesRef shadowSnake in
    let g := withShadowSnakes (shadowSnakes g ++ [shadowSnake]) g in
    let g := withTimers (timers g ++ [Snake.head shadowSnake]) g in
    withWorld w g.

(** The callback of the [setTimeout(..., 3000)] of
    [_spawnShadowSnake], for the shadow snake with head [h]. *)
Definition timerCallback (h : Obj) (g : t) : t :=
  let g := withInvulnerable false g in
  let g := withShadowSnakes
             ((λ s, if Pos.eqb (Snake.head s) h
                    then Snake.withInitialReflectionPhase false s else s)
                <$> shadowSnakes g) g in
  withTimers (filter (λ x, x ≠ h) (timers g)) g.

Definition _checkCubeBoundary `{Platform} (g : t) : t :=
  match playerSnake g with
  | None => g
  | Some player =>
      if negb (Snake.isPlayer player) then g
      else
        let halfSize := CUBE_HALF_SIZE in
        let pos := positionOf (world g) (Snake.head player) in
        let prevPos := previousPosition player pos in
        match wallCrossing halfSize prevPos pos with
        | Some (wallHitPoint, normal) => _spawnShadowSnake wallHitPoint normal g
        | None => g
        end
  end.

(** *** Nibble collection *)

(** What both branches of [_checkNibbleCollection] do for one
    snake; the result tells whether a nibble was eaten. *)
Definition collect (fuel : nat) (snake : Snake.t) (w : World)
  : option (bool * Snake.t * World) :=
  match NibbleManager.findNearby w (positionOf w (Snake.head snake)) with
  | Some index =>
      let w := NibbleManager.removeByIndex index w in
      let '(snake, w) := Snake.addSegment false snake w in
      let snake := Snake.withNibblesEaten (S (Snake.nibblesEaten snake)) snake in
      w ← NibbleManager.spawn fuel w;
      Some (true, snake, w)
  | None => Some (false, snake, w)
  end.

Fixpoint collectShadows (fuel : nat) (snakes : list Snake.t) (w : World)
  : option (list Snake.t * World) :=
  match snakes with
  | [] => Some ([], w)
  | snake :: rest =>
      '(_, snake, w) ← collect fuel snake w;
      '(rest, w) ← collectShadows fuel rest w;
      Some (snake :: rest, w)
  end.

Definition _checkNibbleCollection (fuel : nat) (time : Q) (g : t) : option t :=
  match playerSnake g with
  | None => Some g
  | Some player =>
      '(eaten, player, w) ← collect fuel player (world g);
      let g := withPlayerSnake (Some player) g in
      let g := if eaten : bool then withScore (S (score g)) g else g in
      if Z.eqb (Z.rem (Qfloor (time * 60)) 3) 0 then
        '(shadows, w) ← collectShadows fuel (shadowSnakes g) w;
        Some (withWorld w (withShadowSnakes shadows g))
      else Some (withWorld w g)
  end.

(** *** Collision resolution *)

(** [list.indexOf(x)], for an [x] the list includes *)
Definition indexOf (x : Obj) (l : list Obj) : nat :=
  from_option fst 0%nat (list_find (λ y, y = x) l).

(** The nibbles [_dissolveSnake] drops. *)
Definition nibblesDropped (snake : Snake.t) : nat :=
  if Snake.isPlayer snake
  then Nat.min (List.length (Snake.segments snake)) (Snake.nibblesEaten snake)
  else List.length (Snake.segments snake).

Definition _dissolveSnake (snake : Snake.t) (g : t) : t :=
  let w := world g in
  let w := CollisionSystem.removeObject (Snake.head snake) w in
  let w := foldl (λ w segment, CollisionSystem.removeObject segment w) w
                 (Snake.segments snake) in
  let w := foldl (λ w (i : nat),
                    match Snake.segments snake !! i with
                    | Some segment =>
                        NibbleManager.createAt (positionOf w segment)
                                               (negb (Snake.isPlayer snake)) w
                    | None => w
                    end)
                 w (seq 0 (nibblesDropped snake)) in
  let g :=
    if Snake.isPlayer snake then withGameOver true g
    else withShadowSnakes (filter (λ s, sameSnake s snake = false) (shadowSnakes g)) g in
  let '(snake, w) := Snake.dispose snake w in
  let g := if Snake.isPlayer snake then withPlayerSnake (Some snake) g else g in
  withWorld w g.

(** Does the segment list of the snake include the object, at an
    index past the first ten? *)
Definition selfHit (snake : Snake.t) (obj : Obj) : bool :=
  bool_decide (obj ∈ Snake.segments snake)
  && Nat.leb 10 (indexOf obj (Snake.segments snake)).

(** The [for (const collision of collisions)] of
    [_checkCollisions]; a [return] ends the recursion. *)
Fixpoint resolve (collisions : list Collision) (g : t) : t :=
  match collisions with
  | [] => g
  | collision :: rest =>
      match playerSnake g with
      | None => g
      | Some player =>
          let obj := object collision in
          match type collision, snake collision with
          | player_collision, _ =>
              if Pos.eqb obj (Snake.head player) then resolve rest g
              else if existsb (λ shadow, bool_decide (obj ∈ Snake.segments shadow))
                              (shadowSnakes g)
              then _dissolveSnake player g
              else if selfHit player obj then _dissolveSnake player g
              else resolve rest g
          | shadow_collision, Some shadow =>
              if Pos.eqb obj (Snake.head shadow) then resolve rest g
              else if bool_decide (obj ∈ Snake.segments player)
              then resolve rest (_dissolveSnake shadow g)
              else
                let g :=
                  if existsb (λ otherShadow,
                                negb (sameSnake otherShadow shadow)
                                && bool_decide (obj ∈ Snake.segments otherShadow))
                             (shadowSnakes g)
                  then _dissolveSnake shadow g else g in
                let g := if selfHit shadow obj then _dissolveSnake shadow g else g in
                resolve rest g
          | shadow_collision, None => resolve rest g
          end
      end
  end.

Definition _checkCollisions (g : t) : t :=
  let '(collisions, w) :=
    CollisionSystem.checkCollisions (playerSnake g) (shadowSnakes g) (world g) in
  resolve collisions (withWorld w g).

(** *** The frame *)

(** [shadowSnakes.forEach((snake, index) => ...)] of
    [_updateGameLogic] *)
Definition updateShadows `{Platform} (time delta : Q) (snakes : list Snake.t) (w : World)
  : list Snake.t * World :=
  foldl (λ '(done, w) '(index, snake),
           if Z.eqb (Z.rem (Qfloor (time * 60)) 2) (Z.rem (Z.of_nat index) 2) then
             let '(snake, w) := Snake.update delta snake w in (done ++ [snake], w)
           else (done ++ [snake], w))
        ([], w) (imap (λ index snake, (index, snake)) snakes).

Definition _updateGameLogic `{Platform} (fuel : nat) (time delta : Q) (g : t) : option t :=
  let g :=
    match playerSnake g with
    | Some player =>
        let '(player, w) := Snake.update delta player (world g) in
        withWorld w (withPlayerSnake (Some player) g)
    | None => g
    end in
  let '(shadows, w) := updateShadows time delta (shadowSnakes g) (world g) in
  let g := withWorld w (withShadowSnakes shadows g) in
  (* nibbleManager.animate: scale and glow only *)
  let g := match playerSnake g with Some _ => _checkCubeBoundary g | None => g end in
  g ← _checkNibbleCollection fuel time g;
  let '(currentTime, w) := performance_now (world g) in
  let g := withWorld w g in
  g ← (if Qltb (SPAWN_INTERVAL / Settings.spawnRate (settings (world g)))
               (currentTime - lastSpawnTime g)
       then w ← NibbleManager.spawn fuel (world g);
            Some (withLastSpawnTime currentTime (withWorld w g))
       else Some g);
  Some (match playerSnake g with
        | Some _ => if negb (isShadowSnakeInvulnerable g) then _checkCollisions g else g
        | None => g
        end).

(** [_animate()], as far as the simulation goes: the time is read,
    the performance monitor updates, and the game logic runs if the
    game is being played; the shader, starfield, camera, debug panel
    and render calls draw only. *)
Definition _animate `{Platform} (fuel : nat) (g : t) : option t :=
  let '(now, w) := performance_now (world g) in
  let time := now * (1 # 1000) in
  let delta := time - lastTime g in
  let g := withLastTime time (withWorld w g) in
  let g := withWorld (PerformanceMonitor.update (world g)) g in
  if gameStarted g && negb (isGameOver g) && negb (isPaused g)
  then _updateGameLogic fuel time delta g
  else Some g.

(** [_reset()] *)
Definition _reset `{Platform} (fuel : nat) (g : t) : option t :=
  let w := world g in
  let w := match playerSnake g with
           | Some player => snd (Snake.dispose player w)
           | None => w
           end in
  let w := foldl (λ w snake, snd (Snake.dispose snake w)) w (shadowSnakes g) in
  let g := withShadowSnakes [] g in
  let w := NibbleManager.clear w in
  let w := withGrid SpatialGrid.clear w in
  let g := withScore 0 g in
  let g := withGameOver false g in
  let '(now, w) := performance_now w in
  let g := withLastSpawnTime now g in
  let '(now, w) := performance_now w in
  let g := withLastShadowSpawnTime now g in
  let g := withInvulnerable false g in
  let '(player, w) := Snake.new true w in
  let player := Snake.withSpeed (Settings.speed (settings w)) player in
  let w := setPosition (Snake.head player) (mkVec3 0 0 0) w in
  let rot := rotationOf w (Snake.head player) in
  let w := setRotation (Snake.head player) (mkVec3 (vx rot) (- Math_PI / 2) (vz rot)) w in
  let player := Snake.syncDirection player w in
  let player := Snake.withNibblesEaten 0 player in
  w ← NibbleManager.spawn fuel w;
  Some (withWorld w (withPlayerSnake (Some player) g)).

(** [start()] *)
Definition start `{Platform} (fuel : nat) (g : t) : option t :=
  _reset fuel (withStarted true g).

(** [_restart()] *)
Definition _restart `{Platform} (fuel : nat) (g : t) : option t :=
  _reset fuel (withStarted true g).

Definition withPaused (v : bool) (g : t) : t :=
  mk (world g) (playerSnake g) (shadowSnakes g) (isGameOver g) (gameStarted g) v
     (score g) (lastSpawnTime g) (lastShadowSpawnTime g) (isShadowSnakeInvulnerable g)
     (lastTime g) (timers g).

(** [_togglePause()]; the menu, the sound and the pointer lock are
    outside the simulation. *)
Definition _togglePause (g : t) : t :=
  if isGameOver g then g else withPaused (negb (isPaused g)) g.

(** [_resume()] *)
Definition _resume (g : t) : t := withPaused false g.

(** The [onSnakeRotate] callback [init] hands to the input handler. *)
Definition onSnakeRotate `{Platform} (rotY rotX : Q) (g : t) : t :=
  match playerSnake g with
  | Some player =>
      if negb (isPaused g) && negb (isGameOver g)
      then withWorld (Snake.rotate rotY rotX player (world g)) g
      else g
  | None => g
  end.

End Game.

(** ** Vector3Pool (JS/utils/ObjectPools.js) *)

Module Vector3Pool.

(** A pooled THREE.Vector3 is a mutable object: a handle into [heap].
    [pool] is the array [Vector3Pool.pool], its last element the one
    [pop] takes. *)
Record t := mk {
  heap : gmap Obj Vec3;
  next : Obj;
  pool : list Obj
}.

Definition maxPoolSize : nat := 100.

(** [get()]: [this.pool.pop() || new THREE.Vector3()] *)
Definition get (p : t) : Obj * t :=
  match last (pool p) with
  | Some vector => (vector, mk (heap p) (next p) (removelast (pool p)))
  | None => (next p, mk (<[next p := origin]> (heap p)) (Pos.succ (next p)) (pool p))
  end.

(** [release(vector)] *)
Definition release (vector : Obj) (p : t) : t :=
  if Nat.ltb (length (pool p)) maxPoolSize
  then mk (<[vector := origin]> (heap p)) (next p) (pool p ++ [vector])
  else p.

(** [getMultiple(count)] *)
Definition getMultiple (count : nat) (p : t) : list Obj * t :=
  foldl (λ '(vectors, p) _, let '(vector, p) := get p in (vectors ++ [vector], p))
        ([], p) (seq 0 count).

(** [releaseMultiple(vectors)] *)
Definition releaseMultiple (vectors : list Obj) (p : t) : t :=
  foldl (λ p vector, release vector p) p vectors.

(** [clear()]: [this.pool.length = 0] *)
Definition clear (p : t) : t := mk (heap p) (next p) [].

End Vector3Pool.

(** * Specification vocabulary and sample states *)

(** The object is in the set stored under the key. *)
Definition stored (g : SpatialGrid.t) (key : Key) (o : Obj) : Prop :=
  ∃ s, SpatialGrid.grid g !! key = Some s ∧ o ∈ s.

(** The two maps of the grid agree: an object is stored under a key
    iff that key is its entry of [objectMap]. *)
Definition consistent (g : SpatialGrid.t) : Prop :=
  ∀ o key, SpatialGrid.objectMap g !! o = Some key ↔ stored g key o.

Inductive GridOp :=
  | Insert (o : Obj) (p : Vec3)
  | Remove (o : Obj)
  | Clear.

Definition applyOp (g : SpatialGrid.t) (op : GridOp) : SpatialGrid.t :=
  match op with
  | Insert o p => SpatialGrid.insert g o p
  | Remove o => SpatialGrid.remove g o
  | Clear => SpatialGrid.clear g
  end.






(** The grid reached from [new SpatialGrid(cs)] by the operations. *)
Definition gridAfter (cs : Q) (ops : list GridOp) : SpatialGrid.t :=
  foldl applyOp (SpatialGrid.new cs) ops.


Definition sampleOps : list GridOp :=
  [Insert 1 (mkVec3 3 4 5); Insert 2 (mkVec3 40 0 0); Remove 2;
   Insert 3 (mkVec3 12 0 0); Insert 1 (mkVec3 (-1) 0 2)].








(** The value the next [performance.now()] returns. *)
Definition nextNow (g : Game.t) : Q := clock (Game.world g) (clockIx (Game.world g)).

Definition flatPlatform : Platform := {|
  getWorldDirection := λ _, mkVec3 0 0 1;
  lookAt := λ _ _, origin;
  Math_sin := λ _, 0%Q;
  Math_atan2 := λ _ _, 1%Q;
  Math_sqrt := λ x, x;
  Math_PI := (355 # 113)%Q;
  getLength := λ _, 0%Q;
  getPointAt := λ _ _, origin
|}.


(** An empty scene in which [Math.random()] keeps returning [r] and
    the clock reads 0, 0, 5032, 5048, ...; the performance monitor was
    created at time 0. *)
Definition emptyWorld (r : nat → Q) : World :=
  mkWorld ∅ 1%positive (SpatialGrid.new 10) [] [] Settings.defaults 0
          0 0 0
          r 0
          (λ i, match i with
                | O | S O => 0%Q
                | _ => (5000 + 16 * inject_Z (Z.of_nat i))%Q
                end) 0.

(** Every sample lands 0.1 from the +x, +y and +z faces. *)
Definition wallWorld : World := emptyWorld (λ _, (999 # 1000)%Q).

(** Every sample is the origin, where the head of a snake sits. *)
Definition crowdedWorld : World :=
  (Snake.new (H := flatPlatform) true (emptyWorld (λ _, (1 # 2)%Q))).2.

(** 150 samples near the walls, then the origin of an empty scene. *)
Definition lateWorld : World :=
  emptyWorld (λ i, if Nat.ltb i 450 then (999 # 1000)%Q else (1 # 2)%Q).

(** Beyond half-extent minus WALL_BUFFER on some axis. *)
Definition exceedsSafeBoundary (p : Vec3) : Prop :=
  (CUBE_HALF_SIZE - WALL_BUFFER < Qabs (vx p))%Q
  ∨ (CUBE_HALF_SIZE - WALL_BUFFER < Qabs (vy p))%Q
  ∨ (CUBE_HALF_SIZE - WALL_BUFFER < Qabs (vz p))%Q.



(** A game started in an empty scene, the player at the origin. *)
Definition startedGame : Game.t :=
  let g := Game.new (emptyWorld (λ _, (3 # 4)%Q)) in
  default g (Game.start (H := flatPlatform) 200 g).

(** [startedGame] after the player crossed the +x face at (50,0,0). *)
Definition spawnedGame : Game.t :=
  Game._spawnShadowSnake (H := flatPlatform) (mkVec3 50 0 0) (mkVec3 (-1) 0 0) startedGame.

(** The shadow snake of [spawnedGame]. *)
Definition sampleShadow : Snake.t :=
  default (Snake.mk 1 [] [] origin 0 false 0 0 false 0 0 origin false)
          (last (Game.shadowSnakes spawnedGame)).

(** [startedGame] after the player has grown to 11 segments and has
    curled back: its head is one unit from its segment of index 10. *)
Definition curledGame : Game.t :=
  let player := default sampleShadow (Game.playerSnake startedGame) in
  let '(player, w) :=
    foldl (λ '(s, w) _, Snake.addSegment false s w)
          (player, Game.world startedGame) (seq 0 6) in
  let p := positionOf w (default 1%positive (Snake.segments player !! 10%nat)) in
  let w := setPosition (Snake.head player) (mkVec3 (vx p + 1) (vy p) (vz p)) w in
  let w := CollisionSystem.updateObject (Snake.head player) (positionOf w (Snake.head player)) w in
  Game.withWorld w (Game.withPlayerSnake (Some player) startedGame).

(** [spawnedGame] after the player has moved on for two seconds, the
    shadow snake has grown to 11 segments where it was created, and
    its head has come within one unit of its segment of index 10. *)
Definition curledShadowGame : Game.t :=
  let player := default sampleShadow (Game.playerSnake spawnedGame) in
  let '(player, w) := Snake.update (H := flatPlatform) 1 player (Game.world spawnedGame) in
  let '(player, w) := Snake.update (H := flatPlatform) 1 player w in
  let '(shadow, w) :=
    foldl (λ '(s, w) _, Snake.addSegment false s w) (sampleShadow, w) (seq 0 6) in
  let p := positionOf w (default 1%positive (Snake.segments shadow !! 10%nat)) in
  let w := setPosition (Snake.head shadow) (mkVec3 (vx p + 1) (vy p) (vz p)) w in
  Game.withWorld w (Game.withPlayerSnake (Some player)
                      (Game.withShadowSnakes [shadow] spawnedGame)).



(** The object is tracked, in the cell of its current position. *)
Definition trackedAtPosition (w : World) (o : Obj) : Prop :=
  SpatialGrid.objectMap (spatialGrid w) !! o
  = Some (SpatialGrid.getGridKey (spatialGrid w) (positionOf w o)).


(** A check of [consistent] that computes. *)
Definition consistentb (g : SpatialGrid.t) : bool :=
  bool_decide (map_Forall (λ o key, o ∈ default [] (SpatialGrid.grid g !! key))
                          (SpatialGrid.objectMap g))
  && bool_decide (map_Forall (λ key s, Forall (λ o, SpatialGrid.objectMap g !! o = Some key) s)
                             (SpatialGrid.grid g)).



(** A phase of the frame that leaves the collision counter, the
    game-over flag, the invulnerability flag and its timers alone and
    keeps every shadow snake. *)
Record quiet (g g' : Game.t) : Prop := {
  quiet_checks : collisionChecks (Game.world g') = collisionChecks (Game.world g);
  quiet_gameOver : Game.isGameOver g' = Game.isGameOver g;
  quiet_flag : Game.isShadowSnakeInvulnerable g' = Game.isShadowSnakeInvulnerable g;
  quiet_timers : Game.timers g' = Game.timers g;
  quiet_stamp : Game.lastShadowSpawnTime g' = Game.lastShadowSpawnTime g;
  quiet_heads : Snake.head <$> Game.shadowSnakes g' = Snake.head <$> Game.shadowSnakes g
}.

(** The boundary check either changes nothing the collision phase
    looks at, or spawns: sets the flag, registers a timer and appends
    a snake. *)
Definition spawnedIn (g g' : Game.t) : Prop :=
  collisionChecks (Game.world g') = collisionChecks (Game.world g)
  ∧ Game.isGameOver g' = Game.isGameOver g
  ∧ Game.isShadowSnakeInvulnerable g' = true
  ∧ ∃ shadowSnake,
      Game.timers g' = Game.timers g ++ [Snake.head shadowSnake]
      ∧ Game.shadowSnakes g' = Game.shadowSnakes g ++ [shadowSnake].

(** The collision phase at the end of [_updateGameLogic]. *)
Definition collisionPhase (g : Game.t) : Game.t :=
  match Game.playerSnake g with
  | Some _ => if negb (Game.isShadowSnakeInvulnerable g) then Game._checkCollisions g else g
  | None => g
  end.

(** The world at the head of a frame from [g]: the time has been
    read and the performance monitor has updated, zeroing its
    collision counter when a second has passed since its last
    report. *)
Definition monitored (g : Game.t) : World :=
  PerformanceMonitor.update (performance_now (Game.world g)).2.

(** The states after each of [n] successive frames from [g], with no
    timer callback and no reset in between. *)
Fixpoint frames `{Platform} (fuel n : nat) (g : Game.t) : option (list Game.t) :=
  match n with
  | O => Some []
  | S n =>
      g' ← Game._animate fuel g;
      gs ← frames fuel n g';
      Some (g' :: gs)
  end.

(** No state of the list has counted a collision check: the counter
    of each is what the monitor left at the head of the frame that
    led to it from the state before. *)
Fixpoint unchecked (g : Game.t) (gs : list Game.t) : Prop :=
  match gs with
  | [] => True
  | g' :: gs =>
      collisionChecks (Game.world g') = collisionChecks (monitored g) ∧ unchecked g' gs
  end.

(** [startedGame] with the player one tenth of a unit from the +z
    face, heading for it. *)
Definition edgeGame : Game.t :=
  let player := default sampleShadow (Game.playerSnake startedGame) in
  let w := setPosition (Snake.head player) (mkVec3 0 0 (499 # 10)) (Game.world startedGame) in
  let player := Snake.syncDirection (H := flatPlatform) player w in
  Game.withWorld w (Game.withPlayerSnake (Some player) startedGame).


(** No cell of the grid map is empty, and no cell lists an object
    twice. *)
Definition compact (g : SpatialGrid.t) : Prop :=
  ∀ key s, SpatialGrid.grid g !! key = Some s → s ≠ [] ∧ NoDup s.

(** What [checkCollisions] has established of a collision it reports
    for the snake [subject]. *)
Definition reported (w : World) (subject : Snake.t) (c : Collision) : Prop :=
  object c ≠ Snake.head subject
  ∧ CollisionSystem._isWallObject w (object c) = false
  ∧ object c ∈ SpatialGrid.getNearby (spatialGrid w) (positionOf w (Snake.head subject))
                                     (COLLISION_DISTANCE * 2)
  ∧ distanceSquared c
    = VectorMath.distanceSquared (positionOf w (Snake.head subject)) (positionOf w (object c))
  ∧ (distanceSquared c < COLLISION_DISTANCE * COLLISION_DISTANCE)%Q.

(** [startedGame] with one more nibble, half a unit from the head of
    the player. *)
Definition nibbleAtHead : World :=
  NibbleManager.createAt (mkVec3 (1 # 2) 0 0) false (Game.world startedGame).

(** What no dissolution undoes: the score and the run flags stay, the
    shadow snakes only get fewer, a finished game stays finished, and
    the nibbles only get more. *)
Record dissolved (g g' : Game.t) : Prop := {
  dissolved_score : Game.score g' = Game.score g;
  dissolved_started : Game.gameStarted g' = Game.gameStarted g;
  dissolved_paused : Game.isPaused g' = Game.isPaused g;
  dissolved_shadows : Game.shadowSnakes g' `sublist_of` Game.shadowSnakes g;
  dissolved_gameOver : Game.isGameOver g = true → Game.isGameOver g' = true;
  dissolved_nibbles :
    length (nibbles (Game.world g)) ≤ length (nibbles (Game.world g'))
}.

(** [spawnedGame] with the head of the player one unit from the
    first segment of the shadow snake. *)
Definition touchingGame : Game.t :=
  let player := default sampleShadow (Game.playerSnake spawnedGame) in
  let w := Game.world spawnedGame in
  let p := positionOf w (default 1%positive (Snake.segments sampleShadow !! 0%nat)) in
  let w := setPosition (Snake.head player) (mkVec3 (vx p + 1) (vy p) (vz p)) w in
  let w := CollisionSystem.updateObject (Snake.head player) (positionOf w (Snake.head player)) w in
  Game.withWorld w spawnedGame.

(** [spawnedGame] a frame later: the player has moved on for a
    second, and the head of the shadow snake lies halfway between the
    first two segments of the player. *)
Definition pincerGame : Game.t :=
  let player := default sampleShadow (Game.playerSnake spawnedGame) in
  let '(player, w) := Snake.update (H := flatPlatform) 1 player (Game.world spawnedGame) in
  let p0 := positionOf w (default 1%positive (Snake.segments player !! 0%nat)) in
  let p1 := positionOf w (default 1%positive (Snake.segments player !! 1%nat)) in
  let w := setPosition (Snake.head sampleShadow)
             (mkVec3 (vx p0) (vy p0) ((vz p0 + vz p1) / 2)) w in
  Game.withWorld w (Game.withPlayerSnake (Some player) spawnedGame).

(** The collisions [checkCollisions] reports in [pincerGame]. *)
Definition pincerHits : list Collision :=
  (CollisionSystem.checkCollisions (Game.playerSnake pincerGame)
                                   (Game.shadowSnakes pincerGame)
                                   (Game.world pincerGame)).1.

(** [pincerGame] as [_checkCollisions] hands it to the resolution. *)
Definition pincerChecked : Game.t :=
  Game.withWorld (CollisionSystem.checkCollisions (Game.playerSnake pincerGame)
                                                  (Game.shadowSnakes pincerGame)
                                                  (Game.world pincerGame)).2 pincerGame.

(** The sample the loop of [spawn] draws in its round [k], counted
    from 0, from the random stream of the world. *)
Definition sampleAt (w : World) (k : nat) : Vec3 :=
  let r (i : nat) := randoms w (randomIx w + 3 * k + i) in
  mkVec3 ((r 0%nat - (1 # 2)) * CUBE_SIZE)
         ((r 1%nat - (1 # 2)) * CUBE_SIZE)
         ((r 2%nat - (1 # 2)) * CUBE_SIZE).

(** The sample is clear of the walls and of the objects around it. *)
Definition sampleSafe (w : World) (p : Vec3) : bool :=
  negb (NibbleManager.isNearWall (vx p) (vy p) (vz p)) && NibbleManager.noObjectNear w p.

(** The first two samples land 0.1 from the faces, the third at
    (25, 25, 25). *)
Definition thirdTimeWorld : World :=
  emptyWorld (λ i, if Nat.ltb i 6 then (999 # 1000)%Q else (3 # 4)%Q).

(** 1 if [findNearby] finds a nibble at the position, else 0. *)
Definition eats (w : World) (p : Vec3) : nat :=
  if NibbleManager.findNearby w p is Some _ then 1 else 0.


(** What the steering of a snake leaves of the world as it was. *)
Record sameBoard (w w' : World) : Prop := {
  board_grid : spatialGrid w' = spatialGrid w;
  board_nibbles : nibbles w' = nibbles w;
  board_settings : settings w' = settings w;
  board_faces : faces w' = faces w;
  board_scene : ∀ o, is_Some (objects w' !! o) ↔ is_Some (objects w !! o)
}.

(** The fields of a snake that only the constructor, [addSegment],
    [update] and the game write. *)
Definition sameBody (s s' : Snake.t) : Prop :=
  Snake.head s' = Snake.head s ∧ Snake.segments s' = Snake.segments s
  ∧ Snake.trail s' = Snake.trail s ∧ Snake.isPlayer s' = Snake.isPlayer s
  ∧ Snake.colorOffset s' = Snake.colorOffset s ∧ Snake.direction s' = Snake.direction s.

(** The game is as it was, the clock, [lastTime] and the statistics
    of the performance monitor apart; the collision counter of the
    monitor has not gone up. *)
Definition frozen (g g' : Game.t) : Prop :=
  objects (Game.world g') = objects (Game.world g)
  ∧ spatialGrid (Game.world g') = spatialGrid (Game.world g)
  ∧ nibbles (Game.world g') = nibbles (Game.world g)
  ∧ randomIx (Game.world g') = randomIx (Game.world g)
  ∧ collisionChecks (Game.world g') ≤ collisionChecks (Game.world g)
  ∧ Game.playerSnake g' = Game.playerSnake g
  ∧ Game.shadowSnakes g' = Game.shadowSnakes g
  ∧ Game.score g' = Game.score g
  ∧ Game.isGameOver g' = Game.isGameOver g
  ∧ Game.gameStarted g' = Game.gameStarted g
  ∧ Game.isPaused g' = Game.isPaused g
  ∧ Game.isShadowSnakeInvulnerable g' = Game.isShadowSnakeInvulnerable g
  ∧ Game.timers g' = Game.timers g
  ∧ Game.lastSpawnTime g' = Game.lastSpawnTime g
  ∧ Game.lastShadowSpawnTime g' = Game.lastShadowSpawnTime g.

(** No game logic runs: the game has not started, is over or is
    paused. *)
Definition idle (g : Game.t) : Prop :=
  Game.gameStarted g && negb (Game.isGameOver g) && negb (Game.isPaused g) = false.

(** The object is not attached to the scene. *)
Definition detached (w : World) (o : Obj) : Prop :=
  ∀ ob, objects w !! o = Some ob → parent ob = false.

(** From one state of the game to a later one the field has lost no
    nibble and the score has gone up by at most [k]. *)
Definition gain (k : nat) (g g' : Game.t) : Prop :=
  length (nibbles (Game.world g)) ≤ length (nibbles (Game.world g'))
  ∧ Game.score g ≤ Game.score g' ≤ Game.score g + k.





(** * Properties *)

(** ** Rational arithmetic *)

Lemma Qltb_lt a b : Qltb a b = true <-> (a < b)%Q.
Proof.
  unfold Qltb. rewrite negb_true_iff. split.
  - intros H. apply Qnot_le_lt. intros Hle. apply Qle_bool_iff in Hle. congruence.
  - intros H. destruct (Qle_bool b a) eqn:E; [|done].
    apply Qle_bool_iff in E. lra.
Qed.

Lemma Qltb_ge a b : Qltb a b = false <-> (b <= a)%Q.
Proof.
  unfold Qltb. rewrite negb_false_iff. apply Qle_bool_iff.
Qed.

Lemma Qle_bool_gt a b : Qle_bool a b = false <-> (b < a)%Q.
Proof.
  split.
  - intros H. apply Qnot_le_lt. intros Hle. apply Qle_bool_iff in Hle. congruence.
  - intros H. destruct (Qle_bool a b) eqn:E; [|done]. apply Qle_bool_iff in E. lra.
Qed.


Lemma floor_shift (x y : Q) (n : Z) :
  (x <= y + inject_Z n)%Q -> (Qfloor x <= Qfloor y + n)%Z.
Proof.
  intros H.
  pose proof (Qfloor_le x) as Hx. pose proof (Qlt_floor y) as Hy.
  assert (inject_Z (Qfloor x) < inject_Z (Qfloor y + 1 + n))%Q as Hlt.
  { rewrite !inject_Z_plus in *. change (inject_Z 1) with 1%Q in *. lra. }
  rewrite <- Zlt_Qlt in Hlt. lia.
Qed.

(** |q - p| <= r puts the cell of q within ceil(r/cs) cells of the cell of p. *)
Lemma floor_within (cs p q r : Q) :
  (0 < cs)%Q -> (p - r <= q)%Q -> (q <= p + r)%Q ->
  (Qfloor (p / cs) - Qceiling (r / cs) <= Qfloor (q / cs)
   <= Qfloor (p / cs) + Qceiling (r / cs))%Z.
Proof.
  intros Hcs Hlo Hhi.
  pose proof (Qle_ceiling (r / cs)) as Hc.
  assert (0 <= / cs)%Q as Hinv by (apply Qlt_le_weak, Qinv_lt_0_compat; done).
  assert (q / cs <= p / cs + r / cs)%Q as H1.
  { assert ((p + r) / cs == p / cs + r / cs)%Q as E by (field; lra).
    rewrite <- E. apply Qmult_le_compat_r; done. }
  assert (p / cs <= q / cs + r / cs)%Q as H2.
  { assert ((q + r) / cs == q / cs + r / cs)%Q as E by (field; lra).
    rewrite <- E. apply Qmult_le_compat_r; [lra|done]. }
  split.
  - cut (Qfloor (p / cs) <= Qfloor (q / cs) + Qceiling (r / cs))%Z; [lia|].
    apply floor_shift. lra.
  - apply floor_shift. lra.
Qed.

Lemma sq_nonneg (a : Q) : (0 <= a * a)%Q.
Proof. nra. Qed.

Lemma square_bound (d r : Q) : (0 <= r)%Q -> (d * d <= r * r)%Q -> (- r <= d <= r)%Q.
Proof. intros Hr H. split; nra. Qed.

(** ** Specification vocabulary for the grid *)

(** ** The grid *)

Lemma elem_of_set_add (o x : Obj) (s : list Obj) : x ∈ set_add o s ↔ x = o ∨ x ∈ s.
Proof.
  unfold set_add. case_decide.
  - split; [auto|]. intros [->|]; done.
  - rewrite elem_of_app, list_elem_of_singleton. tauto.
Qed.

Lemma NoDup_set_add (o : Obj) (s : list Obj) : NoDup s → NoDup (set_add o s).
Proof.
  intros Hs. unfold set_add. case_decide; [done|].
  apply NoDup_app. split_and!; [done| |apply NoDup_singleton].
  intros x Hx Hk. apply list_elem_of_singleton in Hk. subst. done.
Qed.

Lemma elem_of_set_delete (o x : Obj) (s : list Obj) : x ∈ set_delete o s ↔ x ≠ o ∧ x ∈ s.
Proof. unfold set_delete. by rewrite list_elem_of_filter. Qed.

Lemma foldl_set_add (s acc : list Obj) :
  (NoDup acc → NoDup (foldl (λ acc obj, set_add obj acc) acc s))
  ∧ ∀ x, x ∈ foldl (λ acc obj, set_add obj acc) acc s ↔ x ∈ acc ∨ x ∈ s.
Proof.
  revert acc. induction s as [|o s IH]; intros acc; simpl.
  - split; [done|]. intros x. rewrite elem_of_nil. tauto.
  - destruct (IH (set_add o acc)) as [IH1 IH2]. split.
    + intros Hacc. apply IH1, NoDup_set_add, Hacc.
    + intros x. rewrite IH2, elem_of_set_add, elem_of_cons. tauto.
Qed.

Lemma cellSize_remove g o : SpatialGrid.cellSize (SpatialGrid.remove g o) = SpatialGrid.cellSize g.
Proof. done. Qed.

Lemma cellSize_insert g o p : SpatialGrid.cellSize (SpatialGrid.insert g o p) = SpatialGrid.cellSize g.
Proof. done. Qed.

Lemma objectMap_remove g o o' :
  SpatialGrid.objectMap (SpatialGrid.remove g o) !! o'
  = if decide (o = o') then None else SpatialGrid.objectMap g !! o'.
Proof. unfold SpatialGrid.remove. simpl. apply lookup_delete. Qed.

Lemma objectMap_insert g o p o' :
  SpatialGrid.objectMap (SpatialGrid.insert g o p) !! o'
  = if decide (o = o') then Some (SpatialGrid.getGridKey g p)
    else SpatialGrid.objectMap g !! o'.
Proof.
  unfold SpatialGrid.insert. simpl. rewrite lookup_insert.
  case_decide; [done|]. rewrite lookup_delete. case_decide; done.
Qed.

Lemma stored_remove g o key o' :
  consistent g →
  stored (SpatialGrid.remove g o) key o' ↔ o' ≠ o ∧ stored g key o'.
Proof.
  intros Hg. unfold stored, SpatialGrid.remove. simpl.
  destruct (SpatialGrid.objectMap g !! o) as [k|] eqn:Ho.
  - destruct (proj1 (Hg o k) Ho) as (s & Hs & Hos). rewrite Hs.
    destruct (decide (key = k)) as [->|Hne].
    + destruct (Nat.eqb_spec (length (set_delete o s)) 0) as [Hlen|Hlen].
      * rewrite lookup_delete_eq. split; [intros (? & ? & ?); done|].
        intros (Hneq & s' & Hs' & Ho'). rewrite Hs in Hs'. simplify_eq.
        assert (o' ∈ set_delete o s') as Hin by (apply elem_of_set_delete; done).
        apply nil_length_inv in Hlen. rewrite Hlen in Hin. by apply elem_of_nil in Hin.
      * rewrite lookup_insert_eq. split.
        -- intros (s' & ? & Hin). simplify_eq. apply elem_of_set_delete in Hin.
           destruct Hin. split; [done|]. eauto.
        -- intros (Hneq & s' & Hs' & Ho'). rewrite Hs in Hs'. simplify_eq.
           eexists. split; [done|]. apply elem_of_set_delete. done.
    + assert (∀ m : gmap Key (list Obj),
                (if Nat.eqb (length (set_delete o s)) 0 then delete k (SpatialGrid.grid g)
                 else <[k := set_delete o s]> (SpatialGrid.grid g)) !! key
                = SpatialGrid.grid g !! key) as E.
      { intros _. destruct (Nat.eqb _ _).
        - by rewrite lookup_delete_ne.
        - by rewrite lookup_insert_ne. }
      rewrite (E ∅). split.
      * intros (s' & Hs' & Hin). split; [|eauto].
        intros ->. apply Hne. 
        assert (SpatialGrid.objectMap g !! o = Some key) as Hk by (apply Hg; red; eauto).
        congruence.
      * intros (_ & ?). done.
  - split.
    + intros (s' & Hs' & Hin). split; [|eauto].
      intros ->. assert (SpatialGrid.objectMap g !! o = Some key) as Hk by (apply Hg; red; eauto).
      congruence.
    + intros (_ & ?). done.
Qed.

Lemma consistent_new cs : consistent (SpatialGrid.new cs).
Proof.
  intros o key. unfold stored. simpl. rewrite lookup_empty. split; [done|].
  intros (s & Hs & _). by rewrite lookup_empty in Hs.
Qed.

Lemma consistent_clear g : consistent (SpatialGrid.clear g).
Proof. apply (consistent_new (SpatialGrid.cellSize g)). Qed.

Lemma consistent_remove g o : consistent g → consistent (SpatialGrid.remove g o).
Proof.
  intros Hg o' key. rewrite objectMap_remove, stored_remove by done.
  case_decide as E.
  - subst. split; [done|]. intros [? _]. done.
  - rewrite (Hg o' key). split; [|tauto]. intros ?. split; [congruence|done].
Qed.

Lemma grid_insert g o p :
  SpatialGrid.grid (SpatialGrid.insert g o p)
  = <[SpatialGrid.getGridKey g p :=
        set_add o (default [] (SpatialGrid.grid (SpatialGrid.remove g o)
                               !! SpatialGrid.getGridKey g p))]>
      (SpatialGrid.grid (SpatialGrid.remove g o)).
Proof. done. Qed.

Lemma stored_insert g o p key o' :
  consistent g →
  stored (SpatialGrid.insert g o p) key o'
  ↔ (o' = o ∧ key = SpatialGrid.getGridKey g p) ∨ (o' ≠ o ∧ stored g key o').
Proof.
  intros Hg. pose proof (stored_remove g o) as Hrem.
  unfold stored at 1. rewrite grid_insert.
  set (k := SpatialGrid.getGridKey g p).
  set (g1 := SpatialGrid.remove g o) in *.
  destruct (decide (key = k)) as [->|Hne].
  - rewrite lookup_insert_eq. split.
    + intros (s & Hs & Hin). simplify_eq. apply elem_of_set_add in Hin as [Hin|Hin].
      { left. done. }
      right. apply Hrem; [done|].
      destruct (SpatialGrid.grid g1 !! k) as [s|] eqn:E; simpl in Hin.
      * exists s. done.
      * by apply elem_of_nil in Hin.
    + intros [[-> _]|[Hneq Hst]]; eexists; (split; [done|]); apply elem_of_set_add; [by left|].
      right. assert (stored g1 k o') as (s & Hs & Hin) by (apply Hrem; done).
      rewrite Hs. done.
  - rewrite lookup_insert_ne by done. fold (stored g1 key o'). rewrite Hrem by done.
    split; [tauto|]. intros [[_ ?]|?]; done.
Qed.

Lemma consistent_insert g o p : consistent g → consistent (SpatialGrid.insert g o p).
Proof.
  intros Hg o' key. rewrite objectMap_insert, stored_insert by done.
  case_decide as E.
  - subst. split.
    + intros [= <-]. by left.
    + intros [[_ ->]|[? _]]; done.
  - rewrite (Hg o' key). split; [intros ?; right; done|].
    intros [[-> _]|[_ ?]]; done.
Qed.

Lemma consistent_applyOp g op : consistent g → consistent (applyOp g op).
Proof.
  destruct op; simpl; auto using consistent_insert, consistent_remove, consistent_clear.
Qed.




Lemma consistent_run (ops : list GridOp) (g : SpatialGrid.t) :
  consistent g → consistent (foldl applyOp g ops).
Proof.
  revert g. induction ops as [|op ops IH]; intros g Hg; simpl; [done|].
  apply IH, consistent_applyOp, Hg.
Qed.

(** *** Query *)

Lemma elem_of_nearbyKeys (center key : Key) (cellRadius : Z) :
  key ∈ SpatialGrid.nearbyKeys center cellRadius ↔
  (center.1.1 - cellRadius ≤ key.1.1 ≤ center.1.1 + cellRadius)%Z
  ∧ (center.1.2 - cellRadius ≤ key.1.2 ≤ center.1.2 + cellRadius)%Z
  ∧ (center.2 - cellRadius ≤ key.2 ≤ center.2 + cellRadius)%Z.
Proof.
  destruct center as [[cx cy] cz], key as [[x y] z]. unfold SpatialGrid.nearbyKeys. simpl.
  rewrite list_elem_of_bind. split.
  - intros (x' & Hy & Hx). apply list_elem_of_bind in Hy as (y' & Hz & Hy).
    apply list_elem_of_bind in Hz as (z' & Hk & Hz).
    apply list_elem_of_singleton in Hk. simplify_eq.
    rewrite elem_of_seqZ in Hx, Hy, Hz. lia.
  - intros (Hx & Hy & Hz). exists x. rewrite elem_of_seqZ. split; [|lia].
    apply list_elem_of_bind. exists y. rewrite elem_of_seqZ. split; [|lia].
    apply list_elem_of_bind. exists z. rewrite elem_of_seqZ. split; [|lia].
    by apply list_elem_of_singleton.
Qed.

Lemma getNearby_spec (g : SpatialGrid.t) (position : Vec3) (radius : Q) :
  NoDup (SpatialGrid.getNearby g position radius)
  ∧ ∀ o, o ∈ SpatialGrid.getNearby g position radius ↔
         ∃ key, key ∈ SpatialGrid.nearbyKeys (SpatialGrid.getGridKey g position)
                                             (Qceiling (radius / SpatialGrid.cellSize g))
                ∧ stored g key o.
Proof.
  unfold SpatialGrid.getNearby.
  set (keys := SpatialGrid.nearbyKeys _ _). clearbody keys.
  set (step := λ (nearbyObjects : list Obj) (key : Key),
         match SpatialGrid.grid g !! key with
         | Some s => foldl (λ acc obj, set_add obj acc) nearbyObjects s
         | None => nearbyObjects
         end).
  assert (∀ acc, (NoDup acc → NoDup (foldl step acc keys))
                 ∧ ∀ o, o ∈ foldl step acc keys ↔
                        o ∈ acc ∨ ∃ key, key ∈ keys ∧ stored g key o) as H.
  { induction keys as [|k keys IH]; intros acc; simpl.
    - split; [done|]. intros o. split; [auto|]. intros [?|(? & []%elem_of_nil & _)]. done.
    - destruct (IH (step acc k)) as [IH1 IH2]. clear IH.
      assert ((NoDup acc → NoDup (step acc k))
              ∧ ∀ o, o ∈ step acc k ↔ o ∈ acc ∨ stored g k o) as [S1 S2].
      { unfold step, stored. destruct (SpatialGrid.grid g !! k) as [s|].
        - destruct (foldl_set_add s acc) as [F1 F2]. split; [done|].
          intros o. rewrite F2. split; [|intros [?|(? & ? & ?)]; simplify_eq; auto].
          intros [?|?]; eauto.
        - split; [done|]. intros o. split; [auto|]. intros [?|(? & ? & ?)]; done. }
      split; [auto|]. intros o. rewrite IH2, S2. split.
      + intros [[?|?]|(key & ? & ?)]; [by left| |].
        * right. exists k. split; [left|done].
        * right. exists key. split; [by right|done].
      + intros [?|(key & [->|?]%elem_of_cons & ?)]; [by left; left|by left; right|].
        right. eauto. }
  destruct (H []) as [H1 H2]. split; [apply H1, NoDup_nil_2|].
  intros o. rewrite H2. split; [|auto]. intros [[]%elem_of_nil|?]. done.
Qed.

(** *** The query cube of the design document *)



Lemma within_radius_nearbyKeys (g : SpatialGrid.t) (position p : Vec3) (radius : Q) :
  (0 < SpatialGrid.cellSize g)%Q → (0 <= radius)%Q →
  (VectorMath.distanceSquared position p <= radius * radius)%Q →
  SpatialGrid.getGridKey g p
  ∈ SpatialGrid.nearbyKeys (SpatialGrid.getGridKey g position)
                   (Qceiling (radius / SpatialGrid.cellSize g)).
Proof.
  intros Hcs Hr Hd. rewrite elem_of_nearbyKeys. unfold SpatialGrid.getGridKey. cbn [fst snd].
  unfold VectorMath.distanceSquared in Hd. cbv zeta in Hd.
  destruct position as [x y z], p as [x' y' z']. cbn [vx vy vz] in *.
  pose proof (sq_nonneg (x - x')) as Sx.
  pose proof (sq_nonneg (y - y')) as Sy.
  pose proof (sq_nonneg (z - z')) as Sz.
  assert (- radius <= x - x' <= radius)%Q as Hx by (apply square_bound; [done|lra]).
  assert (- radius <= y - y' <= radius)%Q as Hy by (apply square_bound; [done|lra]).
  assert (- radius <= z - z' <= radius)%Q as Hz by (apply square_bound; [done|lra]).
  split_and!; apply floor_within; (done || lra).
Qed.



Lemma consistent_gridAfter cs ops : consistent (gridAfter cs ops).
Proof. apply consistent_run, consistent_new. Qed.





Example sample_query : SpatialGrid.getNearby (gridAfter 10 sampleOps) origin (36 # 10) = [1%positive; 3%positive].
Proof. vm_compute. reflexivity. Qed.

(** ** Boundary monitor *)







(** ** Shadow snake spawning *)

Lemma spawnShadowSnake_dropped `{Platform} (wallHitPoint normal : Vec3) (g : Game.t) :
  (nextNow g - Game.lastShadowSpawnTime g < SHADOW_SPAWN_DELAY)%Q →
  Game._spawnShadowSnake wallHitPoint normal g
  = Game.withWorld (snd (performance_now (Game.world g))) g.
Proof.
  intros Hlt. unfold Game._spawnShadowSnake. cbn [performance_now].
  apply Qltb_lt in Hlt. unfold nextNow in Hlt. by rewrite Hlt.
Qed.

Lemma spawnShadowSnake_spawned `{Platform} (wallHitPoint normal : Vec3) (g : Game.t) :
  (SHADOW_SPAWN_DELAY <= nextNow g - Game.lastShadowSpawnTime g)%Q →
  let g' := Game._spawnShadowSnake wallHitPoint normal g in
  Game.lastShadowSpawnTime g' = nextNow g
  ∧ Game.isShadowSnakeInvulnerable g' = true
  ∧ Game.isGameOver g' = Game.isGameOver g
  ∧ Game.playerSnake g' = Game.playerSnake g
  ∧ ∃ shadowSnake,
      Game.shadowSnakes g' = Game.shadowSnakes g ++ [shadowSnake]
      ∧ Game.timers g' = Game.timers g ++ [Snake.head shadowSnake]
      ∧ Snake.creationTime shadowSnake = nextNow g
      ∧ Snake.isInitialReflectionPhase shadowSnake = true.
Proof.
  intros Hge g'. unfold g', Game._spawnShadowSnake. cbn [performance_now].
  apply Qltb_ge in Hge. unfold nextNow in *. rewrite Hge.
  destruct (Snake.new false _) as [shadowSnake w].
  split_and!; [reflexivity..|]. eexists. split_and!; reflexivity.
Qed.

(** C8: a crossing that arrives less than SHADOW_SPAWN_DELAY after
    the last successful spawn is dropped without a trace, so of two
    crossings less than 3000 ms apart at most one creates a snake. *)
Theorem shadow_spawn_rate_limited `{Platform} :
  (∀ (wallHitPoint normal : Vec3) (g : Game.t),
     (nextNow g - Game.lastShadowSpawnTime g < SHADOW_SPAWN_DELAY)%Q →
     let g' := Game._spawnShadowSnake wallHitPoint normal g in
     Game.shadowSnakes g' = Game.shadowSnakes g
     ∧ Game.lastShadowSpawnTime g' = Game.lastShadowSpawnTime g
     ∧ Game.isShadowSnakeInvulnerable g' = Game.isShadowSnakeInvulnerable g
     ∧ Game.timers g' = Game.timers g
     ∧ objects (Game.world g') = objects (Game.world g)
     ∧ spatialGrid (Game.world g') = spatialGrid (Game.world g))
  ∧ (∀ (hit1 normal1 hit2 normal2 : Vec3) (g1 g2 : Game.t),
       (nextNow g2 - nextNow g1 < SHADOW_SPAWN_DELAY)%Q →
       let g1' := Game._spawnShadowSnake hit1 normal1 g1 in
       length (Game.shadowSnakes g1') ≠ length (Game.shadowSnakes g1) →
       (Game.lastShadowSpawnTime g2 == Game.lastShadowSpawnTime g1')%Q →
       Game.shadowSnakes (Game._spawnShadowSnake hit2 normal2 g2) = Game.shadowSnakes g2).
Proof.
  split.
  - intros wallHitPoint normal g Hlt g'. unfold g'.
    rewrite spawnShadowSnake_dropped by done. split_and!; reflexivity.
  - intros hit1 normal1 hit2 normal2 g1 g2 Hclose g1' Hspawned Hstamp.
    destruct (Qlt_le_dec (nextNow g1 - Game.lastShadowSpawnTime g1) SHADOW_SPAWN_DELAY)
      as [Hdrop|Hgo].
    + exfalso. apply Hspawned. unfold g1'. by rewrite spawnShadowSnake_dropped.
    + destruct (spawnShadowSnake_spawned hit1 normal1 g1 Hgo) as (Hlast & _).
      fold g1' in Hlast. rewrite Hlast in Hstamp.
      rewrite spawnShadowSnake_dropped; [done|]. lra.
Qed.

(** ** Folds *)

Lemma foldl_invariant {A B : Type} (P : A → Prop) (f : A → B → A) (l : list B) (a : A) :
  P a → (∀ a x, x ∈ l → P a → P (f a x)) → P (foldl f a l).
Proof.
  revert a. induction l as [|x l IH]; intros a Ha Hf; simpl; [done|].
  apply IH.
  - apply Hf; [left|done].
  - intros a' y Hy. apply Hf. by right.
Qed.

(** ** Dissolution *)

Lemma nibbles_removeObject o w : nibbles (CollisionSystem.removeObject o w) = nibbles w.
Proof. unfold CollisionSystem.removeObject. by destruct (CollisionSystem._isWallObject w o). Qed.

Lemma nibbles_updateObject o p w : nibbles (CollisionSystem.updateObject o p w) = nibbles w.
Proof. unfold CollisionSystem.updateObject. by destruct (CollisionSystem._isWallObject w o). Qed.

Lemma nibbles_createAt p randomize w :
  nibbles (NibbleManager.createAt p randomize w) = nibbles w ++ [nextObj w].
Proof.
  unfold NibbleManager.createAt, NibbleManager.create. cbn [alloc].
  destruct randomize; cbn [Math_random]; by rewrite nibbles_updateObject.
Qed.

Lemma nibbles_dispose s w : nibbles (Snake.dispose s w).2 = nibbles w.
Proof.
  unfold Snake.dispose. cbn [snd]. rewrite nibbles_removeObject.
  apply (foldl_invariant (λ w', nibbles w' = nibbles w)); [done|].
  intros w' x _ Hw'. by rewrite nibbles_removeObject.
Qed.

(** The loop of [_dissolveSnake] that drops the nibbles. *)
Lemma dropLoop_length (segments : list Obj) (randomize : bool) (k : nat) (w : World) :
  k ≤ length segments →
  length (nibbles (foldl (λ w (i : nat),
                            match segments !! i with
                            | Some segment =>
                                NibbleManager.createAt (positionOf w segment) randomize w
                            | None => w
                            end) w (seq 0 k)))
  = length (nibbles w) + k.
Proof.
  induction k as [|k IH]; intros Hk; [simpl; lia|].
  rewrite seq_S, foldl_app. cbn [foldl Nat.add].
  destruct (lookup_lt_is_Some_2 segments k ltac:(lia)) as [segment Hs]. rewrite Hs.
  rewrite nibbles_createAt, length_app, IH by lia. simpl. lia.
Qed.

Lemma nibblesDropped_le snake : Game.nibblesDropped snake ≤ length (Snake.segments snake).
Proof. unfold Game.nibblesDropped. destruct (Snake.isPlayer snake); lia. Qed.

(** ** Sample states *)

(** ** Nibble spawning *)

Lemma spawnLoop_wall_samples (fuel tries : nat) (w : World) :
  randoms w = (λ _, (999 # 1000)%Q) →
  NibbleManager.spawnLoop fuel tries false w = None.
Proof.
  revert tries w. induction fuel as [|fuel IH]; intros tries w Hr; [done|].
  cbn [NibbleManager.spawnLoop Math_random randoms randomIx]. rewrite Hr.
  assert (NibbleManager.isNearWall (((999 # 1000) - (1 # 2)) * CUBE_SIZE)
            (((999 # 1000) - (1 # 2)) * CUBE_SIZE)
            (((999 # 1000) - (1 # 2)) * CUBE_SIZE) = true) as -> by reflexivity.
  cbn [negb]. apply IH. done.
Qed.

(** C3, at the inputs where the code departs from it: when every
    sample falls within SAFE_WALL_DISTANCE of a face the loop of
    [spawn] never ends, whatever the number of rounds allowed; after
    150 such samples the next one is still tested and taken as try
    151; and where every sample is unsafe because of an object, the
    loop takes the 101st sample, not the 100th. *)
Theorem spawn_retry_bound_misses_wall_rejections :
  (∀ fuel, NibbleManager.spawn fuel wallWorld = None)
  ∧ (∃ position w,
       NibbleManager.spawnLoop 200 0 false lateWorld = Some (position, 151, w))
  ∧ NibbleManager.spawnLoop 100 0 false crowdedWorld = None
  ∧ (∃ position w,
       NibbleManager.spawnLoop 101 0 false crowdedWorld = Some (position, 101, w)
       ∧ NibbleManager.noObjectNear w position = false).
Proof.
  split_and!.
  - intros fuel. unfold NibbleManager.spawn, NibbleManager.create. cbn [alloc].
    by rewrite spawnLoop_wall_samples.
  - eexists _, _. vm_compute. reflexivity.
  - vm_compute. reflexivity.
  - eexists _, _. split; vm_compute; reflexivity.
Qed.

(** ** The scene store *)

Lemma positionOf_setPosition o p w o' :
  positionOf (setPosition o p w) o'
  = if decide (o = o')
    then (if objects w !! o is Some _ then p else origin)
    else positionOf w o'.
Proof.
  unfold positionOf, setPosition, withObjects. cbn [objects].
  rewrite lookup_alter. case_decide; [subst|done]. by destruct (objects w !! o').
Qed.

Lemma rotationOf_setPosition o p w o' : rotationOf (setPosition o p w) o' = rotationOf w o'.
Proof.
  unfold rotationOf, setPosition, withObjects. cbn [objects].
  rewrite lookup_alter. case_decide; [subst|done]. by destruct (objects w !! o').
Qed.

Lemma positionOf_setRotation o r w o' : positionOf (setRotation o r w) o' = positionOf w o'.
Proof.
  unfold positionOf, setRotation, withObjects. cbn [objects].
  rewrite lookup_alter. case_decide; [subst|done]. by destruct (objects w !! o').
Qed.

Lemma rotationOf_setRotation o r w o' :
  rotationOf (setRotation o r w) o'
  = if decide (o = o')
    then (if objects w !! o is Some _ then r else origin)
    else rotationOf w o'.
Proof.
  unfold rotationOf, setRotation, withObjects. cbn [objects].
  rewrite lookup_alter. case_decide; [subst|done]. by destruct (objects w !! o').
Qed.

Lemma objects_setPosition_is_Some o p w o' :
  is_Some (objects (setPosition o p w) !! o') ↔ is_Some (objects w !! o').
Proof.
  unfold setPosition, withObjects. cbn [objects]. rewrite lookup_alter.
  case_decide; [subst|done]. by rewrite fmap_is_Some.
Qed.

(** ** Wall avoidance *)

Lemma Math_min_spec a b : (Math_min a b <= a)%Q ∧ (Math_min a b <= b)%Q
                          ∧ (Math_min a b = a ∨ Math_min a b = b).
Proof.
  unfold Math_min. destruct (Qle_bool a b) eqn:E.
  - apply Qle_bool_iff in E. split_and!; [lra|done|by left].
  - apply Qle_bool_gt in E. split_and!; [lra|lra|by right].
Qed.

Lemma Math_max_spec a b : (a <= Math_max a b)%Q ∧ (b <= Math_max a b)%Q
                          ∧ (Math_max a b = a ∨ Math_max a b = b).
Proof.
  unfold Math_max. destruct (Qle_bool a b) eqn:E.
  - apply Qle_bool_iff in E. split_and!; [done|lra|by right].
  - apply Qle_bool_gt in E. split_and!; [lra|lra|by left].
Qed.

(** The hard clamp keeps a coordinate within SEGMENT_RADIUS of the
    faces and leaves one that is already there alone. *)
Lemma clampToCube_spec (x : Q) :
  (- (CUBE_HALF_SIZE - SEGMENT_RADIUS) <= Snake.clampToCube x
   <= CUBE_HALF_SIZE - SEGMENT_RADIUS)%Q
  ∧ ((- (CUBE_HALF_SIZE - SEGMENT_RADIUS) <= x <= CUBE_HALF_SIZE - SEGMENT_RADIUS)%Q →
     (Snake.clampToCube x == x)%Q).
Proof.
  unfold Snake.clampToCube.
  assert (- CUBE_HALF_SIZE + SEGMENT_RADIUS <= CUBE_HALF_SIZE - SEGMENT_RADIUS)%Q as Hb
    by discriminate.
  revert Hb. generalize CUBE_HALF_SIZE SEGMENT_RADIUS. intros h r Hb.
  destruct (Math_max_spec x (- h + r)) as (M1 & M2 & M3).
  destruct (Math_min_spec (Math_max x (- h + r)) (h - r)) as (N1 & N2 & N3).
  set (M := Math_max x (- h + r)) in *. set (N := Math_min M (h - r)) in *.
  assert (N == M ∨ N == h - r)%Q as N4 by (destruct N3 as [-> | ->]; [left|right]; reflexivity).
  assert (M == x ∨ M == - h + r)%Q as M4 by (destruct M3 as [-> | ->]; [left|right]; reflexivity).
  clearbody M N. clear N3 M3.
  split; [|intros [Hlo Hhi]]; destruct N4 as [E1|E1], M4 as [E2|E2]; lra.
Qed.

Lemma needsTurnAxis_spec (b x : Q) :
  Snake.needsTurnAxis b x = true ↔ (b < x)%Q ∨ (x < - b)%Q.
Proof. unfold Snake.needsTurnAxis. rewrite orb_true_iff, !Qltb_lt. done. Qed.

Lemma Qabs_gt (b x : Q) : (b < Qabs x)%Q ↔ (b < x)%Q ∨ (x < - b)%Q.
Proof.
  split.
  - apply Qabs_case; intros; lra.
  - apply Qabs_case; intros ? [?|?]; lra.
Qed.

Lemma needsTurn_exceeds (p : Vec3) :
  Snake.needsTurnAxis (CUBE_HALF_SIZE - WALL_BUFFER) (vx p)
  || Snake.needsTurnAxis (CUBE_HALF_SIZE - WALL_BUFFER) (vy p)
  || Snake.needsTurnAxis (CUBE_HALF_SIZE - WALL_BUFFER) (vz p) = true
  ↔ exceedsSafeBoundary p.
Proof.
  unfold exceedsSafeBoundary.
  rewrite !orb_true_iff, !needsTurnAxis_spec, !Qabs_gt. tauto.
Qed.

Lemma avoidWalls_inside `{Platform} (s : Snake.t) (w : World) :
  ¬ exceedsSafeBoundary (positionOf w (Snake.head s)) → Snake._avoidWalls s w = w.
Proof.
  intros Hin. unfold Snake._avoidWalls.
  destruct (_ || _ || _) eqn:E; [|done].
  exfalso. apply Hin. by apply needsTurn_exceeds.
Qed.


Lemma seekNibbles_head `{Platform} (s : Snake.t) (w : World) :
  Snake.head (Snake._seekNibbles s w).1 = Snake.head s.
Proof.
  unfold Snake._seekNibbles. cbn [Math_random performance_now].
  repeat case_match; reflexivity.
Qed.



Example sampleShadow_head :
  Snake.head sampleShadow = 8%positive
  ∧ veq (positionOf (Game.world spawnedGame) 8) (mkVec3 48 0 0).
Proof. split; [reflexivity|]. vm_compute. split_and!; reflexivity. Qed.



(** ** Collision classification and resolution *)

Lemma checkPlayerObject_skips_own (w : World) (player : Snake.t)
      (collisions : list Collision) (obj : Obj) :
  Forall (λ c, object c ∉ Snake.segments player) collisions →
  Forall (λ c, object c ∉ Snake.segments player)
         (CollisionSystem.checkPlayerObject w player collisions obj).
Proof.
  intros Hc. unfold CollisionSystem.checkPlayerObject.
  destruct (Pos.eqb obj (Snake.head player)); [done|].
  destruct (CollisionSystem._isWallObject w obj); [done|].
  case_bool_decide as Hin; [done|].
  destruct (distanceLt _ _ _); [|done].
  apply Forall_app. split; [done|]. by apply Forall_singleton.
Qed.

Lemma checkShadowObject_type (w : World) (shadow : Snake.t)
      (collisions : list Collision) (obj : Obj) (P : Collision → Prop) :
  (∀ c, type c = shadow_collision → P c) →
  Forall P collisions →
  Forall P (CollisionSystem.checkShadowObject w shadow collisions obj).
Proof.
  intros HP Hc. unfold CollisionSystem.checkShadowObject.
  destruct (Pos.eqb obj (Snake.head shadow)); [done|].
  destruct (CollisionSystem._isWallObject w obj); [done|].
  destruct (distanceLt _ _ _); [|done].
  apply Forall_app. split; [done|]. apply Forall_singleton. by apply HP.
Qed.

(** No collision of the player names one of the player's own
    segments: the classification skips them before the distance
    test. *)
Lemma player_collision_never_own_segment (player : Snake.t) (shadowSnakes : list Snake.t)
      (w : World) :
  Forall (λ c, type c = player_collision → object c ∉ Snake.segments player)
         (CollisionSystem.checkCollisions (Some player) shadowSnakes w).1.
Proof.
  unfold CollisionSystem.checkCollisions. cbn [fst].
  apply (foldl_invariant
           (Forall (λ c, type c = player_collision → object c ∉ Snake.segments player))).
  - eapply Forall_impl.
    + apply (foldl_invariant (Forall (λ c, object c ∉ Snake.segments player)));
        [constructor|].
      intros collisions obj _. apply checkPlayerObject_skips_own.
    + auto.
  - intros collisions shadow _ Hc.
    apply (foldl_invariant
             (Forall (λ c, type c = player_collision → object c ∉ Snake.segments player)));
      [done|].
    intros collisions' obj _. apply checkShadowObject_type. intros c ->. done.
Qed.

(** C1, where the code departs from it: the head of the player is
    one unit from the player's own segment of index 10, the grid query
    around the head returns that segment, yet the classification
    produces no collision and the player is not dissolved; in the
    same configuration a shadow snake is dissolved.  No collision of
    the player ever names one of its own segments. *)
Theorem player_self_collision_never_dissolves :
  (∃ player segment,
     Game.playerSnake curledGame = Some player
     ∧ Snake.segments player !! 10%nat = Some segment
     ∧ Game.indexOf segment (Snake.segments player) = 10%nat
     ∧ distanceLt (positionOf (Game.world curledGame) (Snake.head player))
                  (positionOf (Game.world curledGame) segment) COLLISION_DISTANCE = true
     ∧ segment ∈ SpatialGrid.getNearby (spatialGrid (Game.world curledGame))
                   (positionOf (Game.world curledGame) (Snake.head player))
                   (COLLISION_DISTANCE * 2)
     ∧ CollisionSystem._isWallObject (Game.world curledGame) segment = false
     ∧ (CollisionSystem.checkCollisions (Some player) (Game.shadowSnakes curledGame)
                                        (Game.world curledGame)).1 = []
     ∧ Game.isGameOver (Game._checkCollisions curledGame) = false)
  ∧ (∃ shadow segment,
       Game.shadowSnakes curledShadowGame = [shadow]
       ∧ Snake.segments shadow !! 10%nat = Some segment
       ∧ distanceLt (positionOf (Game.world curledShadowGame) (Snake.head shadow))
                    (positionOf (Game.world curledShadowGame) segment)
                    COLLISION_DISTANCE = true
       ∧ Game.shadowSnakes (Game._checkCollisions curledShadowGame) = []
       ∧ Game.isGameOver (Game._checkCollisions curledShadowGame) = false)
  ∧ (∀ (player : Snake.t) (shadowSnakes : list Snake.t) (w : World),
       Forall (λ c, type c = player_collision → object c ∉ Snake.segments player)
              (CollisionSystem.checkCollisions (Some player) shadowSnakes w).1).
Proof.
  split_and!.
  - eexists _, _. split; [vm_compute; reflexivity|].
    split; [vm_compute; reflexivity|].
    split; [vm_compute; reflexivity|].
    split; [vm_compute; reflexivity|].
    split; [|split; [vm_compute; reflexivity|split; vm_compute; reflexivity]].
    apply list_elem_of_In. vm_compute. tauto.
  - eexists _, _. split; [vm_compute; reflexivity|].
    split; [vm_compute; reflexivity|].
    split; [vm_compute; reflexivity|].
    split; vm_compute; reflexivity.
  - apply player_collision_never_own_segment.
Qed.

(** ** The grid and the positions of the scene *)






Lemma positionOf_updateObject o p w o' :
  positionOf (CollisionSystem.updateObject o p w) o' = positionOf w o'.
Proof. unfold CollisionSystem.updateObject. by destruct (CollisionSystem._isWallObject w o). Qed.




Lemma settings_updateObject o p w :
  settings (CollisionSystem.updateObject o p w) = settings w.
Proof. unfold CollisionSystem.updateObject. by destruct (CollisionSystem._isWallObject w o). Qed.

Lemma consistent_updateObject o p w :
  consistent (spatialGrid w) → consistent (spatialGrid (CollisionSystem.updateObject o p w)).
Proof.
  intros Hc. unfold CollisionSystem.updateObject.
  destruct (CollisionSystem._isWallObject w o); [done|].
  unfold withGrid. cbn [spatialGrid]. by apply consistent_insert.
Qed.





Lemma imap_pair_snd {A : Type} (l : list A) (f : nat → nat) :
  (imap (λ i x, (f i, x)) l).*2 = l.
Proof.
  revert f. induction l as [|x l IH]; intros f; [done|].
  cbn [imap fmap list_fmap snd]. f_equal. apply (IH (f ∘ S)).
Qed.



Lemma consistentb_consistent (g : SpatialGrid.t) : consistentb g = true → consistent g.
Proof.
  unfold consistentb. rewrite andb_true_iff, !bool_decide_eq_true.
  intros [H1 H2] o key. unfold stored. split.
  - intros Ho. specialize (H1 o key Ho). cbv beta in H1.
    destruct (SpatialGrid.grid g !! key) as [s|]; [eauto|]. by apply elem_of_nil in H1.
  - intros (s & Hs & Ho). specialize (H2 key s Hs). cbv beta in H2.
    rewrite Forall_forall in H2. by apply H2.
Qed.




(** ** What the phases of a frame leave alone *)

Lemma checks_updateObject o p w :
  collisionChecks (CollisionSystem.updateObject o p w) = collisionChecks w.
Proof. unfold CollisionSystem.updateObject. by destruct (CollisionSystem._isWallObject w o). Qed.

Lemma checks_removeObject o w :
  collisionChecks (CollisionSystem.removeObject o w) = collisionChecks w.
Proof. unfold CollisionSystem.removeObject. by destruct (CollisionSystem._isWallObject w o). Qed.

Lemma addSegment_keeps (initial : bool) (s : Snake.t) (w : World) :
  collisionChecks (Snake.addSegment initial s w).2 = collisionChecks w
  ∧ Snake.head (Snake.addSegment initial s w).1 = Snake.head s
  ∧ Snake.isPlayer (Snake.addSegment initial s w).1 = Snake.isPlayer s.
Proof.
  unfold Snake.addSegment. cbn [alloc]. destruct initial; cbn [fst snd];
    rewrite checks_updateObject; done.
Qed.

Lemma init_keeps (s : Snake.t) (w : World) :
  collisionChecks (Snake._init s w).2 = collisionChecks w
  ∧ Snake.head (Snake._init s w).1 = Snake.head s
  ∧ Snake.isPlayer (Snake._init s w).1 = Snake.isPlayer s.
Proof.
  unfold Snake._init.
  match goal with
  | |- context [foldl ?f ?a ?l] =>
      assert (collisionChecks (foldl f a l).2 = collisionChecks w
              ∧ Snake.head (foldl f a l).1 = Snake.head s
              ∧ Snake.isPlayer (foldl f a l).1 = Snake.isPlayer s) as Hf;
      [|destruct (foldl f a l) as [s' w']; exact Hf]
  end.
  apply (foldl_invariant (λ sw : Snake.t * World,
           collisionChecks sw.2 = collisionChecks w
           ∧ Snake.head sw.1 = Snake.head s ∧ Snake.isPlayer sw.1 = Snake.isPlayer s)).
  - cbn [fst snd]. by rewrite checks_updateObject.
  - intros [s' w'] x _ (Hc & Hh & Hp). cbn [fst snd] in *.
    destruct (addSegment_keeps true s' w') as (Hc' & Hh' & Hp'). split_and!; congruence.
Qed.

Lemma new_keeps `{Platform} (isPlayer : bool) (w : World) :
  collisionChecks (Snake.new isPlayer w).2 = collisionChecks w
  ∧ Snake.isPlayer (Snake.new isPlayer w).1 = isPlayer.
Proof.
  unfold Snake.new. cbn [alloc Math_random].
  match goal with |- context [Snake._init ?s ?w0] =>
    destruct (init_keeps s w0) as (Hc & _ & Hp) end.
  split; [by rewrite Hc|by rewrite Hp].
Qed.

Lemma seekNibbles_keeps `{Platform} (s : Snake.t) (w : World) :
  collisionChecks (Snake._seekNibbles s w).2 = collisionChecks w
  ∧ Snake.isPlayer (Snake._seekNibbles s w).1 = Snake.isPlayer s.
Proof.
  unfold Snake._seekNibbles. cbn [Math_random performance_now].
  repeat case_match; done.
Qed.

Lemma avoidWalls_keeps `{Platform} (s : Snake.t) (w : World) :
  collisionChecks (Snake._avoidWalls s w) = collisionChecks w.
Proof. unfold Snake._avoidWalls. by case_match. Qed.

Lemma aiBehavior_keeps `{Platform} (s : Snake.t) (w : World) :
  collisionChecks (Snake.aiBehavior s w).2 = collisionChecks w
  ∧ Snake.head (Snake.aiBehavior s w).1 = Snake.head s
  ∧ Snake.isPlayer (Snake.aiBehavior s w).1 = Snake.isPlayer s.
Proof.
  unfold Snake.aiBehavior. destruct (Snake.isPlayer s) eqn:Hp; cbn [negb fst snd]; [done|].
  destruct (Snake.isInitialReflectionPhase s); cbn [negb fst snd].
  - by rewrite avoidWalls_keeps.
  - pose proof (seekNibbles_keeps s w) as [Hc Hp']. pose proof (seekNibbles_head s w) as Hh.
    destruct (Snake._seekNibbles s w) as [s1 w1]. cbn [fst snd] in *.
    rewrite avoidWalls_keeps. split_and!; congruence.
Qed.

Lemma placeSegment_keeps `{Platform} s time w i segment :
  collisionChecks (Snake.placeSegment s time w i segment) = collisionChecks w.
Proof.
  unfold Snake.placeSegment. destruct (Snake.isPlayer s); [|done].
  by rewrite checks_updateObject.
Qed.

Lemma update_keeps `{Platform} (delta : Q) (s : Snake.t) (w : World) :
  collisionChecks (Snake.update delta s w).2 = collisionChecks w
  ∧ Snake.head (Snake.update delta s w).1 = Snake.head s.
Proof.
  unfold Snake.update.
  match goal with |- context [Snake.aiBehavior ?s0 ?w0] =>
    destruct (aiBehavior_keeps s0 w0) as (Hc & Hh & _);
    destruct (Snake.aiBehavior s0 w0) as [s1 w1] end.
  cbn [fst snd performance_now] in *.
  split; [|done].
  match goal with |- collisionChecks (if ?b then _ else _) = _ => destruct b end;
    rewrite ?checks_updateObject;
    (etransitivity; [|exact Hc]);
    apply (foldl_invariant (λ w', collisionChecks w' = collisionChecks w1)); try done;
    intros w' [i segment] _ Hw'; by rewrite placeSegment_keeps.
Qed.

Lemma spawnLoop_keeps (fuel tries : nat) (isSafe : bool) (w : World) position tries' w' :
  NibbleManager.spawnLoop fuel tries isSafe w = Some (position, tries', w') →
  collisionChecks w' = collisionChecks w.
Proof.
  revert tries isSafe w. induction fuel as [|fuel IH]; intros tries isSafe w; [done|].
  cbn [NibbleManager.spawnLoop Math_random]. intros Hs.
  repeat case_match; simplify_eq; try done; apply IH in Hs; exact Hs.
Qed.

Lemma spawn_keeps (fuel : nat) (w w' : World) :
  NibbleManager.spawn fuel w = Some w' → collisionChecks w' = collisionChecks w.
Proof.
  unfold NibbleManager.spawn, NibbleManager.create. cbn [alloc].
  destruct (NibbleManager.spawnLoop _ _ _ _) as [[[position tries] w1]|] eqn:E; [|done].
  intros [= <-]. apply spawnLoop_keeps in E. by rewrite checks_updateObject.
Qed.

Lemma removeByIndex_keeps (index : nat) (w : World) :
  collisionChecks (NibbleManager.removeByIndex index w) = collisionChecks w.
Proof.
  unfold NibbleManager.removeByIndex. destruct (nibbles w !! index); [|done].
  cbn [collisionChecks withNibbles]. by rewrite checks_removeObject.
Qed.

Lemma collect_keeps (fuel : nat) (snake : Snake.t) (w : World) eaten snake' w' :
  Game.collect fuel snake w = Some (eaten, snake', w') →
  collisionChecks w' = collisionChecks w ∧ Snake.head snake' = Snake.head snake.
Proof.
  unfold Game.collect.
  destruct (NibbleManager.findNearby _ _) as [index|]; [|by intros [= <- <- <-]].
  pose proof (addSegment_keeps false snake (NibbleManager.removeByIndex index w))
    as (Hc & Hh & _).
  destruct (Snake.addSegment _ _ _) as [snake1 w1]. cbn [fst snd] in *.
  destruct (NibbleManager.spawn fuel w1) as [w2|] eqn:E; [|done].
  cbn. intros [= <- <- <-]. apply spawn_keeps in E.
  rewrite removeByIndex_keeps in Hc. split; [congruence|done].
Qed.

Lemma collectShadows_keeps (fuel : nat) (snakes : list Snake.t) (w : World) snakes' w' :
  Game.collectShadows fuel snakes w = Some (snakes', w') →
  collisionChecks w' = collisionChecks w ∧ Snake.head <$> snakes' = Snake.head <$> snakes.
Proof.
  revert w snakes' w'. induction snakes as [|snake snakes IH]; intros w snakes' w'.
  - by intros [= <- <-].
  - cbn [Game.collectShadows].
    destruct (Game.collect fuel snake w) as [[[eaten snake1] w1]|] eqn:E1; [|done].
    cbn [mbind option_bind].
    destruct (Game.collectShadows fuel snakes w1) as [[rest w2]|] eqn:E2; [|done].
    cbn [mbind option_bind]. intros [= <- <-].
    apply collect_keeps in E1 as [Hc1 Hh1]. apply IH in E2 as [Hc2 Hh2].
    split; [congruence|]. cbn [fmap list_fmap]. by rewrite Hh1, <- Hh2.
Qed.

Lemma quiet_refl g : quiet g g.
Proof. by split. Qed.

Lemma quiet_trans g1 g2 g3 : quiet g1 g2 → quiet g2 g3 → quiet g1 g3.
Proof. intros [] []. split; congruence. Qed.

Lemma checkNibbleCollection_quiet (fuel : nat) (time : Q) (g g' : Game.t) :
  Game._checkNibbleCollection fuel time g = Some g' → quiet g g'.
Proof.
  unfold Game._checkNibbleCollection.
  destruct (Game.playerSnake g) as [player|]; [|intros [= <-]; apply quiet_refl].
  destruct (Game.collect fuel player (Game.world g)) as [[[eaten player1] w1]|] eqn:E1; [|done].
  cbn [mbind option_bind]. apply collect_keeps in E1 as [Hc1 _].
  destruct (Z.eqb _ 0).
  - destruct eaten;
      unfold Game.withPlayerSnake, Game.withScore;
      cbn [Game.shadowSnakes Game.world Game.playerSnake Game.score];
      (match goal with |- context [Game.collectShadows fuel ?l w1] =>
         destruct (Game.collectShadows fuel l w1) as [[shadows w2]|] eqn:E2; [|done] end;
       cbn [mbind option_bind]; intros [= <-];
       apply collectShadows_keeps in E2 as [Hc2 Hh2]; split; cbn; congruence).
  - destruct eaten; intros [= <-]; split; cbn; congruence.
Qed.

Lemma updateShadows_keeps `{Platform} (time delta : Q) (snakes : list Snake.t) (w : World) :
  collisionChecks (Game.updateShadows time delta snakes w).2 = collisionChecks w
  ∧ Snake.head <$> (Game.updateShadows time delta snakes w).1 = Snake.head <$> snakes.
Proof.
  unfold Game.updateShadows.
  assert (∀ (f : nat → nat) done w0,
    let r := foldl (λ '(done, w) '(index, snake),
                      if Z.eqb (Z.rem (Qfloor (time * 60)) 2) (Z.rem (Z.of_nat index) 2)
                      then let '(snake, w) := Snake.update delta snake w in (done ++ [snake], w)
                      else (done ++ [snake], w))
                   (done, w0) (imap (λ index snake, (f index, snake)) snakes) in
    collisionChecks r.2 = collisionChecks w0
    ∧ Snake.head <$> r.1 = (Snake.head <$> done) ++ (Snake.head <$> snakes)) as Hgen.
  { induction snakes as [|snake snakes IH]; intros f done w0; cbn [imap foldl].
    - cbn. by rewrite app_nil_r.
    - destruct (Z.eqb _ _).
      + pose proof (update_keeps delta snake w0) as [Hc Hh].
        destruct (Snake.update delta snake w0) as [snake1 w1]. cbn [fst snd] in *.
        destruct (IH (f ∘ S) (done ++ [snake1]) w1) as [Hc' Hh'].
        split; [etransitivity; [exact Hc'|exact Hc]|].
        etransitivity; [exact Hh'|]. rewrite fmap_app, <- app_assoc. cbn. by rewrite Hh.
      + destruct (IH (f ∘ S) (done ++ [snake]) w0) as [Hc' Hh'].
        split; [exact Hc'|].
        etransitivity; [exact Hh'|]. rewrite fmap_app, <- app_assoc. done. }
  apply (Hgen (λ index, index) [] w).
Qed.

Lemma spawnShadowSnake_checks `{Platform} (wallHitPoint normal : Vec3) (g : Game.t) :
  collisionChecks (Game.world (Game._spawnShadowSnake wallHitPoint normal g))
  = collisionChecks (Game.world g)
  ∧ Game.isGameOver (Game._spawnShadowSnake wallHitPoint normal g) = Game.isGameOver g.
Proof.
  unfold Game._spawnShadowSnake. cbn [performance_now].
  destruct (Qltb _ _); [done|].
  match goal with |- context [Snake.new false ?w0] =>
    pose proof (new_keeps false w0) as [Hc _];
    destruct (Snake.new false w0) as [shadowSnake w1] end.
  cbn [snd] in Hc. split; [|done]. cbn. exact Hc.
Qed.

Lemma checkCubeBoundary_effect `{Platform} (g : Game.t) :
  quiet g (Game._checkCubeBoundary g) ∨ spawnedIn g (Game._checkCubeBoundary g).
Proof.
  unfold Game._checkCubeBoundary.
  destruct (Game.playerSnake g) as [player|]; [|left; apply quiet_refl].
  destruct (Snake.isPlayer player); cbn [negb]; [|left; apply quiet_refl].
  destruct (Game.wallCrossing _ _ _) as [[wallHitPoint normal]|]; [|left; apply quiet_refl].
  destruct (spawnShadowSnake_checks wallHitPoint normal g) as [Hc Ho].
  destruct (Qlt_le_dec (nextNow g - Game.lastShadowSpawnTime g) SHADOW_SPAWN_DELAY)
    as [Hdrop|Hgo].
  - left. rewrite spawnShadowSnake_dropped by done. by split.
  - right. destruct (spawnShadowSnake_spawned wallHitPoint normal g Hgo)
      as (_ & Hf & _ & _ & shadowSnake & Hs & Ht & _).
    split_and!; [done..|]. by exists shadowSnake.
Qed.

Lemma dissolveSnake_flag (snake : Snake.t) (g : Game.t) :
  Game.isShadowSnakeInvulnerable (Game._dissolveSnake snake g)
  = Game.isShadowSnakeInvulnerable g
  ∧ Game.timers (Game._dissolveSnake snake g) = Game.timers g
  ∧ Game.lastShadowSpawnTime (Game._dissolveSnake snake g) = Game.lastShadowSpawnTime g.
Proof.
  unfold Game._dissolveSnake.
  destruct (Snake.dispose snake _) as [snake' w'].
  by destruct (Snake.isPlayer snake), (Snake.isPlayer snake').
Qed.

Lemma resolve_flag (collisions : list Collision) (g : Game.t) :
  Game.isShadowSnakeInvulnerable (Game.resolve collisions g)
  = Game.isShadowSnakeInvulnerable g
  ∧ Game.timers (Game.resolve collisions g) = Game.timers g
  ∧ Game.lastShadowSpawnTime (Game.resolve collisions g) = Game.lastShadowSpawnTime g.
Proof.
  revert g. induction collisions as [|collision rest IH]; intros g; [done|].
  cbn [Game.resolve].
  repeat case_match; try done; try apply dissolveSnake_flag; try apply IH;
    repeat match goal with
    | |- context [Game.resolve rest ?g0] =>
        destruct (IH g0) as (-> & -> & ->)
    | |- context [Game._dissolveSnake ?s ?g0] =>
        destruct (dissolveSnake_flag s g0) as (-> & -> & ->)
    end; done.
Qed.

Lemma checkCollisions_flag (g : Game.t) :
  Game.isShadowSnakeInvulnerable (Game._checkCollisions g)
  = Game.isShadowSnakeInvulnerable g
  ∧ Game.timers (Game._checkCollisions g) = Game.timers g
  ∧ Game.lastShadowSpawnTime (Game._checkCollisions g) = Game.lastShadowSpawnTime g.
Proof.
  unfold Game._checkCollisions.
  destruct (CollisionSystem.checkCollisions _ _ _) as [collisions w].
  apply (resolve_flag collisions (Game.withWorld w g)).
Qed.

(** [_updateGameLogic] in phases: the updates, the boundary check,
    nibble collection and spawning, and the collision phase. *)
Lemma updateGameLogic_phases `{Platform} (fuel : nat) (time delta : Q) (g g' : Game.t) :
  Game._updateGameLogic fuel time delta g = Some g' →
  ∃ g2 g3 g6,
    quiet g g2 ∧ (quiet g2 g3 ∨ spawnedIn g2 g3) ∧ quiet g3 g6 ∧ g' = collisionPhase g6.
Proof.
  unfold Game._updateGameLogic.
  set (g1 := match Game.playerSnake g with Some _ => _ | None => g end).
  assert (quiet g g1) as Q1.
  { unfold g1. destruct (Game.playerSnake g) as [player|]; [|apply quiet_refl].
    pose proof (update_keeps delta player (Game.world g)) as [Hc _].
    destruct (Snake.update delta player (Game.world g)) as [player1 w1].
    split; first [done | exact Hc]. }
  clearbody g1.
  pose proof (updateShadows_keeps time delta (Game.shadowSnakes g1) (Game.world g1)) as [Hc Hh].
  destruct (Game.updateShadows time delta _ _) as [shadows w2]. cbn [fst snd] in *.
  set (g2 := Game.withWorld w2 (Game.withShadowSnakes shadows g1)).
  assert (quiet g1 g2) as Q2 by (split; try done).
  set (g3 := match Game.playerSnake g2 with Some _ => Game._checkCubeBoundary g2 | None => g2 end).
  assert (quiet g2 g3 ∨ spawnedIn g2 g3) as Q3.
  { unfold g3. destruct (Game.playerSnake g2); [apply checkCubeBoundary_effect|].
    left. apply quiet_refl. }
  clearbody g3.
  destruct (Game._checkNibbleCollection fuel time g3) as [g4|] eqn:E4; [|done].
  cbn [mbind option_bind]. apply checkNibbleCollection_quiet in E4.
  cbn [performance_now].
  set (g5 := Game.withWorld _ g4).
  assert (quiet g4 g5) as Q5 by (split; try done).
  clearbody g5.
  intros Hg'. exists g2, g3.
  destruct (Qltb _ _).
  - destruct (NibbleManager.spawn fuel (Game.world g5)) as [w6|] eqn:E6; [|done].
    cbn [mbind option_bind] in Hg'. apply spawn_keeps in E6.
    match type of Hg' with
    | Some (match Game.playerSnake ?g6 with _ => _ end) = _ => exists g6
    end.
    split_and!; [eauto using quiet_trans|done| |by injection Hg'].
    eapply quiet_trans; [done|]. eapply quiet_trans; [done|]. by split.
  - cbn [mbind option_bind] in Hg'. exists g5.
    split_and!; [eauto using quiet_trans|done|eauto using quiet_trans|by injection Hg'].
Qed.

Lemma app_singleton_length_ne {A : Type} (l : list A) (x : A) : length (l ++ [x]) ≠ length l.
Proof. rewrite length_app. simpl. lia. Qed.

Lemma update_checks (w : World) :
  collisionChecks (PerformanceMonitor.update w) ≤ collisionChecks w.
Proof.
  unfold PerformanceMonitor.update. cbn [performance_now].
  destruct (Qle_bool _ _); cbn [collisionChecks]; lia.
Qed.

Lemma update_scene (w : World) :
  objects (PerformanceMonitor.update w) = objects w
  ∧ spatialGrid (PerformanceMonitor.update w) = spatialGrid w
  ∧ nibbles (PerformanceMonitor.update w) = nibbles w
  ∧ randomIx (PerformanceMonitor.update w) = randomIx w.
Proof.
  unfold PerformanceMonitor.update. cbn [performance_now]. by destruct (Qle_bool _ _).
Qed.

Lemma monitored_checks (g : Game.t) :
  collisionChecks (monitored g) ≤ collisionChecks (Game.world g).
Proof. unfold monitored. etrans; [apply update_checks|]. done. Qed.

(** One frame of the game loop, seen from the collision phase. *)
Lemma animate_frame `{Platform} (fuel : nat) (g g' : Game.t) :
  Game._animate fuel g = Some g' →
  (Game.isShadowSnakeInvulnerable g' = true →
   collisionChecks (Game.world g') = collisionChecks (monitored g)
   ∧ Game.isGameOver g' = Game.isGameOver g
   ∧ (Snake.head <$> Game.shadowSnakes g) `prefix_of` (Snake.head <$> Game.shadowSnakes g'))
  ∧ (Game.isShadowSnakeInvulnerable g = true → Game.isShadowSnakeInvulnerable g' = true)
  ∧ (length (Game.timers g') ≠ length (Game.timers g) →
     Game.isShadowSnakeInvulnerable g' = true).
Proof.
  unfold Game._animate. cbn [performance_now].
  set (g0 := Game.withWorld (PerformanceMonitor.update _) _).
  assert (collisionChecks (Game.world g0) = collisionChecks (monitored g)) as Hc0
    by reflexivity.
  assert (Game.isGameOver g0 = Game.isGameOver g) as Ho0 by reflexivity.
  assert (Game.isShadowSnakeInvulnerable g0 = Game.isShadowSnakeInvulnerable g) as Hf0
    by reflexivity.
  assert (Game.timers g0 = Game.timers g) as Ht0 by reflexivity.
  assert (Game.shadowSnakes g0 = Game.shadowSnakes g) as Hh0 by reflexivity.
  clearbody g0.
  destruct (_ && _ && _).
  2:{ intros [= <-]. split_and!.
      - intros _. split_and!; [done|done|by rewrite Hh0].
      - congruence.
      - intros Hne. by rewrite Ht0 in Hne. }
  intros (g2 & g3 & g6 & Q2 & Q3 & Q6 & ->)%updateGameLogic_phases.
  assert (Game.isShadowSnakeInvulnerable (collisionPhase g6)
          = Game.isShadowSnakeInvulnerable g6
          ∧ Game.timers (collisionPhase g6) = Game.timers g6) as [Hflag Htimers].
  { unfold collisionPhase. destruct (Game.playerSnake g6); [|done].
    destruct (negb _); [|done]. destruct (checkCollisions_flag g6) as (? & ? & _). done. }
  assert (Game.isShadowSnakeInvulnerable g6 = true → collisionPhase g6 = g6) as Hskip.
  { intros Hf. unfold collisionPhase. rewrite Hf. by destruct (Game.playerSnake g6). }
  rewrite Hflag, Htimers.
  destruct Q2 as [Hc2 Ho2 Hf2 Ht2 _ Hh2], Q6 as [Hc6 Ho6 Hf6 Ht6 _ Hh6].
  destruct Q3 as [[Hc3 Ho3 Hf3 Ht3 _ Hh3]|(Hc3 & Ho3 & Hf3 & shadowSnake & Ht3 & Hs3)].
  - split_and!.
    + intros Hf. rewrite (Hskip Hf). split_and!; [congruence..|].
      by rewrite Hh6, Hh3, Hh2, Hh0.
    + congruence.
    + intros Hne. exfalso. apply Hne. congruence.
  - split_and!.
    + intros Hf. rewrite (Hskip Hf). split_and!; [congruence..|].
      rewrite Hh6, Hs3, fmap_app, Hh2, Hh0. by apply prefix_app_r.
    + congruence.
    + congruence.
Qed.

(** C10: a frame that ends with the invulnerability flag set has run
    no collision check (the collision counter is what the performance
    monitor left at the head of the frame, where it is zeroed once a
    second), ended no game and removed no shadow snake; the flag is
    set in the frame that spawns a shadow snake, before the collision
    phase, and no frame clears it (only the timer callback does); so
    from the spawning frame on, as long as frames follow each other,
    no collision is classified or resolved. *)
Theorem invulnerable_frames_skip_collisions `{Platform} :
  (∀ (fuel : nat) (g g' : Game.t),
     Game._animate fuel g = Some g' →
     (Game.isShadowSnakeInvulnerable g' = true →
      collisionChecks (Game.world g') = collisionChecks (monitored g)
      ∧ Game.isGameOver g' = Game.isGameOver g
      ∧ (Snake.head <$> Game.shadowSnakes g) `prefix_of` (Snake.head <$> Game.shadowSnakes g'))
     ∧ (Game.isShadowSnakeInvulnerable g = true → Game.isShadowSnakeInvulnerable g' = true)
     ∧ (length (Game.timers g') ≠ length (Game.timers g) →
        Game.isShadowSnakeInvulnerable g' = true))
  ∧ (∀ (fuel n : nat) (g g1 : Game.t) (gs : list Game.t),
       Game._animate fuel g = Some g1 →
       length (Game.timers g1) ≠ length (Game.timers g) →
       frames fuel n g1 = Some gs →
       Forall (λ g', Game.isShadowSnakeInvulnerable g' = true
                     ∧ collisionChecks (Game.world g') ≤ collisionChecks (Game.world g)
                     ∧ Game.isGameOver g' = Game.isGameOver g
                     ∧ (Snake.head <$> Game.shadowSnakes g1)
                         `prefix_of` (Snake.head <$> Game.shadowSnakes g'))
              (g1 :: gs)
       ∧ unchecked g (g1 :: gs))
  ∧ (∀ (h : Obj) (g : Game.t),
       Game.isShadowSnakeInvulnerable (Game.timerCallback h g) = false).
Proof.
  split_and!.
  - apply animate_frame.
  - intros fuel n g g1 gs Hframe Hspawn Hrun.
    destruct (animate_frame fuel g g1 Hframe) as (Hskip & _ & Hset).
    specialize (Hset Hspawn). destruct (Hskip Hset) as (Hc1 & Ho1 & _).
    pose proof (monitored_checks g) as Hle1.
    clear Hframe Hspawn Hskip.
    assert (∀ g0, Game.isShadowSnakeInvulnerable g0 = true →
                  collisionChecks (Game.world g0) ≤ collisionChecks (Game.world g) →
                  Game.isGameOver g0 = Game.isGameOver g →
                  (Snake.head <$> Game.shadowSnakes g1)
                    `prefix_of` (Snake.head <$> Game.shadowSnakes g0) →
                  frames fuel n g0 = Some gs →
                  Forall (λ g', Game.isShadowSnakeInvulnerable g' = true
                     ∧ collisionChecks (Game.world g') ≤ collisionChecks (Game.world g)
                     ∧ Game.isGameOver g' = Game.isGameOver g
                     ∧ (Snake.head <$> Game.shadowSnakes g1)
                         `prefix_of` (Snake.head <$> Game.shadowSnakes g')) gs
                  ∧ unchecked g0 gs) as Hgen.
    { clear Hrun. revert gs. induction n as [|n IH]; intros gs g0 Hf Hc Ho Hp; cbn [frames].
      - intros [= <-]. split; [constructor|exact I].
      - destruct (Game._animate fuel g0) as [g0'|] eqn:E; [|done]. cbn [mbind option_bind].
        destruct (frames fuel n g0') as [gs'|] eqn:E'; [|done]. cbn [mbind option_bind].
        intros [= <-].
        destruct (animate_frame fuel g0 g0' E) as (Hskip & Hkeep & _).
        specialize (Hkeep Hf). destruct (Hskip Hkeep) as (Hc' & Ho' & Hp').
        pose proof (monitored_checks g0) as Hle.
        assert ((Snake.head <$> Game.shadowSnakes g1)
                  `prefix_of` (Snake.head <$> Game.shadowSnakes g0')) as Hp''
          by (by etrans).
        assert (collisionChecks (Game.world g0') ≤ collisionChecks (Game.world g)) as Hc''
          by lia.
        destruct (IH gs' g0') as [Hall Hun]; [done|done|congruence|done|done|].
        split.
        + constructor; [split_and!; [done|done|congruence|done]|exact Hall].
        + split; [exact Hc'|exact Hun]. }
    destruct (Hgen g1) as [Hall Hun]; [done|lia|done|done|done|].
    split.
    + constructor; [split_and!; [done|lia|done|done]|exact Hall].
    + split; [exact Hc1|exact Hun].
  - reflexivity.
Qed.

Lemma invulnerable_frames_skip_collisions_witness :
  let g1 := default edgeGame (Game._animate (H := flatPlatform) 200 edgeGame) in
  let gs := default [] (frames (H := flatPlatform) 200 3 g1) in
  Game._animate (H := flatPlatform) 200 edgeGame = Some g1
  ∧ length (Game.timers g1) ≠ length (Game.timers edgeGame)
  ∧ frames (H := flatPlatform) 200 3 g1 = Some gs
  ∧ length gs = 3%nat
  ∧ Forall (λ g', Game.isShadowSnakeInvulnerable g' = true
                  ∧ collisionChecks (Game.world g') ≤ collisionChecks (Game.world edgeGame)
                  ∧ Game.isGameOver g' = Game.isGameOver edgeGame
                  ∧ (Snake.head <$> Game.shadowSnakes g1)
                      `prefix_of` (Snake.head <$> Game.shadowSnakes g'))
           (g1 :: gs)
  ∧ unchecked edgeGame (g1 :: gs).
Proof.
  intros g1 gs.
  assert (Game._animate (H := flatPlatform) 200 edgeGame = Some g1) as H1
    by (vm_compute; reflexivity).
  assert (length (Game.timers g1) ≠ length (Game.timers edgeGame)) as H2
    by (vm_compute; discriminate).
  assert (frames (H := flatPlatform) 200 3 g1 = Some gs) as H3
    by (vm_compute; reflexivity).
  split; [exact H1|]. split; [exact H2|]. split; [exact H3|].
  split; [vm_compute; reflexivity|].
  exact (proj1 (proj2 (invulnerable_frames_skip_collisions (H := flatPlatform)))
               200%nat 3%nat edgeGame g1 gs H1 H2 H3).
Defined.


Lemma shadow_spawn_rate_limited_witness :
  let g1 := startedGame in
  let g1' := Game._spawnShadowSnake (H := flatPlatform) (mkVec3 50 0 0) (mkVec3 (-1) 0 0) g1 in
  (nextNow g1' - nextNow g1 < SHADOW_SPAWN_DELAY)%Q
  ∧ length (Game.shadowSnakes g1') ≠ length (Game.shadowSnakes g1)
  ∧ (Game.lastShadowSpawnTime g1' == Game.lastShadowSpawnTime g1')%Q
  ∧ Game.shadowSnakes
      (Game._spawnShadowSnake (H := flatPlatform) (mkVec3 0 50 0) (mkVec3 0 (-1) 0) g1')
    = Game.shadowSnakes g1'.
Proof.
  intros g1 g1'.
  assert (nextNow g1' - nextNow g1 < SHADOW_SPAWN_DELAY)%Q as H1 by (vm_compute; reflexivity).
  assert (length (Game.shadowSnakes g1') ≠ length (Game.shadowSnakes g1)) as H2
    by (vm_compute; discriminate).
  assert (Game.lastShadowSpawnTime g1' == Game.lastShadowSpawnTime g1')%Q as H3
    by reflexivity.
  split; [exact H1|]. split; [exact H2|]. split; [exact H3|].
  exact (proj2 (shadow_spawn_rate_limited (H := flatPlatform))
               (mkVec3 50 0 0) (mkVec3 (-1) 0 0) (mkVec3 0 50 0) (mkVec3 0 (-1) 0)
               g1 g1' H1 H2 H3).
Defined.

(** * Further properties of the code *)

(** ** The grid: removal, cells, radius *)

Lemma getGridKey_remove g o p :
  SpatialGrid.getGridKey (SpatialGrid.remove g o) p = SpatialGrid.getGridKey g p.
Proof. done. Qed.

(** X1: [remove(object)] takes the object out of every query result
    and leaves the results otherwise as they were; for an object the
    grid does not track it changes nothing at all. *)
Theorem remove_forgets_object (g : SpatialGrid.t) (o : Obj) :
  consistent g →
  (∀ (position : Vec3) (radius : Q) (x : Obj),
     x ∈ SpatialGrid.getNearby (SpatialGrid.remove g o) position radius
     ↔ x ≠ o ∧ x ∈ SpatialGrid.getNearby g position radius)
  ∧ (SpatialGrid.objectMap g !! o = None → SpatialGrid.remove g o = g).
Proof.
  intros Hg. split.
  - intros position radius x.
    destruct (getNearby_spec (SpatialGrid.remove g o) position radius) as [_ H1].
    destruct (getNearby_spec g position radius) as [_ H2].
    rewrite H1, H2, cellSize_remove, getGridKey_remove. split.
    + intros (key & Hk & Hst). apply stored_remove in Hst as [Hne Hst]; [|done].
      split; [done|]. by exists key.
    + intros (Hne & key & Hk & Hst). exists key. split; [done|].
      by apply stored_remove.
  - intros Ho. unfold SpatialGrid.remove. rewrite Ho, delete_id by done. by destruct g.
Qed.

Lemma remove_forgets_object_witness :
  consistent (gridAfter 10 sampleOps)
  ∧ ∀ (position : Vec3) (radius : Q) (x : Obj),
      x ∈ SpatialGrid.getNearby (SpatialGrid.remove (gridAfter 10 sampleOps) 1%positive)
                                position radius
      ↔ x ≠ 1%positive ∧ x ∈ SpatialGrid.getNearby (gridAfter 10 sampleOps) position radius.
Proof.
  split; [apply consistent_gridAfter|].
  exact (proj1 (remove_forgets_object (gridAfter 10 sampleOps) 1%positive
                                      (consistent_gridAfter 10 sampleOps))).
Defined.

Lemma compact_new cs : compact (SpatialGrid.new cs).
Proof. intros key s Hs. cbn [SpatialGrid.new SpatialGrid.grid] in Hs. by rewrite lookup_empty in Hs. Qed.

Lemma NoDup_set_delete (o : Obj) (s : list Obj) : NoDup s → NoDup (set_delete o s).
Proof. apply NoDup_filter. Qed.

Lemma compact_remove g o : compact g → compact (SpatialGrid.remove g o).
Proof.
  intros Hg key s. unfold SpatialGrid.remove. cbn [SpatialGrid.grid].
  destruct (SpatialGrid.objectMap g !! o) as [k|]; [|apply Hg].
  destruct (SpatialGrid.grid g !! k) as [s0|] eqn:Hk; [|apply Hg].
  destruct (Nat.eqb_spec (length (set_delete o s0)) 0) as [Hlen|Hlen].
  - intros Hs. apply lookup_delete_Some in Hs as [_ Hs]. by apply (Hg key).
  - intros Hs. apply lookup_insert_Some in Hs as [[_ <-]|[_ Hs]]; [|by apply (Hg key)].
    split.
    + intros E. by rewrite E in Hlen.
    + apply NoDup_set_delete. by apply (Hg k).
Qed.

Lemma compact_insert g o p : compact g → compact (SpatialGrid.insert g o p).
Proof.
  intros Hg key s. rewrite grid_insert. apply (compact_remove g o) in Hg.
  intros Hs. apply lookup_insert_Some in Hs as [[_ <-]|[_ Hs]]; [|by apply (Hg key)].
  split.
  - intros E. assert (o ∈ @nil Obj) as Hin by (rewrite <- E; apply elem_of_set_add; by left).
    by apply elem_of_nil in Hin.
  - apply NoDup_set_add.
    destruct (SpatialGrid.grid (SpatialGrid.remove g o) !! SpatialGrid.getGridKey g p)
      as [s0|] eqn:E; [by apply (Hg (SpatialGrid.getGridKey g p) s0)|apply NoDup_nil_2].
Qed.

(** X2: after any insertions, removals and clearings, every cell the
    grid map holds is non-empty and lists no object twice: a cell is
    deleted when its last object leaves. *)
Theorem grid_cells_never_empty (cs : Q) (ops : list GridOp) (key : Key) (s : list Obj) :
  SpatialGrid.grid (gridAfter cs ops) !! key = Some s → s ≠ [] ∧ NoDup s.
Proof.
  revert key s. change (compact (gridAfter cs ops)). unfold gridAfter.
  generalize (compact_new cs). generalize (SpatialGrid.new cs).
  induction ops as [|op ops IH]; intros g Hg; [done|].
  cbn [foldl]. apply IH. destruct op; cbn [applyOp].
  - by apply compact_insert.
  - by apply compact_remove.
  - apply (compact_new (SpatialGrid.cellSize g)).
Qed.

Lemma grid_cells_never_empty_witness :
  SpatialGrid.grid (gridAfter 10 sampleOps) !! (1, 0, 0)%Z = Some [3%positive]
  ∧ [3%positive] ≠ [] ∧ NoDup [3%positive].
Proof.
  assert (SpatialGrid.grid (gridAfter 10 sampleOps) !! (1, 0, 0)%Z = Some [3%positive]) as Hs
    by (vm_compute; reflexivity).
  split; [exact Hs|].
  exact (grid_cells_never_empty 10 sampleOps (1, 0, 0)%Z [3%positive] Hs).
Defined.

(** X3: a larger radius never loses an object: the result of
    [getNearby] for a radius is contained in the result for any larger
    radius around the same position. *)
Theorem getNearby_monotone (g : SpatialGrid.t) (position : Vec3) (r1 r2 : Q) (o : Obj) :
  (0 < SpatialGrid.cellSize g)%Q → (r1 <= r2)%Q →
  o ∈ SpatialGrid.getNearby g position r1 → o ∈ SpatialGrid.getNearby g position r2.
Proof.
  intros Hcs Hr.
  destruct (getNearby_spec g position r1) as [_ H1].
  destruct (getNearby_spec g position r2) as [_ H2].
  rewrite H1, H2. intros (key & Hk & Hst). exists key. split; [|done].
  rewrite elem_of_nearbyKeys in *.
  assert (Qceiling (r1 / SpatialGrid.cellSize g) ≤ Qceiling (r2 / SpatialGrid.cellSize g))%Z
    as Hc.
  { apply Qceiling_resp_le. apply Qmult_le_compat_r; [done|].
    apply Qlt_le_weak, Qinv_lt_0_compat. done. }
  lia.
Qed.

Lemma getNearby_monotone_witness :
  (0 < SpatialGrid.cellSize (gridAfter 10 sampleOps))%Q ∧ (36 # 10 <= 12)%Q
  ∧ 3%positive ∈ SpatialGrid.getNearby (gridAfter 10 sampleOps) origin (36 # 10)
  ∧ 3%positive ∈ SpatialGrid.getNearby (gridAfter 10 sampleOps) origin 12.
Proof.
  assert (0 < SpatialGrid.cellSize (gridAfter 10 sampleOps))%Q as H1 by reflexivity.
  assert (36 # 10 <= 12)%Q as H2 by discriminate.
  assert (3%positive ∈ SpatialGrid.getNearby (gridAfter 10 sampleOps) origin (36 # 10)) as H3.
  { apply list_elem_of_In. vm_compute. tauto. }
  split; [exact H1|]. split; [exact H2|]. split; [exact H3|].
  exact (getNearby_monotone (gridAfter 10 sampleOps) origin (36 # 10) 12 3%positive H1 H2 H3).
Defined.

(** ** Collision detection *)

Lemma checkPlayerObject_sound (w : World) (player : Snake.t) (P : Collision → Prop)
      (collisions : list Collision) (obj : Obj) :
  (∀ c, type c = player_collision → snake c = None → object c = obj →
        obj ≠ Snake.head player → CollisionSystem._isWallObject w obj = false →
        obj ∉ Snake.segments player →
        distanceSquared c
        = VectorMath.distanceSquared (positionOf w (Snake.head player)) (positionOf w obj) →
        (distanceSquared c < COLLISION_DISTANCE * COLLISION_DISTANCE)%Q → P c) →
  Forall P collisions →
  Forall P (CollisionSystem.checkPlayerObject w player collisions obj).
Proof.
  intros HP Hc. unfold CollisionSystem.checkPlayerObject.
  destruct (Pos.eqb_spec obj (Snake.head player)) as [|Hhead]; [done|].
  destruct (CollisionSystem._isWallObject w obj) eqn:Hwall; [done|].
  case_bool_decide as Hin; [done|].
  destruct (distanceLt _ _ _) eqn:Hd; [|done].
  apply Forall_app. split; [done|]. apply Forall_singleton.
  apply HP; try done. by apply Qltb_lt in Hd.
Qed.

Lemma checkShadowObject_sound (w : World) (shadow : Snake.t) (P : Collision → Prop)
      (collisions : list Collision) (obj : Obj) :
  (∀ c, type c = shadow_collision → snake c = Some shadow → object c = obj →
        obj ≠ Snake.head shadow → CollisionSystem._isWallObject w obj = false →
        distanceSquared c
        = VectorMath.distanceSquared (positionOf w (Snake.head shadow)) (positionOf w obj) →
        (distanceSquared c < COLLISION_DISTANCE * COLLISION_DISTANCE)%Q → P c) →
  Forall P collisions →
  Forall P (CollisionSystem.checkShadowObject w shadow collisions obj).
Proof.
  intros HP Hc. unfold CollisionSystem.checkShadowObject.
  destruct (Pos.eqb_spec obj (Snake.head shadow)) as [|Hhead]; [done|].
  destruct (CollisionSystem._isWallObject w obj) eqn:Hwall; [done|].
  destruct (distanceLt _ _ _) eqn:Hd; [|done].
  apply Forall_app. split; [done|]. apply Forall_singleton.
  apply HP; try done. by apply Qltb_lt in Hd.
Qed.

Lemma checkCollisions_reported (player : Snake.t) (shadowSnakes : list Snake.t) (w : World) :
  Forall (λ c, match type c with
               | player_collision =>
                   snake c = None ∧ reported w player c
                   ∧ object c ∉ Snake.segments player
               | shadow_collision =>
                   ∃ shadow, snake c = Some shadow ∧ shadow ∈ shadowSnakes
                             ∧ reported w shadow c
               end)
         (CollisionSystem.checkCollisions (Some player) shadowSnakes w).1.
Proof.
  unfold CollisionSystem.checkCollisions. cbn [fst].
  set (w1 := recordCollisionCheck w).
  change (spatialGrid w1) with (spatialGrid w).
  set (P := λ c : Collision, match type c with
               | player_collision =>
                   snake c = None ∧ reported w player c
                   ∧ object c ∉ Snake.segments player
               | shadow_collision =>
                   ∃ shadow, snake c = Some shadow ∧ shadow ∈ shadowSnakes
                             ∧ reported w shadow c
               end).
  apply (foldl_invariant (Forall P)).
  - apply (foldl_invariant (Forall P)); [constructor|].
    intros collisions obj Hobj. apply checkPlayerObject_sound.
    intros c Ht Hs Ho Hhead Hwall Hseg Hd Hlt. unfold P. rewrite Ht.
    split; [done|]. split; [|by rewrite Ho].
    unfold reported. rewrite Ho. done.
  - intros collisions shadow Hshadow Hc.
    apply (foldl_invariant (Forall P)); [done|].
    intros collisions' obj Hobj. apply checkShadowObject_sound.
    intros c Ht Hs Ho Hhead Hwall Hd Hlt. unfold P. rewrite Ht.
    exists shadow. split; [done|]. split; [done|].
    unfold reported. rewrite Ho. done.
Qed.

(** X4: every collision [checkCollisions] reports is real.  Its
    object came out of the grid query around the head of the snake it
    is reported for, is not that head and not a wall, and is closer to
    the head than COLLISION_DISTANCE, the reported distance being the
    distance of the two current positions; a collision of the player
    is never with one of its own segments, a collision of a shadow
    snake names a snake of the list passed in. *)
Theorem checkCollisions_sound (player : Snake.t) (shadowSnakes : list Snake.t) (w : World) :
  Forall (λ c, match type c with
               | player_collision =>
                   snake c = None ∧ reported w player c
                   ∧ object c ∉ Snake.segments player
               | shadow_collision =>
                   ∃ shadow, snake c = Some shadow ∧ shadow ∈ shadowSnakes
                             ∧ reported w shadow c
               end)
         (CollisionSystem.checkCollisions (Some player) shadowSnakes w).1.
Proof. apply checkCollisions_reported. Qed.

Lemma checkPlayerObject_grows w player collisions obj c :
  c ∈ collisions → c ∈ CollisionSystem.checkPlayerObject w player collisions obj.
Proof.
  intros Hc. unfold CollisionSystem.checkPlayerObject.
  repeat case_match; try done. apply elem_of_app. by left.
Qed.

Lemma checkShadowObject_grows w shadow collisions obj c :
  c ∈ collisions → c ∈ CollisionSystem.checkShadowObject w shadow collisions obj.
Proof.
  intros Hc. unfold CollisionSystem.checkShadowObject.
  repeat case_match; try done. apply elem_of_app. by left.
Qed.

Lemma playerLoop_complete (w : World) (player : Snake.t) (l : list Obj)
      (collisions : list Collision) (o : Obj) :
  o ∈ l → o ≠ Snake.head player → CollisionSystem._isWallObject w o = false →
  o ∉ Snake.segments player →
  (VectorMath.distanceSquared (positionOf w (Snake.head player)) (positionOf w o)
   < COLLISION_DISTANCE * COLLISION_DISTANCE)%Q →
  ∃ c, c ∈ foldl (CollisionSystem.checkPlayerObject w player) collisions l
       ∧ type c = player_collision ∧ object c = o.
Proof.
  intros Hin Hhead Hwall Hseg Hd. revert collisions.
  induction l as [|x l IH]; intros collisions; [by apply elem_of_nil in Hin|].
  cbn [foldl]. apply elem_of_cons in Hin as [<-|Hin]; [|by apply IH].
  set (c := mkCollision player_collision None o
              (VectorMath.distanceSquared (positionOf w (Snake.head player)) (positionOf w o))).
  exists c. split; [|done].
  apply (foldl_invariant (λ cs, c ∈ cs)).
  - unfold CollisionSystem.checkPlayerObject.
    destruct (Pos.eqb_spec o (Snake.head player)) as [|_]; [done|].
    rewrite Hwall. rewrite bool_decide_eq_false_2 by done.
    unfold distanceLt. apply Qltb_lt in Hd. rewrite Hd.
    apply elem_of_app. right. by apply list_elem_of_singleton.
  - intros cs y _. apply checkPlayerObject_grows.
Qed.

Lemma shadowLoop_complete (w : World) (shadow : Snake.t) (l : list Obj)
      (collisions : list Collision) (o : Obj) :
  o ∈ l → o ≠ Snake.head shadow → CollisionSystem._isWallObject w o = false →
  (VectorMath.distanceSquared (positionOf w (Snake.head shadow)) (positionOf w o)
   < COLLISION_DISTANCE * COLLISION_DISTANCE)%Q →
  ∃ c, c ∈ foldl (CollisionSystem.checkShadowObject w shadow) collisions l
       ∧ type c = shadow_collision ∧ snake c = Some shadow ∧ object c = o.
Proof.
  intros Hin Hhead Hwall Hd. revert collisions.
  induction l as [|x l IH]; intros collisions; [by apply elem_of_nil in Hin|].
  cbn [foldl]. apply elem_of_cons in Hin as [<-|Hin]; [|by apply IH].
  set (c := mkCollision shadow_collision (Some shadow) o
              (VectorMath.distanceSquared (positionOf w (Snake.head shadow)) (positionOf w o))).
  exists c. split; [|done].
  apply (foldl_invariant (λ cs, c ∈ cs)).
  - unfold CollisionSystem.checkShadowObject.
    destruct (Pos.eqb_spec o (Snake.head shadow)) as [|_]; [done|].
    rewrite Hwall. unfold distanceLt. apply Qltb_lt in Hd. rewrite Hd.
    apply elem_of_app. right. by apply list_elem_of_singleton.
  - intros cs y _. apply checkShadowObject_grows.
Qed.

(** An object tracked in the cell of its position is a candidate of
    the query around any head it is within COLLISION_DISTANCE of. *)
Lemma candidate_of_query (w : World) (head o : Obj) :
  (0 < SpatialGrid.cellSize (spatialGrid w))%Q →
  consistent (spatialGrid w) →
  trackedAtPosition w o →
  (VectorMath.distanceSquared (positionOf w head) (positionOf w o)
   < COLLISION_DISTANCE * COLLISION_DISTANCE)%Q →
  o ∈ SpatialGrid.getNearby (spatialGrid w) (positionOf w head) (COLLISION_DISTANCE * 2).
Proof.
  intros Hcs Hc Ht Hd. apply getNearby_spec.
  exists (SpatialGrid.getGridKey (spatialGrid w) (positionOf w o)). split.
  - apply within_radius_nearbyKeys; [done|discriminate|].
    assert (COLLISION_DISTANCE * COLLISION_DISTANCE
            <= COLLISION_DISTANCE * 2 * (COLLISION_DISTANCE * 2))%Q as Hle by discriminate.
    lra.
  - by apply Hc.
Qed.

(** X5: the grid hides no collision from [checkCollisions].  If an
    object is tracked in the cell of its current position (the grid
    maps agreeing, the cell size positive), is no wall and is closer
    than COLLISION_DISTANCE to the head of a snake other than its own
    head, a collision is reported for it: for the player unless the
    object is one of the player's segments, and for every shadow snake
    of the list. *)
Theorem checkCollisions_complete (player : Snake.t) (shadowSnakes : list Snake.t) (w : World)
        (subject : Snake.t) (o : Obj) :
  (0 < SpatialGrid.cellSize (spatialGrid w))%Q →
  consistent (spatialGrid w) →
  trackedAtPosition w o →
  CollisionSystem._isWallObject w o = false →
  o ≠ Snake.head subject →
  (VectorMath.distanceSquared (positionOf w (Snake.head subject)) (positionOf w o)
   < COLLISION_DISTANCE * COLLISION_DISTANCE)%Q →
  let collisions := (CollisionSystem.checkCollisions (Some player) shadowSnakes w).1 in
  (subject = player → o ∉ Snake.segments player →
   ∃ c, c ∈ collisions ∧ type c = player_collision ∧ object c = o)
  ∧ (subject ∈ shadowSnakes →
     ∃ c, c ∈ collisions ∧ type c = shadow_collision ∧ snake c = Some subject
          ∧ object c = o).
Proof.
  intros Hcs Hc Ht Hwall Hhead Hd collisions.
  pose proof (candidate_of_query w (Snake.head subject) o Hcs Hc Ht Hd) as Hin.
  unfold collisions, CollisionSystem.checkCollisions. cbn [fst].
  set (w1 := recordCollisionCheck w).
  change (spatialGrid w1) with (spatialGrid w).
  split.
  - intros -> Hseg.
    destruct (playerLoop_complete w1 player _ [] o Hin Hhead Hwall Hseg Hd)
      as (c & Hc1 & Hty & Hob).
    exists c. split; [|done].
    apply (foldl_invariant (λ cs, c ∈ cs)); [done|].
    intros cs shadow _ Hcs'.
    apply (foldl_invariant (λ cs, c ∈ cs)); [done|].
    intros cs' y _. apply checkShadowObject_grows.
  - intros Hsub.
    set (step := λ (collisions : list Collision) (shadow : Snake.t),
           foldl (CollisionSystem.checkShadowObject w1 shadow) collisions
                 (SpatialGrid.getNearby (spatialGrid w) (positionOf w1 (Snake.head shadow))
                                        (COLLISION_DISTANCE * 2))).
    assert (∀ c cs shadow, c ∈ cs → c ∈ step cs shadow) as Hgrow.
    { intros c cs shadow Hcs'. unfold step.
      apply (foldl_invariant (λ cs, c ∈ cs)); [done|].
      intros cs' y _. apply checkShadowObject_grows. }
    generalize (foldl (CollisionSystem.checkPlayerObject w1 player) []
                      (SpatialGrid.getNearby (spatialGrid w) (positionOf w1 (Snake.head player))
                                             (COLLISION_DISTANCE * 2))).
    change (∀ acc, ∃ c, c ∈ foldl step acc shadowSnakes
                        ∧ type c = shadow_collision ∧ snake c = Some subject ∧ object c = o).
    induction shadowSnakes as [|shadow rest IH]; intros acc;
      [by apply elem_of_nil in Hsub|].
    cbn [foldl]. apply elem_of_cons in Hsub as [<-|Hsub]; [|by apply IH].
    destruct (shadowLoop_complete w1 subject _ acc o Hin Hhead Hwall Hd)
      as (c & Hc1 & Hty & Hsn & Hob).
    exists c. split; [|done].
    apply (foldl_invariant (λ cs, c ∈ cs)); [exact Hc1|].
    intros cs shadow _. apply Hgrow.
Qed.

Lemma checkCollisions_complete_witness :
  let w := nibbleAtHead in
  let player := default sampleShadow (Game.playerSnake startedGame) in
  let o := nextObj (Game.world startedGame) in
  (0 < SpatialGrid.cellSize (spatialGrid w))%Q
  ∧ consistent (spatialGrid w)
  ∧ trackedAtPosition w o
  ∧ CollisionSystem._isWallObject w o = false
  ∧ o ≠ Snake.head player
  ∧ (VectorMath.distanceSquared (positionOf w (Snake.head player)) (positionOf w o)
     < COLLISION_DISTANCE * COLLISION_DISTANCE)%Q
  ∧ (o ∉ Snake.segments player)
  ∧ ∃ c, c ∈ (CollisionSystem.checkCollisions (Some player) [] w).1
         ∧ type c = player_collision ∧ object c = o.
Proof.
  intros w player o.
  assert (0 < SpatialGrid.cellSize (spatialGrid w))%Q as H1 by reflexivity.
  assert (consistent (spatialGrid w)) as H2
    by (apply consistentb_consistent; vm_compute; reflexivity).
  assert (trackedAtPosition w o) as H3 by (vm_compute; reflexivity).
  assert (CollisionSystem._isWallObject w o = false) as H4 by (vm_compute; reflexivity).
  assert (o ≠ Snake.head player) as H5 by (vm_compute; discriminate).
  assert (VectorMath.distanceSquared (positionOf w (Snake.head player)) (positionOf w o)
          < COLLISION_DISTANCE * COLLISION_DISTANCE)%Q as H6 by (vm_compute; reflexivity).
  assert (o ∉ Snake.segments player) as H7
    by (apply (bool_decide_unpack _); vm_compute; reflexivity).
  split; [exact H1|]. split; [exact H2|]. split; [exact H3|]. split; [exact H4|].
  split; [exact H5|]. split; [exact H6|]. split; [exact H7|].
  exact (proj1 (checkCollisions_complete player [] w player o H1 H2 H3 H4 H5 H6) eq_refl H7).
Defined.

(** ** Collision resolution *)

Lemma dispose_snake (snake : Snake.t) (w : World) :
  (Snake.dispose snake w).1 = Snake.withTrail [] snake.
Proof. done. Qed.

Lemma dissolveSnake_nibbles (snake : Snake.t) (g : Game.t) :
  length (nibbles (Game.world (Game._dissolveSnake snake g)))
  = length (nibbles (Game.world g)) + Game.nibblesDropped snake.
Proof.
  unfold Game._dissolveSnake.
  destruct (Snake.dispose snake _) as [snake' w'] eqn:Hd.
  assert (nibbles w' = nibbles (Snake.dispose snake
            (foldl (λ w (i : nat),
                      match Snake.segments snake !! i with
                      | Some segment =>
                          NibbleManager.createAt (positionOf w segment)
                                                 (negb (Snake.isPlayer snake)) w
                      | None => w
                      end)
                   (foldl (λ w segment, CollisionSystem.removeObject segment w)
                          (CollisionSystem.removeObject (Snake.head snake) (Game.world g))
                          (Snake.segments snake))
                   (seq 0 (Game.nibblesDropped snake)))).2) as E by (by rewrite Hd).
  rewrite nibbles_dispose in E. apply (f_equal length) in E.
  rewrite (dropLoop_length _ _ _ _ (nibblesDropped_le snake)) in E.
  transitivity (length (nibbles w')).
  { by destruct (Snake.isPlayer snake'), (Snake.isPlayer snake). }
  rewrite E. f_equal. f_equal.
  apply (foldl_invariant (λ w, nibbles w = nibbles (Game.world g))).
  - apply nibbles_removeObject.
  - intros w x _ Hw. by rewrite nibbles_removeObject.
Qed.

Lemma dissolveSnake_shadow (snake : Snake.t) (g : Game.t) :
  Snake.isPlayer snake = false →
  let g' := Game._dissolveSnake snake g in
  Game.playerSnake g' = Game.playerSnake g
  ∧ Game.isGameOver g' = Game.isGameOver g
  ∧ Game.score g' = Game.score g
  ∧ Game.gameStarted g' = Game.gameStarted g
  ∧ Game.isPaused g' = Game.isPaused g
  ∧ Game.shadowSnakes g'
    = filter (λ s, Game.sameSnake s snake = false) (Game.shadowSnakes g).
Proof.
  intros Hp g'. unfold g', Game._dissolveSnake.
  pose proof (dispose_snake snake) as Hd.
  match goal with |- context [Snake.dispose snake ?w0] =>
    specialize (Hd w0); destruct (Snake.dispose snake w0) as [snake' w'] end.
  cbn [fst] in Hd. subst snake'. cbn [Snake.isPlayer Snake.withTrail]. rewrite Hp.
  split_and!; reflexivity.
Qed.

Lemma dissolveSnake_player (snake : Snake.t) (g : Game.t) :
  Snake.isPlayer snake = true →
  let g' := Game._dissolveSnake snake g in
  Game.isGameOver g' = true
  ∧ Game.score g' = Game.score g
  ∧ Game.gameStarted g' = Game.gameStarted g
  ∧ Game.isPaused g' = Game.isPaused g
  ∧ Game.shadowSnakes g' = Game.shadowSnakes g.
Proof.
  intros Hp g'. unfold g', Game._dissolveSnake.
  pose proof (dispose_snake snake) as Hd.
  match goal with |- context [Snake.dispose snake ?w0] =>
    specialize (Hd w0); destruct (Snake.dispose snake w0) as [snake' w'] end.
  cbn [fst] in Hd. subst snake'. cbn [Snake.isPlayer Snake.withTrail]. rewrite Hp.
  split_and!; reflexivity.
Qed.

Lemma dissolved_refl g : dissolved g g.
Proof. by split. Qed.

Lemma dissolved_trans g1 g2 g3 : dissolved g1 g2 → dissolved g2 g3 → dissolved g1 g3.
Proof.
  intros [] []. split; try congruence; try (by etrans); auto.
Qed.

Lemma dissolveSnake_dissolved (snake : Snake.t) (g : Game.t) :
  dissolved g (Game._dissolveSnake snake g).
Proof.
  pose proof (dissolveSnake_nibbles snake g) as Hn.
  destruct (Snake.isPlayer snake) eqn:Hp.
  - destruct (dissolveSnake_player snake g Hp) as (Ho & Hs & Hst & Hpa & Hsh).
    split; try done; [by rewrite Hsh|lia].
  - destruct (dissolveSnake_shadow snake g Hp) as (_ & Ho & Hs & Hst & Hpa & Hsh).
    split; try done; [|congruence|lia].
    rewrite Hsh. apply sublist_filter.
Qed.

Lemma resolve_dissolved (collisions : list Collision) (g : Game.t) :
  dissolved g (Game.resolve collisions g).
Proof.
  revert g. induction collisions as [|collision rest IH]; intros g; [apply dissolved_refl|].
  cbn [Game.resolve].
  repeat case_match;
    eauto using dissolved_refl, dissolved_trans, dissolveSnake_dissolved.
Qed.

(** X6: resolving the collisions of a frame only ever dissolves.
    [_checkCollisions] leaves the score and the started and paused
    flags alone, adds no shadow snake (those left are a sublist of
    those before), never reopens a finished game and never takes a
    nibble off the field. *)
Theorem checkCollisions_only_dissolves (g : Game.t) :
  let g' := Game._checkCollisions g in
  Game.score g' = Game.score g
  ∧ Game.gameStarted g' = Game.gameStarted g
  ∧ Game.isPaused g' = Game.isPaused g
  ∧ Game.shadowSnakes g' `sublist_of` Game.shadowSnakes g
  ∧ (Game.isGameOver g = true → Game.isGameOver g' = true)
  ∧ length (nibbles (Game.world g)) ≤ length (nibbles (Game.world g')).
Proof.
  intros g'. unfold g', Game._checkCollisions.
  destruct (CollisionSystem.checkCollisions _ _ _) as [collisions w] eqn:E.
  assert (nibbles w = nibbles (Game.world g)) as Hn.
  { unfold CollisionSystem.checkCollisions in E.
    destruct (Game.playerSnake g); injection E as _ <-; reflexivity. }
  destruct (resolve_dissolved collisions (Game.withWorld w g)) as [H1 H2 H3 H4 H5 H6].
  cbn [Game.withWorld Game.score Game.gameStarted Game.isPaused Game.shadowSnakes
       Game.isGameOver Game.world] in *.
  rewrite Hn in H6. done.
Qed.

Lemma resolve_gameOver (w0 : World) (player : Snake.t) (shadows : list Snake.t)
      (collisions : list Collision) (g : Game.t) :
  Game.playerSnake g = Some player →
  Game.isGameOver g = false →
  Forall (λ s, Snake.isPlayer s = false) shadows →
  (∀ s, s ∈ Game.shadowSnakes g → s ∈ shadows) →
  Forall (λ c, match type c with
               | player_collision =>
                   snake c = None ∧ reported w0 player c
                   ∧ object c ∉ Snake.segments player
               | shadow_collision =>
                   ∃ shadow, snake c = Some shadow ∧ shadow ∈ shadows
                             ∧ reported w0 shadow c
               end) collisions →
  Game.isGameOver (Game.resolve collisions g) = true →
  ∃ shadow c, shadow ∈ shadows ∧ c ∈ collisions ∧ object c ∈ Snake.segments shadow
              ∧ reported w0 player c.
Proof.
  intros Hpl Hover Hsh Hsub Hall. revert g Hpl Hover Hsub.
  induction Hall as [|c rest Hc Hall IH]; intros g Hpl Hover Hsub; cbn [Game.resolve].
  { congruence. }
  rewrite Hpl.
  assert (∀ g0, Game.playerSnake g0 = Some player → Game.isGameOver g0 = false →
                (∀ s, s ∈ Game.shadowSnakes g0 → s ∈ shadows) →
                Game.isGameOver (Game.resolve rest g0) = true →
                ∃ shadow c0, shadow ∈ shadows ∧ c0 ∈ c :: rest
                             ∧ object c0 ∈ Snake.segments shadow ∧ reported w0 player c0)
    as Hrest.
  { intros g0 H1 H2 H3 H4. destruct (IH g0 H1 H2 H3 H4) as (shadow & c0 & ? & ? & ? & ?).
    exists shadow, c0. split_and!; try done. by right. }
  assert (∀ shadow g0, shadow ∈ shadows →
            Game.playerSnake g0 = Some player → Game.isGameOver g0 = false →
            (∀ s, s ∈ Game.shadowSnakes g0 → s ∈ shadows) →
            Game.playerSnake (Game._dissolveSnake shadow g0) = Some player
            ∧ Game.isGameOver (Game._dissolveSnake shadow g0) = false
            ∧ (∀ s, s ∈ Game.shadowSnakes (Game._dissolveSnake shadow g0) → s ∈ shadows))
    as Hdis.
  { intros shadow g0 Hin H1 H2 H3.
    rewrite Forall_forall in Hsh.
    destruct (dissolveSnake_shadow shadow g0 (Hsh shadow Hin)) as (E1 & E2 & _ & _ & _ & E3).
    split_and!; [congruence|congruence|].
    intros s. rewrite E3. intros [_ Hs]%list_elem_of_filter. by apply H3. }
  destruct (type c) eqn:Hty.
  - destruct Hc as (_ & Hrep & Hseg).
    destruct (Pos.eqb (object c) (Snake.head player)); [by apply Hrest|].
    destruct (existsb _ (Game.shadowSnakes g)) eqn:Hex.
    + intros _. apply existsb_exists in Hex as (shadow & Hin & Hobj).
      apply list_elem_of_In in Hin. apply bool_decide_eq_true in Hobj.
      exists shadow, c. split_and!; [by apply Hsub|left|done|done].
    + unfold Game.selfHit. rewrite bool_decide_eq_false_2 by done. cbn [andb].
      by apply Hrest.
  - destruct Hc as (shadow & -> & Hin & Hrep).
    destruct (Pos.eqb (object c) (Snake.head shadow)); [by apply Hrest|].
    case_bool_decide.
    + destruct (Hdis shadow g Hin Hpl Hover Hsub) as (H1 & H2 & H3). by apply Hrest.
    + set (g1 := if existsb _ (Game.shadowSnakes g) then Game._dissolveSnake shadow g else g).
      assert (Game.playerSnake g1 = Some player ∧ Game.isGameOver g1 = false
              ∧ (∀ s, s ∈ Game.shadowSnakes g1 → s ∈ shadows)) as (H1 & H2 & H3).
      { unfold g1. destruct (existsb _ _); [by apply Hdis|done]. }
      clearbody g1.
      destruct (Game.selfHit shadow (object c)); [|by apply Hrest].
      destruct (Hdis shadow g1 Hin H1 H2 H3) as (H1' & H2' & H3'). by apply Hrest.
Qed.

(** X7: the player dies of the shadow snakes only.  If
    [_checkCollisions] ends a game that was running (no shadow snake
    being flagged as the player), then a segment of one of the shadow
    snakes was within COLLISION_DISTANCE of the head of the player and
    was reported by the grid query around it. *)
Theorem player_dies_only_on_shadow_segment (g : Game.t) :
  Game.isGameOver g = false →
  Forall (λ s, Snake.isPlayer s = false) (Game.shadowSnakes g) →
  Game.isGameOver (Game._checkCollisions g) = true →
  ∃ player shadow o,
    Game.playerSnake g = Some player ∧ shadow ∈ Game.shadowSnakes g
    ∧ o ∈ Snake.segments shadow ∧ o ≠ Snake.head player
    ∧ o ∈ SpatialGrid.getNearby (spatialGrid (Game.world g))
                                (positionOf (Game.world g) (Snake.head player))
                                (COLLISION_DISTANCE * 2)
    ∧ (VectorMath.distanceSquared (positionOf (Game.world g) (Snake.head player))
                                  (positionOf (Game.world g) o)
       < COLLISION_DISTANCE * COLLISION_DISTANCE)%Q.
Proof.
  intros Hover Hsh. unfold Game._checkCollisions.
  destruct (Game.playerSnake g) as [player|] eqn:Hpl.
  2:{ cbn [CollisionSystem.checkCollisions Game.resolve]. intros H.
      cbn in H. congruence. }
  pose proof (checkCollisions_reported player (Game.shadowSnakes g) (Game.world g)) as Hrep.
  destruct (CollisionSystem.checkCollisions _ _ _) as [collisions w] eqn:E.
  cbn [fst] in Hrep. intros Hdead.
  destruct (resolve_gameOver (Game.world g) player (Game.shadowSnakes g) collisions
              (Game.withWorld w g) Hpl Hover Hsh (λ s Hs, Hs) Hrep Hdead)
    as (shadow & c & Hin & _ & Hseg & Hne & _ & Hq & Hd & Hlt).
  exists player, shadow, (object c). split_and!; try done. by rewrite <- Hd.
Qed.

Lemma player_dies_only_on_shadow_segment_witness :
  Game.isGameOver touchingGame = false
  ∧ Forall (λ s, Snake.isPlayer s = false) (Game.shadowSnakes touchingGame)
  ∧ Game.isGameOver (Game._checkCollisions touchingGame) = true
  ∧ ∃ player shadow o,
      Game.playerSnake touchingGame = Some player ∧ shadow ∈ Game.shadowSnakes touchingGame
      ∧ o ∈ Snake.segments shadow ∧ o ≠ Snake.head player
      ∧ o ∈ SpatialGrid.getNearby (spatialGrid (Game.world touchingGame))
                                  (positionOf (Game.world touchingGame) (Snake.head player))
                                  (COLLISION_DISTANCE * 2)
      ∧ (VectorMath.distanceSquared (positionOf (Game.world touchingGame) (Snake.head player))
                                    (positionOf (Game.world touchingGame) o)
         < COLLISION_DISTANCE * COLLISION_DISTANCE)%Q.
Proof.
  assert (Game.isGameOver touchingGame = false) as H1 by reflexivity.
  assert (Forall (λ s, Snake.isPlayer s = false) (Game.shadowSnakes touchingGame)) as H2
    by (apply (bool_decide_unpack _); vm_compute; reflexivity).
  assert (Game.isGameOver (Game._checkCollisions touchingGame) = true) as H3
    by (vm_compute; reflexivity).
  split; [exact H1|]. split; [exact H2|]. split; [exact H3|].
  exact (player_dies_only_on_shadow_segment touchingGame H1 H2 H3).
Defined.

Lemma resolve_shadow_hits (player : Snake.t) (collisions : list Collision) (g : Game.t) :
  Game.playerSnake g = Some player →
  Forall (λ c, type c = shadow_collision
               ∧ ∃ shadow, snake c = Some shadow ∧ Snake.isPlayer shadow = false
                           ∧ object c ≠ Snake.head shadow
                           ∧ object c ∈ Snake.segments player) collisions →
  length (nibbles (Game.world (Game.resolve collisions g)))
  = length (nibbles (Game.world g))
    + sum_list ((λ c, from_option (λ s, length (Snake.segments s)) 0 (snake c)) <$> collisions).
Proof.
  intros Hpl Hall. revert g Hpl.
  induction Hall as [|c rest Hc Hall IH]; intros g Hpl; cbn [Game.resolve].
  { cbn. lia. }
  destruct Hc as (Hty & shadow & Hsn & Hp & Hne & Hin).
  rewrite Hpl, Hty, Hsn.
  destruct (Pos.eqb_spec (object c) (Snake.head shadow)) as [|_]; [done|].
  rewrite bool_decide_eq_true_2 by done.
  destruct (dissolveSnake_shadow shadow g Hp) as (Hpl' & _).
  rewrite IH by congruence.
  rewrite dissolveSnake_nibbles. unfold Game.nibblesDropped. rewrite Hp.
  cbn [fmap list_fmap sum_list]. rewrite Hsn. cbn [from_option]. unfold id. lia.
Qed.

(** X8: a shadow snake is dissolved once for every collision of its
    head with a segment of the player, not once per frame: when the
    collision list holds k such collisions, [_dissolveSnake] runs k
    times, and each run drops a nibble for each segment of the snake
    it is run for. *)
Theorem shadow_dissolved_once_per_collision (player : Snake.t) (collisions : list Collision)
        (g : Game.t) :
  Game.playerSnake g = Some player →
  Forall (λ c, type c = shadow_collision
               ∧ ∃ shadow, snake c = Some shadow ∧ Snake.isPlayer shadow = false
                           ∧ object c ≠ Snake.head shadow
                           ∧ object c ∈ Snake.segments player) collisions →
  length (nibbles (Game.world (Game.resolve collisions g)))
  = length (nibbles (Game.world g))
    + sum_list ((λ c, from_option (λ s, length (Snake.segments s)) 0 (snake c)) <$> collisions).
Proof. apply resolve_shadow_hits. Qed.

Lemma shadow_dissolved_once_per_collision_witness :
  let player := default sampleShadow (Game.playerSnake pincerGame) in
  Game.playerSnake pincerChecked = Some player
  ∧ Forall (λ c, type c = shadow_collision
                 ∧ ∃ shadow, snake c = Some shadow ∧ Snake.isPlayer shadow = false
                             ∧ object c ≠ Snake.head shadow
                             ∧ object c ∈ Snake.segments player) pincerHits
  ∧ length pincerHits = 2%nat
  ∧ Snake.length <$> Game.shadowSnakes pincerGame = [5%nat]
  ∧ length (nibbles (Game.world pincerGame)) = 1%nat
  ∧ length (nibbles (Game.world (Game._checkCollisions pincerGame))) = 11%nat
  ∧ length (nibbles (Game.world (Game.resolve pincerHits pincerChecked)))
    = length (nibbles (Game.world pincerChecked))
      + sum_list ((λ c, from_option (λ s, length (Snake.segments s)) 0 (snake c))
                    <$> pincerHits).
Proof.
  intros player.
  assert (Game.playerSnake pincerChecked = Some player) as H1 by (vm_compute; reflexivity).
  assert (pincerHits
          = (λ i, let o := default 1%positive (Snake.segments player !! i) in
                  mkCollision shadow_collision (Some sampleShadow) o
                    (VectorMath.distanceSquared
                       (positionOf (Game.world pincerGame) (Snake.head sampleShadow))
                       (positionOf (Game.world pincerGame) o)))
              <$> [0%nat; 1%nat]) as Hhits by (vm_compute; reflexivity).
  assert (Forall (λ c, type c = shadow_collision
                 ∧ ∃ shadow, snake c = Some shadow ∧ Snake.isPlayer shadow = false
                             ∧ object c ≠ Snake.head shadow
                             ∧ object c ∈ Snake.segments player) pincerHits) as H2.
  { rewrite Hhits. repeat constructor; exists sampleShadow;
      (split; [reflexivity|]); (split; [reflexivity|]);
      (split; [vm_compute; discriminate|]);
      apply (bool_decide_unpack _); vm_compute; reflexivity. }
  split; [exact H1|]. split; [exact H2|]. split; [vm_compute; reflexivity|].
  split; [vm_compute; reflexivity|]. split; [vm_compute; reflexivity|].
  split; [vm_compute; reflexivity|].
  exact (shadow_dissolved_once_per_collision player pincerHits pincerChecked H1 H2).
Defined.

(** ** Nibbles *)

Lemma positionOf_scene_add o w o' : positionOf (scene_add o w) o' = positionOf w o'.
Proof.
  unfold positionOf, scene_add, withObjects. cbn [objects].
  rewrite lookup_alter. case_decide; [subst|done]. by destruct (objects w !! o').
Qed.


Lemma noObjectNear_ext (w w' : World) (p : Vec3) :
  objects w' = objects w → spatialGrid w' = spatialGrid w →
  NibbleManager.noObjectNear w' p = NibbleManager.noObjectNear w p.
Proof. unfold NibbleManager.noObjectNear, positionOf. by intros -> ->. Qed.

Lemma isNearWall_spec (x y z : Q) :
  NibbleManager.isNearWall x y z = false
  ↔ (Qabs x <= CUBE_HALF_SIZE - SAFE_WALL_DISTANCE)%Q
    ∧ (Qabs y <= CUBE_HALF_SIZE - SAFE_WALL_DISTANCE)%Q
    ∧ (Qabs z <= CUBE_HALF_SIZE - SAFE_WALL_DISTANCE)%Q.
Proof.
  unfold NibbleManager.isNearWall. rewrite !orb_false_iff, !Qltb_ge. tauto.
Qed.

(** How the loop of [spawn] can end, having begun with [isSafe]
    false. *)
Lemma spawnLoop_exit (fuel tries : nat) (w : World) (p : Vec3) (n : nat) (w' : World) :
  NibbleManager.spawnLoop fuel tries false w = Some (p, n, w') →
  NibbleManager.isNearWall (vx p) (vy p) (vz p) = false
  ∧ tries < n
  ∧ (n ≤ NibbleManager.maxTries → NibbleManager.noObjectNear w p = true)
  ∧ objects w' = objects w ∧ spatialGrid w' = spatialGrid w ∧ nibbles w' = nibbles w
  ∧ nextObj w' = nextObj w ∧ faces w' = faces w.
Proof.
  revert tries w. induction fuel as [|fuel IH]; intros tries w; [done|].
  cbn [NibbleManager.spawnLoop Math_random].
  set (x := ((_ - _) * CUBE_SIZE)%Q). set (y := ((_ - _) * CUBE_SIZE)%Q).
  set (z := ((_ - _) * CUBE_SIZE)%Q). set (w3 := mkWorld _ _ _ _ _ _ _ _ _ _ _ _ _ _).
  assert (objects w3 = objects w ∧ spatialGrid w3 = spatialGrid w) as [Ho Hg] by done.
  destruct (NibbleManager.isNearWall x y z) eqn:Hwall.
  - cbn [negb]. intros (H1 & H2 & H3 & H4 & H5 & H6 & H7 & H8)%IH.
    split_and!; [exact H1|lia| |exact H4|exact H5|exact H6|exact H7|exact H8].
    intros Hn. rewrite <- (noObjectNear_ext w w3) by done. auto.
  - destruct (NibbleManager.noObjectNear w3 (mkVec3 x y z)) eqn:Hsafe.
    + rewrite (noObjectNear_ext w w3) in Hsafe by done.
      destruct (Nat.ltb _ _); cbn [negb]; intros [= <- <- <-];
        (split_and!; try done; lia).
    + destruct (Nat.ltb_spec NibbleManager.maxTries (S tries)) as [Hlt|Hge]; cbn [negb].
      * intros [= <- <- <-]. split_and!; try done; lia.
      * intros (H1 & H2 & H3 & H4 & H5 & H6 & H7 & H8)%IH.
        split_and!; [exact H1|lia| |exact H4|exact H5|exact H6|exact H7|exact H8].
        intros Hn. rewrite <- (noObjectNear_ext w w3) by done. auto.
Qed.

Lemma alloc_lookup (ob : Object3D) (w : World) :
  objects (alloc ob w).2 !! nextObj w = Some ob.
Proof. cbn [alloc snd objects]. apply lookup_insert_eq. Qed.

Lemma spawn_places (fuel : nat) (w w' : World) :
  NibbleManager.spawn fuel w = Some w' →
  let p := positionOf w' (nextObj w) in
  nibbles w' = nibbles w ++ [nextObj w]
  ∧ (Qabs (vx p) <= CUBE_HALF_SIZE - SAFE_WALL_DISTANCE)%Q
  ∧ (Qabs (vy p) <= CUBE_HALF_SIZE - SAFE_WALL_DISTANCE)%Q
  ∧ (Qabs (vz p) <= CUBE_HALF_SIZE - SAFE_WALL_DISTANCE)%Q.
Proof.
  unfold NibbleManager.spawn, NibbleManager.create.
  pose proof (alloc_lookup (mkObject3D origin origin false MeshBasicMaterial) w) as Hnew.
  destruct (alloc _ w) as [nibble w0] eqn:Ha.
  assert (nibble = nextObj w ∧ nibbles w0 = nibbles w) as [-> Hn0]
    by (by injection Ha as <- <-).
  cbn [snd] in Hnew.
  destruct (NibbleManager.spawnLoop fuel 0 false w0) as [[[position tries] w1]|] eqn:E;
    [|done].
  intros [= <-].
  apply spawnLoop_exit in E as (Hwall & _ & _ & Ho & _ & Hn & _).
  rewrite positionOf_updateObject.
  change (positionOf (withNibbles _ ?w2)) with (positionOf w2).
  rewrite positionOf_scene_add, positionOf_setPosition, decide_True by done.
  rewrite Ho, Hnew. split; [|by apply isNearWall_spec].
  rewrite nibbles_updateObject. cbn [nibbles withNibbles].
  change (nibbles (scene_add (nextObj w) (setPosition (nextObj w) position w1)))
    with (nibbles w1). by rewrite Hn, Hn0.
Qed.

(** X9: a nibble is never spawned near a wall.  Whenever the loop of
    [spawn] ends, it ends with a sample that is at least
    SAFE_WALL_DISTANCE from every face, even when it gives up; if it
    ends within maxTries tries, no object the grid returns around the
    sample is closer than SAFE_OBJECT_DISTANCE.  [spawn] puts the new
    nibble at that sample and appends it to the nibble array. *)
Theorem spawn_keeps_off_the_walls :
  (∀ (fuel tries : nat) (w : World) (p : Vec3) (n : nat) (w' : World),
     NibbleManager.spawnLoop fuel tries false w = Some (p, n, w') →
     NibbleManager.isNearWall (vx p) (vy p) (vz p) = false
     ∧ tries < n
     ∧ (n ≤ NibbleManager.maxTries → NibbleManager.noObjectNear w p = true))
  ∧ (∀ (fuel : nat) (w w' : World),
       NibbleManager.spawn fuel w = Some w' →
       let p := positionOf w' (nextObj w) in
       nibbles w' = nibbles w ++ [nextObj w]
       ∧ (Qabs (vx p) <= CUBE_HALF_SIZE - SAFE_WALL_DISTANCE)%Q
       ∧ (Qabs (vy p) <= CUBE_HALF_SIZE - SAFE_WALL_DISTANCE)%Q
       ∧ (Qabs (vz p) <= CUBE_HALF_SIZE - SAFE_WALL_DISTANCE)%Q).
Proof.
  split.
  - intros fuel tries w p n w' Hs. apply spawnLoop_exit in Hs. tauto.
  - apply spawn_places.
Qed.

Lemma spawn_keeps_off_the_walls_witness :
  let w := emptyWorld (λ _, (3 # 4)%Q) in
  let w' := default w (NibbleManager.spawn 1 w) in
  let p := positionOf w' (nextObj w) in
  NibbleManager.spawn 1 w = Some w'
  ∧ veq p (mkVec3 25 25 25)
  ∧ nibbles w' = nibbles w ++ [nextObj w]
  ∧ (Qabs (vx p) <= CUBE_HALF_SIZE - SAFE_WALL_DISTANCE)%Q
  ∧ (Qabs (vy p) <= CUBE_HALF_SIZE - SAFE_WALL_DISTANCE)%Q
  ∧ (Qabs (vz p) <= CUBE_HALF_SIZE - SAFE_WALL_DISTANCE)%Q.
Proof.
  intros w w' p.
  assert (NibbleManager.spawn 1 w = Some w') as H1 by (vm_compute; reflexivity).
  split; [exact H1|]. split; [vm_compute; split_and!; reflexivity|].
  exact (proj2 spawn_keeps_off_the_walls 1%nat w w' H1).
Defined.

Lemma spawnLoop_first_safe (fuel tries k : nat) (w : World) :
  k < fuel → tries + k ≤ NibbleManager.maxTries →
  (∀ j, j < k → sampleSafe w (sampleAt w j) = false) →
  sampleSafe w (sampleAt w k) = true →
  ∃ w', NibbleManager.spawnLoop fuel tries false w = Some (sampleAt w k, tries + k + 1, w')
        ∧ objects w' = objects w ∧ nibbles w' = nibbles w.
Proof.
  revert fuel tries w. induction k as [|k IH]; intros fuel tries w Hfuel Htries Hbad Hgood.
  - destruct fuel as [|fuel]; [lia|].
    cbn [NibbleManager.spawnLoop Math_random randoms randomIx].
    set (w3 := mkWorld _ _ _ _ _ _ _ _ _ _ _ _ _ _).
    assert (sampleAt w 0 = mkVec3 ((randoms w (randomIx w) - (1 # 2)) * CUBE_SIZE)
                                  ((randoms w (S (randomIx w)) - (1 # 2)) * CUBE_SIZE)
                                  ((randoms w (S (S (randomIx w))) - (1 # 2)) * CUBE_SIZE))
      as Hs.
    { unfold sampleAt. cbv zeta.
      replace (randomIx w + 3 * 0 + 0) with (randomIx w) by lia.
      replace (randomIx w + 3 * 0 + 1) with (S (randomIx w)) by lia.
      replace (randomIx w + 3 * 0 + 2) with (S (S (randomIx w))) by lia. done. }
    rewrite Hs in *. unfold sampleSafe in Hgood. cbn [vx vy vz] in Hgood.
    apply andb_true_iff in Hgood as [Hwall Hsafe]. apply negb_true_iff in Hwall.
    rewrite Hwall.
    rewrite (noObjectNear_ext w w3) by done. rewrite Hsafe.
    exists w3. replace (tries + 0 + 1) with (S tries) by lia.
    by destruct (Nat.ltb _ _).
  - destruct fuel as [|fuel]; [lia|].
    cbn [NibbleManager.spawnLoop Math_random randoms randomIx].
    set (w3 := mkWorld _ _ _ _ _ _ _ _ _ _ _ _ _ _).
    assert (sampleAt w 0 = mkVec3 ((randoms w (randomIx w) - (1 # 2)) * CUBE_SIZE)
                                  ((randoms w (S (randomIx w)) - (1 # 2)) * CUBE_SIZE)
                                  ((randoms w (S (S (randomIx w))) - (1 # 2)) * CUBE_SIZE))
      as Hs.
    { unfold sampleAt. cbv zeta.
      replace (randomIx w + 3 * 0 + 0) with (randomIx w) by lia.
      replace (randomIx w + 3 * 0 + 1) with (S (randomIx w)) by lia.
      replace (randomIx w + 3 * 0 + 2) with (S (S (randomIx w))) by lia. done. }
    assert (∀ j, sampleAt w3 j = sampleAt w (S j)) as Hshift.
    { intros j. unfold sampleAt, w3. cbn [randoms randomIx]. cbv zeta.
      replace (S (S (S (randomIx w))) + 3 * j + 0) with (randomIx w + 3 * S j + 0) by lia.
      replace (S (S (S (randomIx w))) + 3 * j + 1) with (randomIx w + 3 * S j + 1) by lia.
      replace (S (S (S (randomIx w))) + 3 * j + 2) with (randomIx w + 3 * S j + 2) by lia.
      done. }
    assert (∀ p, sampleSafe w3 p = sampleSafe w p) as Hsame.
    { intros p. unfold sampleSafe. by rewrite (noObjectNear_ext w w3). }
    destruct (IH fuel (S tries) w3) as (w' & Hw' & Ho & Hn); [lia|lia| | |].
    { intros j Hj. rewrite Hshift, Hsame. apply Hbad. lia. }
    { by rewrite Hshift, Hsame. }
    rewrite Hshift in Hw'. replace (S tries + k + 1) with (tries + S k + 1) in Hw' by lia.
    exists w'. split; [|done].
    pose proof (Hbad 0%nat ltac:(lia)) as H0. rewrite Hs in H0.
    unfold sampleSafe in H0. cbn [vx vy vz] in H0.
    destruct (NibbleManager.isNearWall _ _ _); cbn [negb andb] in *; [exact Hw'|].
    rewrite (noObjectNear_ext w w3) by done. rewrite H0.
    destruct (Nat.ltb_spec NibbleManager.maxTries (S tries)) as [Hlt|_]; [lia|].
    exact Hw'.
Qed.

(** X10: the loop of [spawn] ends with the first safe sample.  If
    the samples of the rounds before round [k] are each near a wall
    or near an object, the sample of round [k] is clear of both, and
    the tries do not pass maxTries before it, then the loop returns
    that sample after [k + 1] rounds, given that many rounds to
    run. *)
Theorem spawnLoop_takes_first_safe_sample (fuel tries k : nat) (w : World) :
  k < fuel → tries + k ≤ NibbleManager.maxTries →
  (∀ j, j < k → sampleSafe w (sampleAt w j) = false) →
  sampleSafe w (sampleAt w k) = true →
  ∃ w', NibbleManager.spawnLoop fuel tries false w = Some (sampleAt w k, tries + k + 1, w')
        ∧ objects w' = objects w ∧ nibbles w' = nibbles w.
Proof. apply spawnLoop_first_safe. Qed.

Lemma spawnLoop_takes_first_safe_sample_witness :
  2 < 5 ∧ 0 + 2 ≤ NibbleManager.maxTries
  ∧ (∀ j, j < 2 → sampleSafe thirdTimeWorld (sampleAt thirdTimeWorld j) = false)
  ∧ sampleSafe thirdTimeWorld (sampleAt thirdTimeWorld 2) = true
  ∧ ∃ w', NibbleManager.spawnLoop 5 0 false thirdTimeWorld
          = Some (sampleAt thirdTimeWorld 2, 0 + 2 + 1, w')
          ∧ objects w' = objects thirdTimeWorld ∧ nibbles w' = nibbles thirdTimeWorld.
Proof.
  assert (2 < 5) as H1 by lia.
  assert (0 + 2 ≤ NibbleManager.maxTries) as H2 by (unfold NibbleManager.maxTries; lia).
  assert (∀ j, j < 2 → sampleSafe thirdTimeWorld (sampleAt thirdTimeWorld j) = false) as H3.
  { intros [|[|j]] Hj; [vm_compute; reflexivity..|lia]. }
  assert (sampleSafe thirdTimeWorld (sampleAt thirdTimeWorld 2) = true) as H4
    by (vm_compute; reflexivity).
  split; [exact H1|]. split; [exact H2|]. split; [exact H3|]. split; [exact H4|].
  exact (spawnLoop_takes_first_safe_sample 5 0 2 thirdTimeWorld H1 H2 H3 H4).
Defined.

Lemma objects_updateObject o p w : objects (CollisionSystem.updateObject o p w) = objects w.
Proof. unfold CollisionSystem.updateObject. by destruct (CollisionSystem._isWallObject w o). Qed.

Lemma objects_removeObject o w : objects (CollisionSystem.removeObject o w) = objects w.
Proof. unfold CollisionSystem.removeObject. by destruct (CollisionSystem._isWallObject w o). Qed.

Lemma createAt_placed (position : Vec3) (randomize : bool) (w : World) :
  let w' := NibbleManager.createAt position randomize w in
  let p := positionOf w' (nextObj w) in
  nibbles w' = nibbles w ++ [nextObj w]
  ∧ (randomize = false → p = position)
  ∧ (randomize = true →
     p = mkVec3 (vx position + (randoms w (randomIx w) - (1 # 2)) * 2)
                (vy position + (randoms w (S (randomIx w)) - (1 # 2)) * 2)
                (vz position + (randoms w (S (S (randomIx w))) - (1 # 2)) * 2)).
Proof.
  intros w' p. split; [apply nibbles_createAt|].
  unfold p, w', NibbleManager.createAt, NibbleManager.create. cbn [alloc].
  set (w0 := mkWorld _ _ _ _ _ _ _ _ _ _ _ _ _ _).
  assert (is_Some (objects w0 !! nextObj w)) as [ob Hob]
    by (eexists; apply lookup_insert_eq).
  assert (positionOf (setPosition (nextObj w) position w0) (nextObj w) = position) as Hp0.
  { rewrite positionOf_setPosition, decide_True by done. by rewrite Hob. }
  split; intros ->.
  - rewrite positionOf_updateObject.
    change (positionOf (withNibbles _ ?w2)) with (positionOf w2).
    by rewrite positionOf_scene_add.
  - cbn [Math_random randoms randomIx].
    rewrite positionOf_updateObject.
    change (positionOf (withNibbles _ ?w2)) with (positionOf w2).
    rewrite positionOf_scene_add.
    set (w3 := mkWorld _ _ _ _ _ _ _ _ _ _ _ _ _ _).
    assert (positionOf w3 (nextObj w) = position) as Hp3 by exact Hp0.
    assert (is_Some (objects w3 !! nextObj w)) as [ob3 Hob3].
    { change (objects w3) with (objects (setPosition (nextObj w) position w0)).
      apply objects_setPosition_is_Some. eauto. }
    rewrite positionOf_setPosition, decide_True by done. rewrite Hob3, Hp3. done.
Qed.

(** X11: [createAt(position, randomize)] appends one nibble and puts
    it at [position] itself when [randomize] is off and within one
    unit of it on every axis when [randomize] is on, the three
    numbers drawn from [Math.random()] lying between 0 and 1. *)
Theorem createAt_offset_bounded (position : Vec3) (randomize : bool) (w : World) :
  (∀ i, i < 3 → (0 <= randoms w (randomIx w + i) <= 1)%Q) →
  let w' := NibbleManager.createAt position randomize w in
  let p := positionOf w' (nextObj w) in
  nibbles w' = nibbles w ++ [nextObj w]
  ∧ (randomize = false → p = position)
  ∧ (Qabs (vx p - vx position) <= 1)%Q
  ∧ (Qabs (vy p - vy position) <= 1)%Q
  ∧ (Qabs (vz p - vz position) <= 1)%Q.
Proof.
  intros Hr w' p.
  destruct (createAt_placed position randomize w) as (Hn & Hoff & Hon).
  fold w' in Hn, Hoff, Hon. fold p in Hoff, Hon.
  split; [done|]. split; [done|].
  destruct randomize.
  - rewrite (Hon eq_refl). cbn [vx vy vz].
    pose proof (Hr 0%nat ltac:(lia)) as H0. pose proof (Hr 1%nat ltac:(lia)) as H1.
    pose proof (Hr 2%nat ltac:(lia)) as H2.
    replace (randomIx w + 0) with (randomIx w) in H0 by lia.
    replace (randomIx w + 1) with (S (randomIx w)) in H1 by lia.
    replace (randomIx w + 2) with (S (S (randomIx w))) in H2 by lia.
    split_and!; apply Qabs_Qle_condition; lra.
  - rewrite (Hoff eq_refl).
    split_and!; apply Qabs_Qle_condition; lra.
Qed.

Lemma createAt_offset_bounded_witness :
  let w := Game.world startedGame in
  let w' := NibbleManager.createAt (mkVec3 10 20 30) true w in
  let p := positionOf w' (nextObj w) in
  (∀ i, i < 3 → (0 <= randoms w (randomIx w + i) <= 1)%Q)
  ∧ veq p (mkVec3 (21 # 2) (41 # 2) (61 # 2))
  ∧ (Qabs (vx p - 10) <= 1)%Q ∧ (Qabs (vy p - 20) <= 1)%Q ∧ (Qabs (vz p - 30) <= 1)%Q.
Proof.
  intros w w' p.
  assert (∀ i, i < 3 → (0 <= randoms w (randomIx w + i) <= 1)%Q) as Hr.
  { intros i _. change (randoms w) with (λ _ : nat, (3 # 4)%Q). cbv beta. split; discriminate. }
  split; [exact Hr|]. split; [vm_compute; split_and!; reflexivity|].
  exact (proj2 (proj2 (createAt_offset_bounded (mkVec3 10 20 30) true w Hr))).
Defined.

Lemma isWallObject_detached (w : World) (o : Obj) :
  CollisionSystem._isWallObject (scene_remove o w) o = false.
Proof.
  unfold CollisionSystem._isWallObject, scene_remove, withObjects. cbn [objects].
  rewrite lookup_alter_eq. by destruct (objects w !! o).
Qed.

Lemma removeByIndex_effect (index : nat) (w : World) (nibble : Obj) :
  nibbles w !! index = Some nibble →
  let w' := NibbleManager.removeByIndex index w in
  nibbles w' = delete index (nibbles w)
  ∧ length (nibbles w') = length (nibbles w) - 1
  ∧ SpatialGrid.objectMap (spatialGrid w') !! nibble = None
  ∧ (∀ ob, objects w' !! nibble = Some ob → parent ob = false)
  ∧ (∀ o, o ≠ nibble →
          objects w' !! o = objects w !! o
          ∧ SpatialGrid.objectMap (spatialGrid w') !! o
            = SpatialGrid.objectMap (spatialGrid w) !! o)
  ∧ (consistent (spatialGrid w) →
     consistent (spatialGrid w')
     ∧ ∀ position radius, nibble ∉ SpatialGrid.getNearby (spatialGrid w') position radius).
Proof.
  intros Hi w'. unfold w', NibbleManager.removeByIndex. rewrite Hi.
  pose proof (isWallObject_detached w nibble) as Hwall.
  unfold CollisionSystemBase.removeObject.
  change (CollisionSystemBase._isWallObject) with (CollisionSystem._isWallObject).
  rewrite Hwall. unfold withNibbles, withGrid. cbn [nibbles spatialGrid objects].
  change (nibbles (scene_remove nibble w)) with (nibbles w).
  change (spatialGrid (scene_remove nibble w)) with (spatialGrid w).
  split_and!.
  - by rewrite delete_take_drop.
  - rewrite <- delete_take_drop. apply length_delete. eauto.
  - rewrite objectMap_remove. by rewrite decide_True.
  - unfold scene_remove, withObjects. cbn [objects]. rewrite lookup_alter_eq.
    intros ob. destruct (objects w !! nibble); intros [= <-]. done.
  - intros o Hne. split.
    + unfold scene_remove, withObjects. cbn [objects]. by rewrite lookup_alter_ne.
    + rewrite objectMap_remove. by rewrite decide_False.
  - intros Hc. split; [by apply consistent_remove|].
    intros position radius Hin. apply getNearby_spec in Hin as (key & _ & Hst).
    apply stored_remove in Hst as [Hne _]; done.
Qed.

(** X12: [removeByIndex(index)] with an index of the nibble array
    takes exactly that entry out of the array, detaches the nibble
    from the scene and untracks it, so that (the grid maps agreeing)
    no query returns it any more, and leaves every other object as it
    was; with an index outside the array it changes nothing. *)
Theorem removeByIndex_untracks (index : nat) (w : World) :
  match nibbles w !! index with
  | None => NibbleManager.removeByIndex index w = w
  | Some nibble =>
      let w' := NibbleManager.removeByIndex index w in
      nibbles w' = delete index (nibbles w)
      ∧ length (nibbles w') = length (nibbles w) - 1
      ∧ SpatialGrid.objectMap (spatialGrid w') !! nibble = None
      ∧ (∀ ob, objects w' !! nibble = Some ob → parent ob = false)
      ∧ (∀ o, o ≠ nibble →
              objects w' !! o = objects w !! o
              ∧ SpatialGrid.objectMap (spatialGrid w') !! o
                = SpatialGrid.objectMap (spatialGrid w) !! o)
      ∧ (consistent (spatialGrid w) →
         consistent (spatialGrid w')
         ∧ ∀ position radius,
             nibble ∉ SpatialGrid.getNearby (spatialGrid w') position radius)
  end.
Proof.
  destruct (nibbles w !! index) as [nibble|] eqn:Hi.
  - by apply removeByIndex_effect.
  - unfold NibbleManager.removeByIndex. by rewrite Hi.
Qed.

(** X13: [remove(nibble)] is [removeByIndex] at the first index the
    nibble has in the array, and changes nothing, scene and grid
    included, for a nibble the array does not hold. *)
Theorem remove_first_occurrence (nibble : Obj) (w : World) :
  (nibble ∉ nibbles w → NibbleManager.remove nibble w = w)
  ∧ (∀ i, nibbles w !! i = Some nibble →
          (∀ j, j < i → nibbles w !! j ≠ Some nibble) →
          NibbleManager.remove nibble w = NibbleManager.removeByIndex i w).
Proof.
  unfold NibbleManager.remove, NibbleManager.removeByIndex. split.
  - intros Hnot.
    destruct (list_find (λ x, x = nibble) (nibbles w)) as [[i x]|] eqn:E; [|done].
    apply list_find_Some in E as (Hi & -> & _).
    exfalso. apply Hnot. by eapply list_elem_of_lookup_2.
  - intros i Hi Hfirst.
    assert (list_find (λ x, x = nibble) (nibbles w) = Some (i, nibble)) as ->.
    { apply list_find_Some. split_and!; [done|done|].
      intros j y Hj Hlt ->. by apply (Hfirst j). }
    by rewrite Hi.
Qed.

Lemma remove_first_occurrence_witness :
  let w := withNibbles (λ l, l ++ l) nibbleAtHead in
  let nibble := nextObj (Game.world startedGame) in
  nibbles w !! 1%nat = Some nibble
  ∧ (∀ j, j < 1 → nibbles w !! j ≠ Some nibble)
  ∧ length (nibbles w) = 4%nat
  ∧ NibbleManager.remove nibble w = NibbleManager.removeByIndex 1 w.
Proof.
  intros w nibble.
  assert (nibbles w !! 1%nat = Some nibble) as H1 by (vm_compute; reflexivity).
  assert (∀ j, j < 1 → nibbles w !! j ≠ Some nibble) as H2.
  { intros [|j] Hj; [vm_compute; discriminate|lia]. }
  split; [exact H1|]. split; [exact H2|]. split; [vm_compute; reflexivity|].
  exact (proj2 (remove_first_occurrence nibble w) 1%nat H1 H2).
Defined.

Lemma removeByIndex_untracks_witness :
  let w := nibbleAtHead in
  let nibble := nextObj (Game.world startedGame) in
  let w' := NibbleManager.removeByIndex 1 w in
  nibbles w !! 1%nat = Some nibble
  ∧ consistent (spatialGrid w)
  ∧ nibbles w' = delete 1%nat (nibbles w)
  ∧ SpatialGrid.objectMap (spatialGrid w') !! nibble = None
  ∧ ∀ position radius, nibble ∉ SpatialGrid.getNearby (spatialGrid w') position radius.
Proof.
  intros w nibble w'.
  assert (nibbles w !! 1%nat = Some nibble) as H1 by (vm_compute; reflexivity).
  assert (consistent (spatialGrid w)) as H2
    by (apply consistentb_consistent; vm_compute; reflexivity).
  pose proof (removeByIndex_untracks 1 w) as H. rewrite H1 in H.
  destruct H as (Ha & _ & Hb & _ & _ & Hc).
  split; [exact H1|]. split; [exact H2|]. split; [exact Ha|]. split; [exact Hb|].
  exact (proj2 (Hc H2)).
Defined.

(** ** Nibble collection *)

Lemma addSegment_effect (initial : bool) (s : Snake.t) (w : World) :
  Snake.segments (Snake.addSegment initial s w).1 = Snake.segments s ++ [nextObj w]
  ∧ Snake.nibblesEaten (Snake.addSegment initial s w).1 = Snake.nibblesEaten s
  ∧ Snake.length (Snake.addSegment initial s w).1
    = (if initial then Snake.length s else S (Snake.length s))
  ∧ nibbles (Snake.addSegment initial s w).2 = nibbles w.
Proof.
  unfold Snake.addSegment. cbn [alloc]. destruct initial; cbn [fst snd];
    rewrite nibbles_updateObject; done.
Qed.

Lemma findNearby_lookup (w : World) (p : Vec3) (index : nat) :
  NibbleManager.findNearby w p = Some index → is_Some (nibbles w !! index).
Proof.
  unfold NibbleManager.findNearby. intros H.
  apply fmap_Some in H as ([i x] & H & ->). apply list_find_Some in H as (Hi & _).
  cbn [fst]. eauto.
Qed.

Lemma collect_counts (fuel : nat) (snake : Snake.t) (w : World)
      (eaten : bool) (snake' : Snake.t) (w' : World) :
  Game.collect fuel snake w = Some (eaten, snake', w') →
  length (nibbles w') = length (nibbles w)
  ∧ (if eaten then 1 else 0) = eats w (positionOf w (Snake.head snake))
  ∧ length (Snake.segments snake')
    = length (Snake.segments snake) + eats w (positionOf w (Snake.head snake))
  ∧ Snake.nibblesEaten snake'
    = Snake.nibblesEaten snake + eats w (positionOf w (Snake.head snake))
  ∧ Snake.length snake' = Snake.length snake + eats w (positionOf w (Snake.head snake)).
Proof.
  unfold Game.collect, eats.
  destruct (NibbleManager.findNearby _ _) as [index|] eqn:Hf.
  2:{ intros [= <- <- <-]. split_and!; lia. }
  apply findNearby_lookup in Hf as [nibble Hi].
  destruct (removeByIndex_effect index w nibble Hi) as (_ & Hlen & _).
  pose proof (lookup_lt_Some _ _ _ Hi) as Hlt.
  pose proof (addSegment_effect false snake (NibbleManager.removeByIndex index w))
    as (Hseg & Heat & Hl & Hn).
  destruct (Snake.addSegment _ _ _) as [snake1 w1]. cbn [fst snd] in *.
  destruct (NibbleManager.spawn fuel w1) as [w2|] eqn:E; [|done].
  cbn [mbind option_bind]. intros [= <- <- <-].
  apply spawn_places in E as (E & _).
  cbn [Snake.segments Snake.nibblesEaten Snake.length Snake.withNibblesEaten].
  rewrite E, Hseg, !length_app, Hn, Heat, Hl. cbn [length]. split_and!; lia.
Qed.

Lemma collectShadows_counts (fuel : nat) (snakes : list Snake.t) (w : World)
      (snakes' : list Snake.t) (w' : World) :
  Game.collectShadows fuel snakes w = Some (snakes', w') →
  length (nibbles w') = length (nibbles w) ∧ length snakes' = length snakes.
Proof.
  revert w snakes' w'. induction snakes as [|snake snakes IH]; intros w snakes' w'.
  - by intros [= <- <-].
  - cbn [Game.collectShadows].
    destruct (Game.collect fuel snake w) as [[[eaten snake1] w1]|] eqn:E1; [|done].
    cbn [mbind option_bind].
    destruct (Game.collectShadows fuel snakes w1) as [[rest w2]|] eqn:E2; [|done].
    cbn [mbind option_bind]. intros [= <- <-].
    apply collect_counts in E1 as (Hn1 & _). apply IH in E2 as [Hn2 Hl2].
    cbn [length]. split; congruence.
Qed.

(** X14: collecting never thins the field.  [_checkNibbleCollection]
    leaves the number of nibbles as it was (each nibble eaten, by the
    player or by a shadow snake, is replaced by a spawned one) and the
    number of shadow snakes too; the score goes up by one exactly when
    a nibble is within reach of the head of the player, and then the
    player gains one segment and one eaten nibble. *)
Theorem collection_replaces_nibbles (fuel : nat) (time : Q) (g g' : Game.t)
        (player : Snake.t) :
  Game.playerSnake g = Some player →
  Game._checkNibbleCollection fuel time g = Some g' →
  let eaten := eats (Game.world g) (positionOf (Game.world g) (Snake.head player)) in
  length (nibbles (Game.world g')) = length (nibbles (Game.world g))
  ∧ length (Game.shadowSnakes g') = length (Game.shadowSnakes g)
  ∧ Game.score g' = Game.score g + eaten
  ∧ ∃ player', Game.playerSnake g' = Some player'
               ∧ length (Snake.segments player') = length (Snake.segments player) + eaten
               ∧ Snake.nibblesEaten player' = Snake.nibblesEaten player + eaten.
Proof.
  intros Hpl. unfold Game._checkNibbleCollection. rewrite Hpl.
  destruct (Game.collect fuel player (Game.world g)) as [[[eaten player1] w1]|] eqn:E1; [|done].
  cbn [mbind option_bind]. apply collect_counts in E1 as (Hn1 & He & Hs1 & He1 & _).
  intros Hg'. set (eaten' := eats _ _) in *.
  assert (Game.score (if eaten then Game.withScore (S (Game.score
                         (Game.withPlayerSnake (Some player1) g)))
                         (Game.withPlayerSnake (Some player1) g)
                      else Game.withPlayerSnake (Some player1) g)
          = Game.score g + eaten') as Hscore.
  { rewrite <- He. destruct eaten; cbn; lia. }
  destruct (Z.eqb _ 0).
  - destruct eaten;
      unfold Game.withPlayerSnake, Game.withScore in *;
      cbn [Game.shadowSnakes Game.world Game.playerSnake Game.score] in *;
      (match type of Hg' with context [Game.collectShadows fuel ?l w1] =>
         destruct (Game.collectShadows fuel l w1) as [[shadows w2]|] eqn:E2; [|done] end;
       cbn [mbind option_bind] in Hg'; injection Hg' as <-;
       apply collectShadows_counts in E2 as [Hn2 Hl2];
       cbn [Game.withWorld Game.withShadowSnakes Game.world Game.shadowSnakes
            Game.score Game.playerSnake];
       split_and!; [congruence|done|done|by exists player1]).
  - destruct eaten; injection Hg' as <-;
      cbn [Game.withWorld Game.withPlayerSnake Game.withScore Game.world
           Game.shadowSnakes Game.score Game.playerSnake] in *;
      (split_and!; [done|done|done|by exists player1]).
Qed.

Lemma collection_replaces_nibbles_witness :
  let g := Game.withWorld nibbleAtHead startedGame in
  let player := default sampleShadow (Game.playerSnake startedGame) in
  let g' := default g (Game._checkNibbleCollection 200 0 g) in
  Game.playerSnake g = Some player
  ∧ Game._checkNibbleCollection 200 0 g = Some g'
  ∧ eats (Game.world g) (positionOf (Game.world g) (Snake.head player)) = 1%nat
  ∧ length (nibbles (Game.world g')) = length (nibbles (Game.world g))
  ∧ Game.score g' = Game.score g + 1.
Proof.
  intros g player g'.
  assert (Game.playerSnake g = Some player) as H1 by (vm_compute; reflexivity).
  assert (Game._checkNibbleCollection 200 0 g = Some g') as H2 by (vm_compute; reflexivity).
  assert (eats (Game.world g) (positionOf (Game.world g) (Snake.head player)) = 1%nat) as H3
    by (vm_compute; reflexivity).
  pose proof (collection_replaces_nibbles 200 0 g g' player H1 H2) as (Ha & _ & Hb & _).
  rewrite H3 in Hb.
  split; [exact H1|]. split; [exact H2|]. split; [exact H3|]. split; [exact Ha|exact Hb].
Defined.

(** ** The boundary and the birth of a shadow snake *)

Lemma Math_sign_outside (h x : Q) :
  (0 <= h)%Q → (h < Qabs x)%Q →
  (Math_sign x = 1%Q ∧ 0 < x)%Q ∨ (Math_sign x = (-1)%Q ∧ x < 0)%Q.
Proof.
  intros Hh Hx. unfold Math_sign.
  destruct (Qltb 0 x) eqn:E1.
  - left. split; [done|]. by apply Qltb_lt.
  - apply Qltb_ge in E1. destruct (Qltb x 0) eqn:E2.
    + right. split; [done|]. by apply Qltb_lt.
    + apply Qltb_ge in E2. exfalso.
      assert (x == 0)%Q as E by lra. rewrite E in Hx. change (Qabs 0) with 0%Q in Hx. lra.
Qed.




Lemma inset_spec (hit : Q) :
  (Qabs (Game.inset hit) < CUBE_HALF_SIZE)%Q
  ∧ ((CUBE_HALF_SIZE <= Qabs hit)%Q → (Qabs (Game.inset hit) == CUBE_HALF_SIZE - 2)%Q)
  ∧ ((Qabs hit < CUBE_HALF_SIZE)%Q → Game.inset hit = hit).
Proof.
  unfold Game.inset.
  assert (0 <= CUBE_HALF_SIZE - 2)%Q as H48 by discriminate.
  assert (CUBE_HALF_SIZE - 2 < CUBE_HALF_SIZE)%Q as Hlt by reflexivity.
  assert (0 <= CUBE_HALF_SIZE)%Q as H50 by discriminate.
  revert H48 Hlt H50. generalize CUBE_HALF_SIZE. intros h H48 Hlt H50.
  destruct (Qle_bool h (Qabs hit)) eqn:E.
  - apply Qle_bool_iff in E.
    assert (Qabs (Math_sign hit * (h - 2)) == h - 2)%Q as Ha.
    { destruct (Qlt_le_dec (Qabs hit) h) as [Hc|Hc]; [lra|].
      assert (h - 2 < Qabs hit)%Q as Hout by lra.
      destruct (Math_sign_outside (h - 2) hit H48 Hout) as [[-> _]|[-> _]].
      - rewrite Qabs_pos; lra.
      - rewrite Qabs_neg; lra. }
    split_and!; [lra|done|intros; lra].
  - apply Qle_bool_gt in E. split_and!; [done|intros; lra|done].
Qed.

Lemma objects_scene_add_is_Some o w o' :
  is_Some (objects (scene_add o w) !! o') ↔ is_Some (objects w !! o').
Proof.
  unfold scene_add, withObjects. cbn [objects]. rewrite lookup_alter.
  case_decide; [subst|done]. by rewrite fmap_is_Some.
Qed.

Lemma addSegment_objects (initial : bool) (s : Snake.t) (w : World) (o : Obj) :
  is_Some (objects w !! o) → is_Some (objects (Snake.addSegment initial s w).2 !! o).
Proof.
  intros Ho. unfold Snake.addSegment. cbn [alloc].
  assert (∀ w0 : World, is_Some (objects w0 !! o) →
            is_Some (objects (if initial then w0 else w0) !! o)) as _ by (by destruct initial).
  destruct initial; cbn [snd]; rewrite objects_updateObject;
    apply objects_scene_add_is_Some; cbn [objects]; rewrite lookup_insert;
    case_decide; eauto.
Qed.

Lemma init_objects (s : Snake.t) (w : World) (o : Obj) :
  is_Some (objects w !! o) → is_Some (objects (Snake._init s w).2 !! o).
Proof.
  intros Ho. unfold Snake._init.
  match goal with
  | |- context [foldl ?f ?a ?l] =>
      assert (is_Some (objects (foldl f a l).2 !! o)) as Hf;
      [|destruct (foldl f a l) as [s' w']; exact Hf]
  end.
  apply (foldl_invariant (λ sw : Snake.t * World, is_Some (objects sw.2 !! o))).
  - cbn [snd]. rewrite objects_updateObject. by apply objects_scene_add_is_Some.
  - intros [s' w'] x _ Hw'. cbn [snd] in *. by apply addSegment_objects.
Qed.

(** The head of a snake the constructor returns is an object of the
    scene. *)
Lemma new_head `{Platform} (isPlayer : bool) (w : World) :
  is_Some (objects (Snake.new isPlayer w).2 !! Snake.head (Snake.new isPlayer w).1).
Proof.
  unfold Snake.new. cbn [alloc Math_random].
  match goal with |- context [Snake._init ?s ?w0] =>
    destruct (init_keeps s w0) as (_ & Hh & _);
    pose proof (init_objects s w0 (nextObj w)) as Ho end.
  rewrite Hh. cbn [Snake.head]. apply Ho. cbn [objects].
  rewrite lookup_insert_eq. eauto.
Qed.

Lemma spawnShadowSnake_position `{Platform} (wallHitPoint normal : Vec3) (g : Game.t) :
  (SHADOW_SPAWN_DELAY <= nextNow g - Game.lastShadowSpawnTime g)%Q →
  let g' := Game._spawnShadowSnake wallHitPoint normal g in
  ∃ shadow,
    Game.shadowSnakes g' = Game.shadowSnakes g ++ [shadow]
    ∧ Snake.isPlayer shadow = false
    ∧ Snake.isInitialReflectionPhase shadow = true
    ∧ positionOf (Game.world g') (Snake.head shadow)
      = mkVec3 (Game.inset (vx wallHitPoint)) (Game.inset (vy wallHitPoint))
               (Game.inset (vz wallHitPoint)).
Proof.
  intros Hge g'. unfold g', Game._spawnShadowSnake. cbn [performance_now].
  apply Qltb_ge in Hge. unfold nextNow in *. rewrite Hge.
  match goal with |- context [Snake.new false ?w0] =>
    pose proof (new_head false w0) as Hhead;
    pose proof (new_keeps false w0) as [_ Hp];
    destruct (Snake.new false w0) as [shadowSnake w1] end.
  cbn [fst snd] in *. eexists. split; [reflexivity|].
  cbn [Snake.isPlayer Snake.isInitialReflectionPhase Snake.head Snake.setNibblesRef
       Snake.withSpeed Snake.withNibblesEaten Snake.withTargetDirection
       Snake.withInitialReflectionPhase Snake.withCreationTime Game.world Game.withWorld].
  split; [exact Hp|]. split; [reflexivity|].
  rewrite positionOf_setRotation, positionOf_setPosition, decide_True by done.
  destruct Hhead as [ob ->]. done.
Qed.

(** X16: a shadow snake is born inside the cube.  When
    [_spawnShadowSnake] spawns, the head of the new snake is put at
    the hit point with every coordinate that is on or beyond a face
    moved to 2 inside that face, so each coordinate of the head is
    strictly within CUBE_HALF_SIZE of the centre, wherever the hit
    point lies. *)
Theorem shadow_spawns_inside_cube `{Platform} (wallHitPoint normal : Vec3) (g : Game.t) :
  (SHADOW_SPAWN_DELAY <= nextNow g - Game.lastShadowSpawnTime g)%Q →
  let g' := Game._spawnShadowSnake wallHitPoint normal g in
  ∃ shadow,
    Game.shadowSnakes g' = Game.shadowSnakes g ++ [shadow]
    ∧ Snake.isPlayer shadow = false
    ∧ let p := positionOf (Game.world g') (Snake.head shadow) in
      p = mkVec3 (Game.inset (vx wallHitPoint)) (Game.inset (vy wallHitPoint))
                 (Game.inset (vz wallHitPoint))
      ∧ (Qabs (vx p) < CUBE_HALF_SIZE)%Q
      ∧ (Qabs (vy p) < CUBE_HALF_SIZE)%Q
      ∧ (Qabs (vz p) < CUBE_HALF_SIZE)%Q
      ∧ ((CUBE_HALF_SIZE <= Qabs (vx wallHitPoint))%Q →
         (Qabs (vx p) == CUBE_HALF_SIZE - 2)%Q).
Proof.
  intros Hge g'.
  destruct (spawnShadowSnake_position wallHitPoint normal g Hge)
    as (shadow & Hs & Hp & _ & Hpos).
  fold g' in Hs, Hpos. exists shadow. split; [done|]. split; [done|].
  cbv zeta. rewrite Hpos. cbn [vx vy vz]. split; [done|].
  split_and!; try apply inset_spec.
Qed.

Lemma shadow_spawns_inside_cube_witness :
  let g' := Game._spawnShadowSnake (H := flatPlatform) (mkVec3 50 0 60) (mkVec3 (-1) 0 0)
                                   startedGame in
  (SHADOW_SPAWN_DELAY <= nextNow startedGame - Game.lastShadowSpawnTime startedGame)%Q
  ∧ ∃ shadow,
      Game.shadowSnakes g' = Game.shadowSnakes startedGame ++ [shadow]
      ∧ Snake.isPlayer shadow = false
      ∧ let p := positionOf (Game.world g') (Snake.head shadow) in
        p = mkVec3 (Game.inset 50) (Game.inset 0) (Game.inset 60)
        ∧ (Qabs (vx p) < CUBE_HALF_SIZE)%Q
        ∧ (Qabs (vy p) < CUBE_HALF_SIZE)%Q
        ∧ (Qabs (vz p) < CUBE_HALF_SIZE)%Q
        ∧ ((CUBE_HALF_SIZE <= Qabs 50)%Q → (Qabs (vx p) == CUBE_HALF_SIZE - 2)%Q).
Proof.
  intros g'.
  assert (SHADOW_SPAWN_DELAY <= nextNow startedGame - Game.lastShadowSpawnTime startedGame)%Q
    as H1 by (vm_compute; discriminate).
  split; [exact H1|].
  exact (shadow_spawns_inside_cube (H := flatPlatform) (mkVec3 50 0 60) (mkVec3 (-1) 0 0)
           startedGame H1).
Defined.

(** ** Steering and moving a snake *)

Lemma objects_setRotation_is_Some o r w o' :
  is_Some (objects (setRotation o r w) !! o') ↔ is_Some (objects w !! o').
Proof.
  unfold setRotation, withObjects. cbn [objects]. rewrite lookup_alter.
  case_decide; [subst|done]. by rewrite fmap_is_Some.
Qed.

Lemma rotationOf_setRotation_same o r w :
  is_Some (objects w !! o) → rotationOf (setRotation o r w) o = r.
Proof. intros [ob Hob]. by rewrite rotationOf_setRotation, decide_True, Hob. Qed.

Lemma positionOf_setPosition_same o p w :
  is_Some (objects w !! o) → positionOf (setPosition o p w) o = p.
Proof. intros [ob Hob]. by rewrite positionOf_setPosition, decide_True, Hob. Qed.

(** X17: [rotate] cannot tip the head over.  Given that [Math.PI]
    is not negative, the pitch of the head after [rotate] lies between
    -PI/2 and PI/2 and is the old pitch plus [rotationX] when that sum
    lies in the range; the yaw is the old yaw plus [rotationY], without
    bound; the roll and every position stay. *)
Theorem rotate_clamps_pitch `{Platform} (rotationY rotationX : Q) (s : Snake.t) (w : World)
        (ob : Object3D) :
  (0 <= Math_PI)%Q →
  objects w !! Snake.head s = Some ob →
  let w' := Snake.rotate rotationY rotationX s w in
  let r' := rotationOf w' (Snake.head s) in
  (- Math_PI / 2 <= vx r' <= Math_PI / 2)%Q
  ∧ ((- Math_PI / 2 <= vx (rotation ob) + rotationX <= Math_PI / 2)%Q →
     (vx r' == vx (rotation ob) + rotationX)%Q)
  ∧ vy r' = (vy (rotation ob) + rotationY)%Q
  ∧ vz r' = vz (rotation ob)
  ∧ ∀ o, positionOf w' o = positionOf w o.
Proof.
  intros Hpi Hob w' r'.
  assert (rotationOf w (Snake.head s) = rotation ob) as Hr
    by (unfold rotationOf; by rewrite Hob).
  assert (is_Some (objects w !! Snake.head s)) as H0 by eauto.
  unfold r', w', Snake.rotate. rewrite Hr.
  set (w1 := setRotation (Snake.head s) _ w).
  assert (is_Some (objects w1 !! Snake.head s)) as H1
    by (by apply objects_setRotation_is_Some).
  assert (rotationOf w1 (Snake.head s)
          = mkVec3 (vx (rotation ob)) (vy (rotation ob) + rotationY) (vz (rotation ob))) as ->
    by (by apply rotationOf_setRotation_same).
  cbn [vx vy vz].
  set (w2 := setRotation (Snake.head s) _ w1).
  assert (is_Some (objects w2 !! Snake.head s)) as H2
    by (by apply objects_setRotation_is_Some).
  assert (rotationOf w2 (Snake.head s)
          = mkVec3 (vx (rotation ob) + rotationX) (vy (rotation ob) + rotationY)
                   (vz (rotation ob))) as ->
    by (by apply rotationOf_setRotation_same).
  cbn [vx vy vz].
  rewrite rotationOf_setRotation_same by done. cbn [vx vy vz].
  set (x := (vx (rotation ob) + rotationX)%Q).
  destruct (Math_min_spec (Math_PI / 2) x) as (N1 & N2 & N3).
  destruct (Math_max_spec (- Math_PI / 2) (Math_min (Math_PI / 2) x)) as (M1 & M2 & M3).
  set (N := Math_min (Math_PI / 2) x) in *. set (M := Math_max (- Math_PI / 2) N) in *.
  assert (N == Math_PI / 2 ∨ N == x)%Q as N4
    by (destruct N3 as [-> | ->]; [left|right]; reflexivity).
  assert (M == - Math_PI / 2 ∨ M == N)%Q as M4
    by (destruct M3 as [-> | ->]; [left|right]; reflexivity).
  clearbody M N. clear N3 M3.
  assert (- Math_PI / 2 <= Math_PI / 2)%Q as Hrange.
  { assert (- Math_PI / 2 == - (Math_PI / 2))%Q as -> by field.
    assert (0 <= Math_PI / 2)%Q by (apply Qle_shift_div_l; lra). lra. }
  split_and!; [destruct N4, M4; lra|destruct N4, M4; lra|
               intros [Hlo Hhi]; destruct N4, M4; lra|done|done|].
  intros o. unfold w2, w1. by rewrite !positionOf_setRotation.
Qed.

Lemma rotate_clamps_pitch_witness :
  let s := default sampleShadow (Game.playerSnake startedGame) in
  let w := Game.world startedGame in
  let ob := mkObject3D (positionOf w (Snake.head s)) (rotationOf w (Snake.head s))
                       true NoMaterial in
  let w' := Snake.rotate (H := flatPlatform) 1 5 s w in
  (0 <= Math_PI (Platform := flatPlatform))%Q
  ∧ objects w !! Snake.head s = Some ob
  ∧ (- (355 # 113) / 2 <= vx (rotationOf w' (Snake.head s)) <= (355 # 113) / 2)%Q
  ∧ (vx (rotationOf w' (Snake.head s)) == (355 # 113) / 2)%Q.
Proof.
  intros s w ob w'.
  assert (0 <= Math_PI (Platform := flatPlatform))%Q as H1 by discriminate.
  assert (objects w !! Snake.head s = Some ob) as H2 by (vm_compute; reflexivity).
  split; [exact H1|]. split; [exact H2|].
  split; [|vm_compute; reflexivity].
  exact (proj1 (rotate_clamps_pitch (H := flatPlatform) 1 5 s w ob H1 H2)).
Defined.

Lemma sameBoard_refl w : sameBoard w w.
Proof. by split. Qed.

Lemma sameBoard_trans w1 w2 w3 : sameBoard w1 w2 → sameBoard w2 w3 → sameBoard w1 w3.
Proof.
  intros [G1 N1 S1 F1 O1] [G2 N2 S2 F2 O2]. split; try congruence.
  intros o. by rewrite O2.
Qed.

Lemma sameBoard_setPosition o p w : sameBoard w (setPosition o p w).
Proof. split; try done. intros o'. apply objects_setPosition_is_Some. Qed.

Lemma sameBoard_setRotation o r w : sameBoard w (setRotation o r w).
Proof. split; try done. intros o'. apply objects_setRotation_is_Some. Qed.

Lemma sameBoard_random w : sameBoard w (Math_random w).2.
Proof. by split. Qed.

Lemma sameBoard_now w : sameBoard w (performance_now w).2.
Proof. by split. Qed.

Lemma seekNibbles_steers `{Platform} (s : Snake.t) (w : World) :
  sameBody s (Snake._seekNibbles s w).1
  ∧ sameBoard w (Snake._seekNibbles s w).2
  ∧ ∀ o, positionOf (Snake._seekNibbles s w).2 o = positionOf w o.
Proof.
  unfold Snake._seekNibbles.
  destruct (negb _ || _); [split_and!; [done|apply sameBoard_refl|done]|].
  destruct (Snake.closest _ _ _) as [[closestNibble closestDistance]|].
  - destruct (Qltb _ _).
    + cbn [Math_random fst snd]. split_and!; [done| |].
      * eapply sameBoard_trans; [|apply sameBoard_setRotation]. by split.
      * intros o. by rewrite positionOf_setRotation.
    + split_and!; [done|apply sameBoard_refl|done].
  - cbn [performance_now fst snd]. split_and!; [done| |].
    + eapply sameBoard_trans; [|apply sameBoard_setRotation]. by split.
    + intros o. by rewrite positionOf_setRotation.
Qed.

Lemma avoidWalls_steers `{Platform} (s : Snake.t) (w : World) :
  sameBoard w (Snake._avoidWalls s w)
  ∧ (∀ o, o ≠ Snake.head s → positionOf (Snake._avoidWalls s w) o = positionOf w o)
  ∧ let p := positionOf (Snake._avoidWalls s w) (Snake.head s) in
    (Qabs (vx p) <= CUBE_HALF_SIZE - SEGMENT_RADIUS)%Q
    ∧ (Qabs (vy p) <= CUBE_HALF_SIZE - SEGMENT_RADIUS)%Q
    ∧ (Qabs (vz p) <= CUBE_HALF_SIZE - SEGMENT_RADIUS)%Q.
Proof.
  assert (∀ x, (Qabs (Snake.clampToCube x) <= CUBE_HALF_SIZE - SEGMENT_RADIUS)%Q) as Hclamp.
  { intros x. apply Qabs_Qle_condition. apply clampToCube_spec. }
  assert (Qabs 0 <= CUBE_HALF_SIZE - SEGMENT_RADIUS)%Q as Hzero by discriminate.
  assert (CUBE_HALF_SIZE - WALL_BUFFER <= CUBE_HALF_SIZE - SEGMENT_RADIUS)%Q as Hband
    by discriminate.
  unfold Snake._avoidWalls.
  destruct (_ || _ || _) eqn:E; cbn [negb].
  - split; [|split].
    + eapply sameBoard_trans; [apply sameBoard_setPosition|apply sameBoard_setRotation].
    + intros o Hne. rewrite positionOf_setRotation, positionOf_setPosition.
      by rewrite decide_False.
    + cbv zeta. rewrite positionOf_setRotation, positionOf_setPosition, decide_True by done.
      destruct (objects w !! Snake.head s); cbn [vx vy vz origin]; split_and!; auto.
  - split; [apply sameBoard_refl|]. split; [done|].
    cbv zeta. set (p := positionOf w (Snake.head s)) in *.
    apply not_true_iff_false in E.
    assert (¬ exceedsSafeBoundary p) as Hin by (intros Hex; by apply E, needsTurn_exceeds).
    unfold exceedsSafeBoundary in Hin.
    split_and!; (apply Qnot_lt_le; intros Hlt; apply Hin; try (left; lra);
                 try (right; left; lra); try (right; right; lra)).
Qed.

Lemma aiBehavior_steers `{Platform} (s : Snake.t) (w : World) :
  sameBody s (Snake.aiBehavior s w).1
  ∧ sameBoard w (Snake.aiBehavior s w).2
  ∧ (∀ o, o ≠ Snake.head s → positionOf (Snake.aiBehavior s w).2 o = positionOf w o)
  ∧ (Snake.isPlayer s = true → Snake.aiBehavior s w = (s, w))
  ∧ (Snake.isPlayer s = false →
     let p := positionOf (Snake.aiBehavior s w).2 (Snake.head s) in
     (Qabs (vx p) <= CUBE_HALF_SIZE - SEGMENT_RADIUS)%Q
     ∧ (Qabs (vy p) <= CUBE_HALF_SIZE - SEGMENT_RADIUS)%Q
     ∧ (Qabs (vz p) <= CUBE_HALF_SIZE - SEGMENT_RADIUS)%Q).
Proof.
  unfold Snake.aiBehavior. destruct (Snake.isPlayer s) eqn:Hp; cbn [negb fst snd].
  { split; [done|]. split; [apply sameBoard_refl|]. split; [done|]. split; done. }
  assert (∃ s1 w1, (if negb (Snake.isInitialReflectionPhase s)
                    then Snake._seekNibbles s w else (s, w)) = (s1, w1)
                   ∧ sameBody s s1 ∧ sameBoard w w1
                   ∧ ∀ o, positionOf w1 o = positionOf w o) as (s1 & w1 & -> & Hb & Hw & Hpos).
  { destruct (negb _).
    - destruct (seekNibbles_steers s w) as (Hb & Hw & Hpos).
      destruct (Snake._seekNibbles s w) as [s1 w1]. by exists s1, w1.
    - exists s, w. split_and!; [done|done|apply sameBoard_refl|done]. }
  cbn [fst snd].
  destruct (avoidWalls_steers s1 w1) as (Hw' & Hpos' & Hin).
  destruct Hb as (Hh & Hrest). rewrite Hh in *.
  split; [by split|]. split; [by eapply sameBoard_trans|]. split; [|split; [done|by intros _]].
  intros o Hne. by rewrite Hpos', Hpos.
Qed.

Lemma placeSegment_steers `{Platform} (s : Snake.t) (time : Q) (w : World) (i : nat)
      (segment : Obj) :
  (∀ o, o ≠ segment →
        positionOf (Snake.placeSegment s time w i segment) o = positionOf w o)
  ∧ (∀ o, rotationOf (Snake.placeSegment s time w i segment) o = rotationOf w o)
  ∧ nibbles (Snake.placeSegment s time w i segment) = nibbles w
  ∧ settings (Snake.placeSegment s time w i segment) = settings w
  ∧ (Snake.isPlayer s = false →
     spatialGrid (Snake.placeSegment s time w i segment) = spatialGrid w).
Proof.
  unfold Snake.placeSegment. set (p := mkVec3 _ _ _). clearbody p.
  destruct (Snake.isPlayer s).
  - split_and!; [| | | |done].
    + intros o Hne. by rewrite positionOf_updateObject, positionOf_setPosition, decide_False.
    + intros o. unfold rotationOf. rewrite objects_updateObject.
      apply rotationOf_setPosition.
    + by rewrite nibbles_updateObject.
    + by rewrite settings_updateObject.
  - split_and!; [| |done..].
    + intros o Hne. by rewrite positionOf_setPosition, decide_False.
    + intros o. apply rotationOf_setPosition.
Qed.

Lemma placeSegments_steers `{Platform} (s : Snake.t) (time : Q) (l : list (nat * Obj))
      (w : World) :
  let w' := foldl (λ w '(i, segment), Snake.placeSegment s time w i segment) w l in
  (∀ o, o ∉ l.*2 → positionOf w' o = positionOf w o)
  ∧ (∀ o, rotationOf w' o = rotationOf w o)
  ∧ nibbles w' = nibbles w
  ∧ settings w' = settings w
  ∧ (Snake.isPlayer s = false → spatialGrid w' = spatialGrid w).
Proof.
  cbv zeta.
  apply (foldl_invariant (λ w', (∀ o, o ∉ l.*2 → positionOf w' o = positionOf w o)
                                ∧ (∀ o, rotationOf w' o = rotationOf w o)
                                ∧ nibbles w' = nibbles w
                                ∧ settings w' = settings w
                                ∧ (Snake.isPlayer s = false →
                                   spatialGrid w' = spatialGrid w))).
  - done.
  - intros w' [i segment] Hin (P & R & N & S & G).
    destruct (placeSegment_steers s time w' i segment) as (P' & R' & N' & S' & G').
    split_and!.
    + intros o Ho. rewrite P', P; [done|done|]. intros ->. apply Ho.
      apply list_elem_of_fmap. by exists (i, segment).
    + intros o. by rewrite R', R.
    + congruence.
    + congruence.
    + intros Hp. by rewrite G', G.
Qed.

Lemma pushTrail_length (trailLength : nat) (p : Vec3) (trail : list Vec3) :
  length (Snake.pushTrail trailLength p trail)
  = if Nat.ltb (length trail) trailLength then S (length trail) else length trail.
Proof.
  unfold Snake.pushTrail. cbn [length].
  destruct (Nat.ltb_spec trailLength (S (length trail))) as [H1|H1],
           (Nat.ltb_spec (length trail) trailLength) as [H2|H2]; try lia.
  - rewrite removelast_firstn_len. cbn [length Nat.pred].
    rewrite length_take. cbn [length]. lia.
  - done.
Qed.

(** [update], unfolded after the AI block. *)
Lemma update_unfold `{Platform} (delta : Q) (s : Snake.t) (w : World) :
  ∃ s1 w1,
    let s0 := Snake.withDirection (getWorldDirection (rotationOf w (Snake.head s))) s in
    let w0 := setPosition (Snake.head s)
                (vadd (positionOf w (Snake.head s))
                      (multiplyScalar (Snake.direction s0) (Snake.speed s * delta * 60))) w in
    Snake.aiBehavior s0 w0 = (s1, w1)
    ∧ let time := (clock w1 (clockIx w1) * (1 # 1000))%Q in
      let wiggle := (Math_sin (time * 5 + Snake.colorOffset s1) * (5 # 10))%Q in
      let pos := positionOf w1 (Snake.head s1) in
      let w3 := setPosition (Snake.head s1)
                  (mkVec3 (vx pos) (vy pos + wiggle * (1 # 10)) (vz pos))
                  (performance_now w1).2 in
      let s2 := Snake.withTrail
                  (Snake.pushTrail (Settings.trailLength (settings w3))
                                   (positionOf w3 (Snake.head s1)) (Snake.trail s1)) s1 in
      let w4 := foldl (λ w '(i, segment), Snake.placeSegment s2 time w i segment) w3
                      (imap (λ i segment, (i, segment)) (Snake.segments s2)) in
      Snake.update delta s w
      = (s2, if Snake.isPlayer s2
             then CollisionSystem.updateObject (Snake.head s2) (positionOf w4 (Snake.head s2)) w4
             else w4).
Proof.
  unfold Snake.update.
  destruct (Snake.aiBehavior _ _) as [s1 w1]. exists s1, w1. split; reflexivity.
Qed.

(** X18: [update] lengthens the trail by one sample while it is
    shorter than the setting [trailLength] and keeps its length from
    then on; a trail that is longer than the setting (the setting
    having been lowered) keeps its length too, it is never cut down to
    the setting. *)
Theorem update_trail_length `{Platform} (delta : Q) (s : Snake.t) (w : World) :
  length (Snake.trail (Snake.update delta s w).1)
  = if Nat.ltb (length (Snake.trail s)) (Settings.trailLength (settings w))
    then S (length (Snake.trail s))
    else length (Snake.trail s).
Proof.
  destruct (update_unfold delta s w) as (s1 & w1 & Hai & ->). cbv zeta in Hai.
  cbn [fst Snake.trail Snake.withTrail].
  match type of Hai with Snake.aiBehavior ?s0 ?w0 = _ =>
    destruct (aiBehavior_steers s0 w0) as ((_ & _ & Ht & _) & [_ _ Hs _ _] & _) end.
  rewrite Hai in Ht, Hs. cbn [fst snd] in Ht, Hs.
  rewrite pushTrail_length, Ht. cbn [Snake.trail Snake.withDirection].
  change (settings (setPosition _ _ (performance_now w1).2)) with (settings w1).
  rewrite Hs. done.
Qed.

(** X19: [update] of a snake that is not the player never writes to
    the spatial grid: after it the grid, and so every query result, is
    what it was, wherever the head and the segments have moved; the
    nibble array is what it was too. *)
Theorem shadow_update_leaves_grid `{Platform} (delta : Q) (s : Snake.t) (w : World) :
  Snake.isPlayer s = false →
  let w' := (Snake.update delta s w).2 in
  spatialGrid w' = spatialGrid w
  ∧ nibbles w' = nibbles w
  ∧ ∀ position radius,
      SpatialGrid.getNearby (spatialGrid w') position radius
      = SpatialGrid.getNearby (spatialGrid w) position radius.
Proof.
  intros Hp.
  destruct (update_unfold delta s w) as (s1 & w1 & Hai & ->). cbv zeta in Hai.
  match type of Hai with Snake.aiBehavior ?s0 ?w0 = _ =>
    destruct (aiBehavior_steers s0 w0) as ((_ & _ & _ & Hp1 & _) & [Hg Hn _ _ _] & _) end.
  rewrite Hai in Hp1, Hg, Hn. cbn [fst snd Snake.isPlayer Snake.withDirection] in Hp1, Hg, Hn.
  cbn [snd Snake.isPlayer Snake.withTrail]. rewrite Hp1, Hp.
  match goal with |- context [foldl ?f ?w3 ?l] =>
    set (w4 := foldl f w3 l) end.
  assert (spatialGrid w4 = spatialGrid w ∧ nibbles w4 = nibbles w) as [Hg4 Hn4].
  { unfold w4.
    match goal with |- context [foldl (λ w '(i, segment), Snake.placeSegment ?s2 ?time w i segment) ?w3 ?l] =>
      destruct (placeSegments_steers s2 time l w3) as (_ & _ & N & _ & G) end.
    cbv zeta in N, G. rewrite N, G; [done|].
    cbn [Snake.isPlayer Snake.withTrail]. congruence. }
  rewrite Hg4, Hn4. done.
Qed.

Lemma shadow_update_leaves_grid_witness :
  let s := sampleShadow in
  let w := Game.world spawnedGame in
  let w' := (Snake.update (H := flatPlatform) 1 s w).2 in
  Snake.isPlayer s = false
  ∧ ¬ veq (positionOf w' (Snake.head s)) (positionOf w (Snake.head s))
  ∧ spatialGrid w' = spatialGrid w.
Proof.
  intros s w w'.
  assert (Snake.isPlayer s = false) as H1 by reflexivity.
  split; [exact H1|]. split.
  - intros (_ & _ & Hz). apply Qeq_bool_iff in Hz. vm_compute in Hz. discriminate.
  - exact (proj1 (shadow_update_leaves_grid (H := flatPlatform) 1 s w H1)).
Defined.

(** X20: [update] keeps the head of a snake that is not the player
    inside the cube.  Whatever the step, after [update] the x and z
    coordinates of the head are within CUBE_HALF_SIZE - SEGMENT_RADIUS
    of the centre, and the y coordinate within that plus the 0.05 of
    the slither, [Math.sin] lying between -1 and 1 (the head not being
    one of the segments). *)
Theorem shadow_head_stays_inside `{Platform} (delta : Q) (s : Snake.t) (w : World) :
  Snake.isPlayer s = false →
  Snake.head s ∉ Snake.segments s →
  (∀ x, (-1 <= Math_sin x <= 1)%Q) →
  let p := positionOf (Snake.update delta s w).2 (Snake.head s) in
  (Qabs (vx p) <= CUBE_HALF_SIZE - SEGMENT_RADIUS)%Q
  ∧ (Qabs (vy p) <= CUBE_HALF_SIZE - SEGMENT_RADIUS + (5 # 100))%Q
  ∧ (Qabs (vz p) <= CUBE_HALF_SIZE - SEGMENT_RADIUS)%Q
  ∧ (Qabs (vy p) < CUBE_HALF_SIZE)%Q.
Proof.
  intros Hp Hhead Hsin.
  destruct (update_unfold delta s w) as (s1 & w1 & Hai & ->). cbv zeta in Hai.
  match type of Hai with Snake.aiBehavior ?s0 ?w0 = _ =>
    destruct (aiBehavior_steers s0 w0) as ((Hh & Hseg & _ & Hp1 & _) & _ & _ & _ & Hin) end.
  rewrite Hai in Hh, Hseg, Hp1, Hin.
  cbn [fst snd Snake.isPlayer Snake.head Snake.segments Snake.withDirection] in Hh, Hseg, Hp1, Hin.
  specialize (Hin Hp). cbv zeta in Hin.
  cbn [snd Snake.isPlayer Snake.withTrail Snake.head Snake.segments]. rewrite Hp1, Hp, Hh.
  cbv zeta.
  match goal with |- context [foldl (λ w '(i, segment), Snake.placeSegment ?s2 ?time w i segment) ?w3 ?l] =>
    destruct (placeSegments_steers s2 time l w3) as (P & _) end.
  cbv zeta in P. rewrite P.
  2:{ rewrite (imap_pair_snd _ id), Hseg. done. }
  set (wiggle := (Math_sin _ * (5 # 10))%Q).
  assert (- (5 # 10) <= wiggle <= 5 # 10)%Q as Hw.
  { unfold wiggle. match goal with |- context [Math_sin ?x] => specialize (Hsin x) end. lra. }
  clearbody wiggle.
  set (w2 := (performance_now w1).2).
  assert (positionOf w2 (Snake.head s) = positionOf w1 (Snake.head s)) as Hpos by done.
  rewrite positionOf_setPosition, decide_True by done.
  assert (CUBE_HALF_SIZE - SEGMENT_RADIUS + (5 # 100) < CUBE_HALF_SIZE)%Q as Hroom
    by reflexivity.
  assert (0 <= CUBE_HALF_SIZE - SEGMENT_RADIUS)%Q as Hpos0 by discriminate.
  revert Hin Hroom Hpos0. generalize (CUBE_HALF_SIZE - SEGMENT_RADIUS)%Q. intros b Hin Hroom Hb.
  destruct Hin as (Hx & Hy & Hz).
  apply Qabs_Qle_condition in Hx, Hy, Hz.
  destruct (objects w2 !! Snake.head s); cbn [vx vy vz origin].
  - split_and!; try apply Qabs_Qle_condition; try apply Qabs_Qlt_condition; lra.
  - change (Qabs 0) with 0%Q. split_and!; lra.
Qed.

Lemma shadow_head_stays_inside_witness :
  let s := sampleShadow in
  let w := Game.world spawnedGame in
  let p := positionOf (Snake.update (H := flatPlatform) 10 s w).2 (Snake.head s) in
  Snake.isPlayer s = false
  ∧ (Snake.head s ∉ Snake.segments s)
  ∧ (∀ x, (-1 <= Math_sin (Platform := flatPlatform) x <= 1)%Q)
  ∧ (Qabs (vx p) <= CUBE_HALF_SIZE - SEGMENT_RADIUS)%Q
  ∧ (Qabs (vy p) <= CUBE_HALF_SIZE - SEGMENT_RADIUS + (5 # 100))%Q
  ∧ (Qabs (vz p) <= CUBE_HALF_SIZE - SEGMENT_RADIUS)%Q
  ∧ (Qabs (vy p) < CUBE_HALF_SIZE)%Q.
Proof.
  intros s w p.
  assert (Snake.isPlayer s = false) as H1 by reflexivity.
  assert (Snake.head s ∉ Snake.segments s) as H2
    by (apply (bool_decide_unpack _); vm_compute; reflexivity).
  assert (∀ x, (-1 <= Math_sin (Platform := flatPlatform) x <= 1)%Q) as H3
    by (intros x; split; discriminate).
  split; [exact H1|]. split; [exact H2|]. split; [exact H3|].
  exact (shadow_head_stays_inside (H := flatPlatform) 10 s w H1 H2 H3).
Defined.

Lemma rotationOf_updateObject o p w o' :
  rotationOf (CollisionSystem.updateObject o p w) o' = rotationOf w o'.
Proof. unfold rotationOf. by rewrite objects_updateObject. Qed.

(** X21: [update] moves the head of the player by speed * delta * 60
    along the direction the head faces when the call begins, and adds
    the slither to its height; the direction of the snake is set to
    that direction, and the rotation of the head stays. *)
Theorem player_update_moves_head `{Platform} (delta : Q) (s : Snake.t) (w : World)
        (ob : Object3D) :
  Snake.isPlayer s = true →
  Snake.head s ∉ Snake.segments s →
  objects w !! Snake.head s = Some ob →
  let s' := (Snake.update delta s w).1 in
  let w' := (Snake.update delta s w).2 in
  let d := getWorldDirection (rotation ob) in
  let m := (Snake.speed s * delta * 60)%Q in
  let time := (clock w (clockIx w) * (1 # 1000))%Q in
  Snake.direction s' = d
  ∧ positionOf w' (Snake.head s)
    = mkVec3 (vx (position ob) + vx d * m)
             (vy (position ob) + vy d * m
              + Math_sin (time * 5 + Snake.colorOffset s) * (5 # 10) * (1 # 10))
             (vz (position ob) + vz d * m)
  ∧ rotationOf w' (Snake.head s) = rotation ob.
Proof.
  intros Hp Hhead Hob.
  assert (rotationOf w (Snake.head s) = rotation ob) as Hr
    by (unfold rotationOf; by rewrite Hob).
  assert (positionOf w (Snake.head s) = position ob) as Hpos
    by (unfold positionOf; by rewrite Hob).
  destruct (update_unfold delta s w) as (s1 & w1 & Hai & ->). cbv zeta in Hai.
  rewrite Hr, Hpos in Hai. cbn [Snake.direction Snake.withDirection] in Hai.
  set (d := getWorldDirection (rotation ob)) in *.
  set (w0 := setPosition (Snake.head s)
               (vadd (position ob) (multiplyScalar d (Snake.speed s * delta * 60))) w) in *.
  destruct (aiBehavior_steers (Snake.withDirection d s) w0) as (_ & _ & _ & Hid & _).
  rewrite Hid in Hai by done. injection Hai as <- <-.
  assert (is_Some (objects w0 !! Snake.head s)) as H0
    by (apply objects_setPosition_is_Some; eauto).
  assert (positionOf w0 (Snake.head s)
          = vadd (position ob) (multiplyScalar d (Snake.speed s * delta * 60))) as Hp0
    by (apply positionOf_setPosition_same; eauto).
  assert (rotationOf w0 (Snake.head s) = rotation ob) as Hr0
    by (unfold w0; by rewrite rotationOf_setPosition).
  assert (clock w0 (clockIx w0) = clock w (clockIx w)) as Hclock by done.
  clearbody w0.
  cbn [fst snd Snake.isPlayer Snake.withTrail Snake.withDirection Snake.head Snake.segments
       Snake.direction Snake.colorOffset Snake.speed].
  rewrite Hp. cbv zeta. split; [done|].
  match goal with |- context [foldl (λ w '(i, segment), Snake.placeSegment ?s2 ?time w i segment) ?w3 ?l] =>
    destruct (placeSegments_steers s2 time l w3) as (P & R & _) end.
  cbv zeta in P, R.
  rewrite positionOf_updateObject, rotationOf_updateObject.
  rewrite P, R.
  2:{ rewrite (imap_pair_snd _ id). done. }
  set (w2 := (performance_now w0).2).
  assert (is_Some (objects w2 !! Snake.head s)) as H2 by exact H0.
  rewrite positionOf_setPosition_same by done.
  rewrite rotationOf_setPosition.
  change (rotationOf w2 (Snake.head s)) with (rotationOf w0 (Snake.head s)).
  rewrite Hr0, Hp0, Hclock. done.
Qed.

Lemma player_update_moves_head_witness :
  let s := default sampleShadow (Game.playerSnake startedGame) in
  let w := Game.world startedGame in
  let ob := mkObject3D (positionOf w (Snake.head s)) (rotationOf w (Snake.head s))
                       true NoMaterial in
  Snake.isPlayer s = true
  ∧ (Snake.head s ∉ Snake.segments s)
  ∧ objects w !! Snake.head s = Some ob
  ∧ veq (positionOf (Snake.update (H := flatPlatform) 1 s w).2 (Snake.head s))
        (mkVec3 0 0 18)
  ∧ Snake.direction (Snake.update (H := flatPlatform) 1 s w).1 = mkVec3 0 0 1.
Proof.
  intros s w ob.
  assert (Snake.isPlayer s = true) as H1 by reflexivity.
  assert (Snake.head s ∉ Snake.segments s) as H2
    by (apply (bool_decide_unpack _); vm_compute; reflexivity).
  assert (objects w !! Snake.head s = Some ob) as H3 by (vm_compute; reflexivity).
  split; [exact H1|]. split; [exact H2|]. split; [exact H3|].
  split; [vm_compute; split_and!; reflexivity|].
  exact (proj1 (player_update_moves_head (H := flatPlatform) 1 s w ob H1 H2 H3)).
Defined.

(** ** The vector pool *)

Lemma release_pool (vector : Obj) (p : Vector3Pool.t) :
  Vector3Pool.pool (Vector3Pool.release vector p)
  = if Nat.ltb (length (Vector3Pool.pool p)) Vector3Pool.maxPoolSize
    then Vector3Pool.pool p ++ [vector] else Vector3Pool.pool p.
Proof. unfold Vector3Pool.release. by destruct (Nat.ltb _ _). Qed.

Lemma releaseMultiple_snoc (vectors : list Obj) (vector : Obj) (p : Vector3Pool.t) :
  Vector3Pool.releaseMultiple (vectors ++ [vector]) p
  = Vector3Pool.release vector (Vector3Pool.releaseMultiple vectors p).
Proof. unfold Vector3Pool.releaseMultiple. by rewrite foldl_app. Qed.

Lemma releaseMultiple_length (vectors : list Obj) (p : Vector3Pool.t) :
  length (Vector3Pool.pool p) ≤ Vector3Pool.maxPoolSize →
  length (Vector3Pool.pool (Vector3Pool.releaseMultiple vectors p))
  = Nat.min (length (Vector3Pool.pool p) + length vectors) Vector3Pool.maxPoolSize.
Proof.
  intros Hp. induction vectors as [|vector vectors IH] using rev_ind.
  - cbn. lia.
  - rewrite releaseMultiple_snoc, release_pool, length_app. cbn [length].
    destruct (Nat.ltb_spec (length (Vector3Pool.pool (Vector3Pool.releaseMultiple vectors p)))
                           Vector3Pool.maxPoolSize) as [Hlt|Hge].
    + rewrite length_app. cbn [length]. lia.
    + lia.
Qed.

(** X22: the pool never grows beyond maxPoolSize.  Releasing
    vectors into a pool adds them to it up to the capacity of 100 and
    no further; a release into a full pool changes nothing, not even
    the released vector, and [get] and [clear] only shrink the pool. *)
Theorem pool_never_exceeds_capacity (vectors : list Obj) (p : Vector3Pool.t) :
  length (Vector3Pool.pool p) ≤ Vector3Pool.maxPoolSize →
  length (Vector3Pool.pool (Vector3Pool.releaseMultiple vectors p))
  = Nat.min (length (Vector3Pool.pool p) + length vectors) Vector3Pool.maxPoolSize
  ∧ (∀ vector, length (Vector3Pool.pool p) = Vector3Pool.maxPoolSize →
               Vector3Pool.release vector p = p)
  ∧ length (Vector3Pool.pool (Vector3Pool.get p).2) = length (Vector3Pool.pool p) - 1
  ∧ length (Vector3Pool.pool (Vector3Pool.clear p)) = 0.
Proof.
  intros Hp. split; [by apply releaseMultiple_length|]. split; [|split; [|done]].
  - intros vector Hfull. unfold Vector3Pool.release. rewrite Hfull. done.
  - unfold Vector3Pool.get.
    destruct (Vector3Pool.pool p) as [|v l] eqn:E using rev_ind; [done|].
    rewrite last_snoc. cbn [snd Vector3Pool.pool].
    rewrite removelast_last, length_app. cbn [length]. lia.
Qed.

Lemma pool_never_exceeds_capacity_witness :
  let p := Vector3Pool.mk ∅ 1 (replicate 98 2%positive) in
  length (Vector3Pool.pool p) ≤ Vector3Pool.maxPoolSize
  ∧ length (Vector3Pool.pool (Vector3Pool.releaseMultiple [5; 6; 7; 8]%positive p)) = 100%nat.
Proof.
  intros p.
  assert (length (Vector3Pool.pool p) ≤ Vector3Pool.maxPoolSize) as H1
    by (vm_compute; lia).
  split; [exact H1|].
  exact (proj1 (pool_never_exceeds_capacity [5; 6; 7; 8]%positive p H1)).
Defined.

Lemma getMultiple_acc (count k : nat) (acc : list Obj) (p : Vector3Pool.t) :
  foldl (λ '(vectors, p) _, let '(vector, p) := Vector3Pool.get p in (vectors ++ [vector], p))
        (acc, p) (seq k count)
  = (acc ++ (Vector3Pool.getMultiple count p).1, (Vector3Pool.getMultiple count p).2).
Proof.
  unfold Vector3Pool.getMultiple.
  revert k acc p. induction count as [|count IH]; intros k acc p.
  - cbn. by rewrite app_nil_r.
  - cbn [seq foldl]. destruct (Vector3Pool.get p) as [vector p1].
    rewrite (IH (S k) (acc ++ [vector]) p1), (IH 1 ([] ++ [vector]) p1).
    cbn [fst snd]. by rewrite <- !app_assoc.
Qed.

Lemma getMultiple_S (count : nat) (p : Vector3Pool.t) :
  Vector3Pool.getMultiple (S count) p
  = ((Vector3Pool.get p).1 :: (Vector3Pool.getMultiple count (Vector3Pool.get p).2).1,
     (Vector3Pool.getMultiple count (Vector3Pool.get p).2).2).
Proof.
  unfold Vector3Pool.getMultiple at 1. cbn [seq foldl].
  destruct (Vector3Pool.get p) as [vector p1]. cbn [fst snd].
  by rewrite (getMultiple_acc count 1 ([] ++ [vector]) p1).
Qed.

Lemma releaseMultiple_spec (vectors : list Obj) (p : Vector3Pool.t) :
  length (Vector3Pool.pool p) + length vectors ≤ Vector3Pool.maxPoolSize →
  Vector3Pool.pool (Vector3Pool.releaseMultiple vectors p) = Vector3Pool.pool p ++ vectors
  ∧ Vector3Pool.next (Vector3Pool.releaseMultiple vectors p) = Vector3Pool.next p
  ∧ (∀ v, v ∈ vectors →
          Vector3Pool.heap (Vector3Pool.releaseMultiple vectors p) !! v = Some origin)
  ∧ (∀ v, v ∉ vectors →
          Vector3Pool.heap (Vector3Pool.releaseMultiple vectors p) !! v
          = Vector3Pool.heap p !! v).
Proof.
  induction vectors as [|vector vectors IH] using rev_ind; intros Hlen.
  - cbn. rewrite app_nil_r. split_and!; [done|done| |done].
    intros v Hv. by apply elem_of_nil in Hv.
  - rewrite length_app in Hlen. cbn [length] in Hlen.
    destruct IH as (Hpool & Hnext & Hin & Hout); [lia|].
    rewrite releaseMultiple_snoc. unfold Vector3Pool.release.
    assert (length (Vector3Pool.pool (Vector3Pool.releaseMultiple vectors p))
            < Vector3Pool.maxPoolSize) as Hlt by (rewrite Hpool, length_app; lia).
    apply Nat.ltb_lt in Hlt. rewrite Hlt.
    cbn [Vector3Pool.pool Vector3Pool.next Vector3Pool.heap].
    rewrite Hpool, app_assoc. split_and!; [done|done| |].
    + intros v Hv. rewrite lookup_insert. case_decide; [done|].
      apply Hin. apply elem_of_app in Hv as [Hv|Hv]; [done|].
      apply list_elem_of_singleton in Hv. congruence.
    + intros v Hv. apply not_elem_of_app in Hv as [Hv1 Hv2].
      rewrite lookup_insert_ne; [by apply Hout|].
      intros ->. apply Hv2. by apply list_elem_of_singleton.
Qed.

Lemma getMultiple_pops (vectors : list Obj) (heap : gmap Obj Vec3) (next : Obj)
      (pool : list Obj) :
  Vector3Pool.getMultiple (length vectors) (Vector3Pool.mk heap next (pool ++ vectors))
  = (rev vectors, Vector3Pool.mk heap next pool).
Proof.
  induction vectors as [|vector vectors IH] using rev_ind.
  - cbn. by rewrite app_nil_r.
  - rewrite length_app. cbn [length]. rewrite Nat.add_1_r, getMultiple_S.
    unfold Vector3Pool.get. cbn [Vector3Pool.pool].
    rewrite app_assoc, last_snoc, removelast_last. cbn [fst snd].
    cbn [Vector3Pool.heap Vector3Pool.next].
    rewrite IH, rev_unit. done.
Qed.

(** X23: the pool is a stack that does not look at what it is
    given.  After vectors are released into a pool with room for
    them, as many calls of [get] hand the same vectors back, last
    released first, each reset to (0, 0, 0), and leave the pool as it
    was before; a vector released twice is handed out twice. *)
Theorem pool_hands_back_released (vectors : list Obj) (p : Vector3Pool.t) :
  length (Vector3Pool.pool p) + length vectors ≤ Vector3Pool.maxPoolSize →
  let p1 := Vector3Pool.releaseMultiple vectors p in
  (Vector3Pool.getMultiple (length vectors) p1).1 = rev vectors
  ∧ Vector3Pool.pool (Vector3Pool.getMultiple (length vectors) p1).2 = Vector3Pool.pool p
  ∧ Vector3Pool.next (Vector3Pool.getMultiple (length vectors) p1).2 = Vector3Pool.next p
  ∧ ∀ v, v ∈ vectors →
         Vector3Pool.heap (Vector3Pool.getMultiple (length vectors) p1).2 !! v = Some origin.
Proof.
  intros Hlen p1.
  destruct (releaseMultiple_spec vectors p Hlen) as (Hpool & Hnext & Hin & _).
  fold p1 in Hpool, Hnext, Hin.
  assert (p1 = Vector3Pool.mk (Vector3Pool.heap p1) (Vector3Pool.next p)
                              (Vector3Pool.pool p ++ vectors)) as E
    by (destruct p1; cbn in *; congruence).
  rewrite E, getMultiple_pops. cbn [fst snd Vector3Pool.pool Vector3Pool.next Vector3Pool.heap].
  split_and!; try done.
Qed.

Lemma pool_hands_back_released_witness :
  let p := Vector3Pool.mk ∅ 1 [] in
  let vectors := [5; 7; 5]%positive in
  let p1 := Vector3Pool.releaseMultiple vectors p in
  length (Vector3Pool.pool p) + length vectors ≤ Vector3Pool.maxPoolSize
  ∧ (Vector3Pool.getMultiple 3 p1).1 = [5; 7; 5]%positive
  ∧ Vector3Pool.pool (Vector3Pool.getMultiple 3 p1).2 = [].
Proof.
  intros p vectors p1.
  assert (length (Vector3Pool.pool p) + length vectors ≤ Vector3Pool.maxPoolSize) as H1
    by (vm_compute; lia).
  split; [exact H1|].
  split.
  - exact (proj1 (pool_hands_back_released vectors p H1)).
  - exact (proj1 (proj2 (pool_hands_back_released vectors p H1))).
Defined.

(** ** Pausing and restarting *)

Lemma frozen_refl g : frozen g g.
Proof. by repeat split. Qed.

Lemma frozen_trans g1 g2 g3 : frozen g1 g2 → frozen g2 g3 → frozen g1 g3.
Proof. unfold frozen. intros H12 H23. destruct_and!. split_and!; first [congruence|lia]. Qed.

Lemma animate_idle `{Platform} (fuel : nat) (g : Game.t) :
  idle g →
  ∃ g', Game._animate fuel g = Some g' ∧ frozen g g' ∧ idle g'
        ∧ Game.lastTime g' = (nextNow g * (1 # 1000))%Q.
Proof.
  intros Hidle. unfold Game._animate. cbn [performance_now].
  cbn [Game.gameStarted Game.isGameOver Game.isPaused Game.withLastTime Game.withWorld].
  unfold idle in Hidle. rewrite Hidle.
  eexists. split; [reflexivity|]. split; [|split; [exact Hidle|reflexivity]].
  unfold frozen.
  cbn [Game.world Game.withWorld Game.withLastTime Game.playerSnake Game.shadowSnakes
       Game.score Game.isGameOver Game.gameStarted Game.isPaused
       Game.isShadowSnakeInvulnerable Game.timers Game.lastSpawnTime
       Game.lastShadowSpawnTime].
  match goal with |- context [PerformanceMonitor.update ?w0] =>
    destruct (update_scene w0) as (Ho & Hg & Hn & Hr);
    pose proof (update_checks w0) as Hc
  end.
  rewrite Ho, Hg, Hn, Hr. split_and!; first [reflexivity|exact Hc].
Qed.

Lemma frames_idle `{Platform} (fuel n : nat) (g : Game.t) :
  idle g →
  ∃ gs, frames fuel n g = Some gs ∧ length gs = n ∧ Forall (frozen g) gs.
Proof.
  revert g. induction n as [|n IH]; intros g Hidle; cbn [frames].
  - exists []. split_and!; [done|done|constructor].
  - destruct (animate_idle fuel g Hidle) as (g' & -> & Hf & Hidle' & _).
    cbn [mbind option_bind].
    destruct (IH g' Hidle') as (gs & -> & Hlen & Hall).
    cbn [mbind option_bind]. exists (g' :: gs). split_and!; [done|by cbn; rewrite Hlen|].
    constructor; [done|]. eapply Forall_impl; [exact Hall|].
    intros g'' Hf'. by eapply frozen_trans.
Qed.

(** X24: while the game is paused, over or not yet started, the
    animation loop moves nothing.  Any number of frames runs to its
    end, no spawn being attempted, and after each of them the scene,
    the grid, the nibbles, the snakes, the score, the flags, the
    pending timers and the two spawn stamps are what they were; a
    frame records its time in [lastTime] and lets the performance
    monitor update, which counts frames and zeroes the collision
    counter once a second, so that counter does not go up. *)
Theorem idle_frames_change_nothing `{Platform} (fuel n : nat) (g : Game.t) :
  Game.gameStarted g && negb (Game.isGameOver g) && negb (Game.isPaused g) = false →
  (∃ gs, frames fuel n g = Some gs ∧ length gs = n ∧ Forall (frozen g) gs)
  ∧ ∃ g', Game._animate fuel g = Some g'
          ∧ Game.lastTime g' = (nextNow g * (1 # 1000))%Q.
Proof.
  intros Hidle. split; [by apply frames_idle|].
  destruct (animate_idle fuel g Hidle) as (g' & Hg' & _ & _ & Ht). by exists g'.
Qed.

Lemma idle_frames_change_nothing_witness :
  let g := Game._togglePause startedGame in
  Game.gameStarted g && negb (Game.isGameOver g) && negb (Game.isPaused g) = false
  ∧ ∃ gs, frames (H := flatPlatform) 0 3 g = Some gs ∧ length gs = 3%nat
          ∧ Forall (frozen g) gs.
Proof.
  intros g.
  assert (Game.gameStarted g && negb (Game.isGameOver g) && negb (Game.isPaused g) = false)
    as H1 by reflexivity.
  split; [exact H1|].
  exact (proj1 (idle_frames_change_nothing (H := flatPlatform) 0 3 g H1)).
Defined.

(** A paused frame a second or more after the last report of the
    monitor zeroes the collision counter. *)
Example paused_frame_zeroes_counter :
  let g := Game._togglePause
             (Game.withWorld (recordCollisionCheck (Game.world startedGame)) startedGame) in
  collisionChecks (Game.world g) = 1
  ∧ (collisionChecks ∘ Game.world) <$> Game._animate (H := flatPlatform) 0 g = Some 0.
Proof. split; vm_compute; reflexivity. Qed.

Lemma addSegment_fields (initial : bool) (s : Snake.t) (w : World) :
  Snake.isPlayer (Snake.addSegment initial s w).1 = Snake.isPlayer s
  ∧ Snake.speed (Snake.addSegment initial s w).1 = Snake.speed s
  ∧ settings (Snake.addSegment initial s w).2 = settings w.
Proof.
  unfold Snake.addSegment. cbn [alloc]. destruct initial; cbn [fst snd];
    rewrite settings_updateObject; done.
Qed.

Lemma init_effect (s : Snake.t) (w : World) :
  length (Snake.segments (Snake._init s w).1)
  = length (Snake.segments s) + Snake.length s
  ∧ Snake.nibblesEaten (Snake._init s w).1 = Snake.nibblesEaten s
  ∧ Snake.length (Snake._init s w).1 = Snake.length s
  ∧ Snake.isPlayer (Snake._init s w).1 = Snake.isPlayer s
  ∧ Snake.speed (Snake._init s w).1 = Snake.speed s
  ∧ nibbles (Snake._init s w).2 = nibbles w
  ∧ settings (Snake._init s w).2 = settings w.
Proof.
  unfold Snake._init.
  set (w0 := CollisionSystemBase.updateObject _ _ _).
  assert (nibbles w0 = nibbles w ∧ settings w0 = settings w) as [Hn0 Hs0].
  { unfold w0. split.
    - by rewrite (nibbles_updateObject (Snake.head s)).
    - by rewrite (settings_updateObject (Snake.head s)). }
  clearbody w0.
  assert (∀ (l : list nat) (s1 : Snake.t) (w1 : World),
            let r := foldl (λ '(s, w) _, Snake.addSegment true s w) (s1, w1) l in
            length (Snake.segments r.1) = length (Snake.segments s1) + length l
            ∧ Snake.nibblesEaten r.1 = Snake.nibblesEaten s1
            ∧ Snake.length r.1 = Snake.length s1
            ∧ Snake.isPlayer r.1 = Snake.isPlayer s1
            ∧ Snake.speed r.1 = Snake.speed s1
            ∧ nibbles r.2 = nibbles w1
            ∧ settings r.2 = settings w1) as Hfold.
  { induction l as [|x l IH]; intros s1 w1; cbn [foldl].
    - cbv zeta. cbn [fst snd length]. split_and!; [lia|done..].
    - destruct (addSegment_effect true s1 w1) as (A1 & A2 & A3 & A4).
      destruct (addSegment_fields true s1 w1) as (B1 & B2 & B3).
      destruct (Snake.addSegment true s1 w1) as [s2 w2]. cbn [fst snd] in *.
      destruct (IH s2 w2) as (C1 & C2 & C3 & C4 & C5 & C6 & C7).
      cbv zeta. rewrite C1, A1, length_app. cbn [length].
      split_and!; [lia|congruence..]. }
  specialize (Hfold (seq 0 (Snake.length s)) s w0). cbv zeta in Hfold.
  rewrite length_seq in Hfold.
  destruct (foldl _ _ _) as [s1 w1]. cbn [fst snd] in *.
  cbn [Snake.segments Snake.nibblesEaten Snake.length Snake.isPlayer Snake.speed
       Snake.withTrail].
  destruct Hfold as (C1 & C2 & C3 & C4 & C5 & C6 & C7).
  split_and!; congruence.
Qed.

Lemma new_effect `{Platform} (isPlayer : bool) (w : World) :
  length (Snake.segments (Snake.new isPlayer w).1) = 5
  ∧ Snake.nibblesEaten (Snake.new isPlayer w).1 = 0
  ∧ Snake.length (Snake.new isPlayer w).1 = 5
  ∧ Snake.isPlayer (Snake.new isPlayer w).1 = isPlayer
  ∧ nibbles (Snake.new isPlayer w).2 = nibbles w
  ∧ settings (Snake.new isPlayer w).2 = settings w.
Proof.
  unfold Snake.new. cbn [alloc Math_random].
  match goal with |- context [Snake._init ?s ?w0] =>
    destruct (init_effect s w0) as (C1 & C2 & C3 & C4 & C5 & C6 & C7) end.
  split_and!; done.
Qed.

Lemma reset_effect `{Platform} (fuel : nat) (g g' : Game.t) :
  Game._reset fuel g = Some g' →
  Game.score g' = 0
  ∧ Game.isGameOver g' = false
  ∧ Game.shadowSnakes g' = []
  ∧ Game.isShadowSnakeInvulnerable g' = false
  ∧ length (nibbles (Game.world g')) = 1
  ∧ Game.isPaused g' = Game.isPaused g
  ∧ Game.gameStarted g' = Game.gameStarted g
  ∧ Game.timers g' = Game.timers g
  ∧ ∃ player, Game.playerSnake g' = Some player
              ∧ Snake.isPlayer player = true
              ∧ length (Snake.segments player) = 5
              ∧ Snake.length player = 5
              ∧ Snake.nibblesEaten player = 0.
Proof.
  unfold Game._reset. cbn [performance_now].
  match goal with |- context [Snake.new true ?w0] =>
    assert (nibbles w0 = []) as Hn0 by reflexivity;
    destruct (new_effect true w0) as (N1 & N2 & N3 & N4 & N5 & N6);
    destruct (Snake.new true w0) as [player w1] end.
  cbn [fst snd] in *.
  match goal with |- context [NibbleManager.spawn fuel ?w2] =>
    assert (nibbles w2 = []) as Hn2 by (rewrite <- Hn0, <- N5; reflexivity);
    destruct (NibbleManager.spawn fuel w2) as [w3|] eqn:E; [|done] end.
  cbn [mbind option_bind]. intros [= <-].
  apply spawn_places in E as (E & _). rewrite Hn2 in E.
  cbn [Game.withWorld Game.withPlayerSnake Game.world Game.score Game.isGameOver
       Game.shadowSnakes Game.isShadowSnakeInvulnerable Game.isPaused Game.gameStarted
       Game.timers Game.playerSnake Game.withInvulnerable Game.withLastShadowSpawnTime
       Game.withLastSpawnTime Game.withGameOver Game.withScore Game.withShadowSnakes].
  rewrite E. split_and!; try done.
  eexists. split; [reflexivity|].
  unfold Snake.syncDirection.
  cbn [Snake.isPlayer Snake.segments Snake.length Snake.nibblesEaten Snake.withNibblesEaten
       Snake.withTrail Snake.withDirection Snake.withSpeed].
  done.
Qed.

(** X25: [_reset] starts afresh but does not touch the pause.
    Whenever it returns, the score is 0, the game is not over, there
    is no shadow snake and exactly one nibble, and the player is a new
    snake of five segments that has eaten nothing; the paused flag and
    the pending timers of earlier shadow snakes are what they were, so
    a game restarted while paused runs no game logic in the frames
    that follow: they leave it as the restart left it, the clock,
    [lastTime] and the statistics of the performance monitor apart,
    the collision counter not going up. *)
Theorem reset_starts_afresh `{Platform} (fuel : nat) (g g' : Game.t) :
  Game._restart fuel g = Some g' →
  Game.score g' = 0
  ∧ Game.isGameOver g' = false
  ∧ Game.gameStarted g' = true
  ∧ Game.shadowSnakes g' = []
  ∧ Game.isShadowSnakeInvulnerable g' = false
  ∧ length (nibbles (Game.world g')) = 1
  ∧ (∃ player, Game.playerSnake g' = Some player
               ∧ Snake.isPlayer player = true
               ∧ length (Snake.segments player) = 5
               ∧ Snake.nibblesEaten player = 0)
  ∧ Game.isPaused g' = Game.isPaused g
  ∧ Game.timers g' = Game.timers g
  ∧ (Game.isPaused g = true →
     ∀ n, ∃ gs, frames fuel n g' = Some gs ∧ length gs = n ∧ Forall (frozen g') gs).
Proof.
  unfold Game._restart. intros Hr.
  apply reset_effect in Hr
    as (H1 & H2 & H3 & H4 & H5 & H6 & H7 & H8 & player & P1 & P2 & P3 & _ & P5).
  cbn [Game.isPaused Game.gameStarted Game.timers Game.withStarted] in H6, H7, H8.
  split_and!; try done.
  - exists player. done.
  - intros Hpaused n. apply frames_idle. unfold idle.
    rewrite H6, Hpaused. by destruct (Game.gameStarted g'), (Game.isGameOver g').
Qed.

Lemma reset_starts_afresh_witness :
  let g := Game._togglePause spawnedGame in
  let g' := default g (Game._restart (H := flatPlatform) 200 g) in
  Game._restart (H := flatPlatform) 200 g = Some g'
  ∧ Game.isPaused g = true
  ∧ length (Game.shadowSnakes g) = 1%nat
  ∧ Game.shadowSnakes g' = []
  ∧ Game.isPaused g' = Game.isPaused g
  ∧ Game.timers g' = Game.timers g
  ∧ length (Game.timers g) = 1%nat.
Proof.
  intros g g'.
  assert (Game._restart (H := flatPlatform) 200 g = Some g') as H1
    by (vm_compute; reflexivity).
  pose proof (reset_starts_afresh (H := flatPlatform) 200 g g' H1)
    as (_ & _ & _ & Hs & _ & _ & _ & Hp & Ht & _).
  split; [exact H1|]. split; [reflexivity|]. split; [reflexivity|].
  split; [exact Hs|]. split; [exact Hp|]. split; [exact Ht|]. reflexivity.
Defined.

(** ** Disposing of a snake *)

Lemma isWallObject_of_detached (w : World) (o : Obj) :
  detached w o → CollisionSystem._isWallObject w o = false.
Proof.
  intros Hd. unfold CollisionSystem._isWallObject.
  destruct (objects w !! o) as [ob|] eqn:E; [|done]. by rewrite (Hd ob).
Qed.

Lemma detached_scene_remove (o o' : Obj) (w : World) :
  detached (scene_remove o w) o' ↔ o = o' ∨ detached w o'.
Proof.
  unfold detached, scene_remove, withObjects. cbn [objects]. rewrite lookup_alter.
  case_decide as E.
  - subst. split; [by left|]. intros _ ob.
    destruct (objects w !! o'); intros [= <-]. done.
  - split; [by right|]. intros [?|?]; done.
Qed.

Lemma detached_removeObject (o o' : Obj) (w : World) :
  detached (CollisionSystem.removeObject o w) o' ↔ detached w o'.
Proof. unfold detached. by rewrite objects_removeObject. Qed.

Lemma objectMap_removeObject (o o' : Obj) (w : World) :
  detached w o →
  SpatialGrid.objectMap (spatialGrid (CollisionSystem.removeObject o w)) !! o'
  = if decide (o = o') then None else SpatialGrid.objectMap (spatialGrid w) !! o'.
Proof.
  intros Hd. unfold CollisionSystem.removeObject.
  rewrite (isWallObject_of_detached w o Hd). unfold withGrid. cbn [spatialGrid].
  apply objectMap_remove.
Qed.

Lemma objectMap_removeObject_None (o o' : Obj) (w : World) :
  SpatialGrid.objectMap (spatialGrid w) !! o' = None →
  SpatialGrid.objectMap (spatialGrid (CollisionSystem.removeObject o w)) !! o' = None.
Proof.
  intros Hn. unfold CollisionSystem.removeObject.
  destruct (CollisionSystem._isWallObject w o); [done|].
  unfold withGrid. cbn [spatialGrid]. rewrite objectMap_remove. by case_decide.
Qed.

Lemma consistent_removeObject (o : Obj) (w : World) :
  consistent (spatialGrid w) → consistent (spatialGrid (CollisionSystem.removeObject o w)).
Proof.
  intros Hc. unfold CollisionSystem.removeObject.
  destruct (CollisionSystem._isWallObject w o); [done|].
  unfold withGrid. cbn [spatialGrid]. by apply consistent_remove.
Qed.

(** The loop of [dispose] over the segments. *)
Lemma disposeLoop_untracks (segments : list Obj) (w : World) :
  let w' := foldl (λ w segment, CollisionSystem.removeObject segment (scene_remove segment w))
                  w segments in
  (∀ o, o ∈ segments →
        SpatialGrid.objectMap (spatialGrid w') !! o = None ∧ detached w' o)
  ∧ (∀ o, SpatialGrid.objectMap (spatialGrid w) !! o = None →
          SpatialGrid.objectMap (spatialGrid w') !! o = None)
  ∧ (∀ o, detached w o → detached w' o)
  ∧ (∀ o, o ∉ segments →
          SpatialGrid.objectMap (spatialGrid w') !! o
          = SpatialGrid.objectMap (spatialGrid w) !! o
          ∧ objects w' !! o = objects w !! o)
  ∧ (consistent (spatialGrid w) → consistent (spatialGrid w')).
Proof.
  cbv zeta. induction segments as [|segment segments IH] using rev_ind.
  - cbn [foldl]. split_and!; try done. intros o Ho. by apply elem_of_nil in Ho.
  - rewrite foldl_app. cbn [foldl].
    set (w1 := foldl _ w segments) in *. destruct IH as (I1 & I2 & I3 & I4 & I5).
    assert (detached (scene_remove segment w1) segment) as Hd
      by (apply detached_scene_remove; by left).
    split_and!.
    + intros o Ho. rewrite objectMap_removeObject by done.
      rewrite detached_removeObject, detached_scene_remove.
      case_decide as E; [split; [done|by left]|].
      apply elem_of_app in Ho as [Ho|Ho].
      * destruct (I1 o Ho). split; [done|by right].
      * apply list_elem_of_singleton in Ho. congruence.
    + intros o Ho. apply objectMap_removeObject_None. by apply I2.
    + intros o Ho. rewrite detached_removeObject, detached_scene_remove. right. by apply I3.
    + intros o Ho. apply not_elem_of_app in Ho as [Ho1 Ho2].
      assert (segment ≠ o) as Hne by (intros ->; apply Ho2; by apply list_elem_of_singleton).
      rewrite objectMap_removeObject, decide_False by done.
      rewrite objects_removeObject. unfold scene_remove, withObjects. cbn [objects].
      rewrite lookup_alter_ne by done. by apply I4.
    + intros Hc. by apply consistent_removeObject, I5.
Qed.

Lemma dispose_untracks (s : Snake.t) (w : World) :
  let w' := (Snake.dispose s w).2 in
  (∀ o, o ∈ Snake.head s :: Snake.segments s →
        SpatialGrid.objectMap (spatialGrid w') !! o = None ∧ detached w' o)
  ∧ (∀ o, o ∉ Snake.head s :: Snake.segments s →
          SpatialGrid.objectMap (spatialGrid w') !! o
          = SpatialGrid.objectMap (spatialGrid w) !! o
          ∧ objects w' !! o = objects w !! o)
  ∧ (consistent (spatialGrid w) → consistent (spatialGrid w')).
Proof.
  unfold Snake.dispose. cbn [snd].
  set (w0 := scene_remove (Snake.head s) w).
  destruct (disposeLoop_untracks (Snake.segments s) w0) as (L1 & L2 & L3 & L4 & L5).
  cbv zeta in *. set (w1 := foldl _ w0 _) in *.
  assert (detached w1 (Snake.head s)) as Hd.
  { apply L3. apply detached_scene_remove. by left. }
  split_and!.
  - intros o Ho. rewrite objectMap_removeObject by done. rewrite detached_removeObject.
    case_decide as E; [by subst|].
    apply elem_of_cons in Ho as [Ho|Ho]; [congruence|]. by apply L1.
  - intros o Ho. apply not_elem_of_cons in Ho as [Ho1 Ho2].
    rewrite objectMap_removeObject, decide_False by done. rewrite objects_removeObject.
    destruct (L4 o Ho2) as [-> ->]. split; [done|].
    unfold w0, scene_remove, withObjects. cbn [objects]. by rewrite lookup_alter_ne.
  - intros Hc. apply consistent_removeObject, L5. exact Hc.
Qed.

Lemma consistent_createAt (position : Vec3) (randomize : bool) (w : World) :
  consistent (spatialGrid w) →
  consistent (spatialGrid (NibbleManager.createAt position randomize w)).
Proof.
  intros Hc. unfold NibbleManager.createAt, NibbleManager.create. cbn [alloc].
  destruct randomize; cbn [Math_random]; apply consistent_updateObject; exact Hc.
Qed.

(** X26: a snake that is disposed of leaves nothing behind in the
    grid.  After [dispose], and so after [_dissolveSnake], the head and
    every segment of the snake are detached from the scene and
    untracked, and (the grid maps agreeing) no query returns any of
    them; [dispose] leaves the entries of all other objects alone. *)
Theorem disposed_snake_leaves_grid (snake : Snake.t) :
  (∀ (w : World),
     let w' := (Snake.dispose snake w).2 in
     (∀ o, o ∈ Snake.head snake :: Snake.segments snake →
           SpatialGrid.objectMap (spatialGrid w') !! o = None ∧ detached w' o)
     ∧ (∀ o, o ∉ Snake.head snake :: Snake.segments snake →
             SpatialGrid.objectMap (spatialGrid w') !! o
             = SpatialGrid.objectMap (spatialGrid w) !! o)
     ∧ (consistent (spatialGrid w) → consistent (spatialGrid w')))
  ∧ (∀ (g : Game.t) (o : Obj),
       o ∈ Snake.head snake :: Snake.segments snake →
       let w' := Game.world (Game._dissolveSnake snake g) in
       SpatialGrid.objectMap (spatialGrid w') !! o = None
       ∧ detached w' o
       ∧ (consistent (spatialGrid (Game.world g)) →
          ∀ position radius, o ∉ SpatialGrid.getNearby (spatialGrid w') position radius)).
Proof.
  split.
  - intros w. destruct (dispose_untracks snake w) as (D1 & D2 & D3). cbv zeta in *.
    split_and!; [done| |done]. intros o Ho. by destruct (D2 o Ho).
  - intros g o Ho. unfold Game._dissolveSnake.
    match goal with |- context [Snake.dispose snake ?w0] =>
      pose proof (dispose_untracks snake w0) as (D1 & _ & D3);
      assert (consistent (spatialGrid (Game.world g)) → consistent (spatialGrid w0)) as Hc0;
      [|destruct (Snake.dispose snake w0) as [snake' w'] eqn:Hd]
    end.
    { intros Hc.
      apply (foldl_invariant (λ w, consistent (spatialGrid w))).
      - apply (foldl_invariant (λ w, consistent (spatialGrid w))).
        + by apply consistent_removeObject.
        + intros w x _ Hw. by apply consistent_removeObject.
      - intros w i _ Hw. destruct (Snake.segments snake !! i); [|done].
        by apply consistent_createAt. }
    cbv zeta in D1, D3. cbn [snd] in D1, D3.
    assert (Game.world (Game.withWorld w'
              (if Snake.isPlayer snake'
               then Game.withPlayerSnake (Some snake')
                      (if Snake.isPlayer snake then Game.withGameOver true g
                       else Game.withShadowSnakes
                              (filter (λ s, Game.sameSnake s snake = false)
                                      (Game.shadowSnakes g)) g)
               else (if Snake.isPlayer snake then Game.withGameOver true g
                     else Game.withShadowSnakes
                            (filter (λ s, Game.sameSnake s snake = false)
                                    (Game.shadowSnakes g)) g))) = w') as -> by done.
    destruct (D1 o Ho) as [Hm Hdet]. split; [done|]. split; [done|].
    intros Hc position radius Hin.
    apply getNearby_spec in Hin as (key & _ & Hst).
    apply (D3 (Hc0 Hc)) in Hst. congruence.
Qed.

Lemma disposed_snake_leaves_grid_witness :
  let w' := Game.world (Game._dissolveSnake sampleShadow spawnedGame) in
  Snake.head sampleShadow ∈ Snake.head sampleShadow :: Snake.segments sampleShadow
  ∧ is_Some (SpatialGrid.objectMap (spatialGrid (Game.world spawnedGame))
               !! Snake.head sampleShadow)
  ∧ consistent (spatialGrid (Game.world spawnedGame))
  ∧ SpatialGrid.objectMap (spatialGrid w') !! Snake.head sampleShadow = None
  ∧ ∀ position radius,
      Snake.head sampleShadow ∉ SpatialGrid.getNearby (spatialGrid w') position radius.
Proof.
  intros w'.
  assert (Snake.head sampleShadow ∈ Snake.head sampleShadow :: Snake.segments sampleShadow)
    as H1 by left.
  assert (consistent (spatialGrid (Game.world spawnedGame))) as H2
    by (apply consistentb_consistent; vm_compute; reflexivity).
  split; [exact H1|]. split; [vm_compute; eauto|]. split; [exact H2|].
  destruct (proj2 (disposed_snake_leaves_grid sampleShadow) spawnedGame
                  (Snake.head sampleShadow) H1) as (Ha & _ & Hb).
  split; [exact Ha|exact (Hb H2)].
Defined.

(** ** A frame and the field *)

Lemma update_nibbles `{Platform} (delta : Q) (s : Snake.t) (w : World) :
  nibbles (Snake.update delta s w).2 = nibbles w.
Proof.
  destruct (update_unfold delta s w) as (s1 & w1 & Hai & ->). cbv zeta in Hai.
  match type of Hai with Snake.aiBehavior ?s0 ?w0 = _ =>
    destruct (aiBehavior_steers s0 w0) as (_ & [_ Hn _ _ _] & _) end.
  rewrite Hai in Hn. cbn [fst snd] in Hn. cbn [snd].
  match goal with |- context [foldl (λ w '(i, segment), Snake.placeSegment ?s2 ?time w i segment) ?w3 ?l] =>
    destruct (placeSegments_steers s2 time l w3) as (_ & _ & N & _) end.
  cbv zeta in N.
  destruct (Snake.isPlayer _); rewrite ?nibbles_updateObject, N; exact Hn.
Qed.

Lemma updateShadows_nibbles `{Platform} (time delta : Q) (snakes : list Snake.t) (w : World) :
  nibbles (Game.updateShadows time delta snakes w).2 = nibbles w.
Proof.
  unfold Game.updateShadows.
  assert (∀ (f : nat → nat) acc w0,
    nibbles (foldl (λ '(done, w) '(index, snake),
                      if Z.eqb (Z.rem (Qfloor (time * 60)) 2) (Z.rem (Z.of_nat index) 2)
                      then let '(snake, w) := Snake.update delta snake w in (done ++ [snake], w)
                      else (done ++ [snake], w))
                   (acc, w0) (imap (λ index snake, (f index, snake)) snakes)).2
    = nibbles w0) as Hgen.
  { induction snakes as [|snake snakes IH]; intros f acc w0; cbn [imap foldl]; [reflexivity|].
    destruct (Z.eqb _ _).
    - pose proof (update_nibbles delta snake w0) as Hn.
      destruct (Snake.update delta snake w0) as [snake1 w1]. cbn [snd] in Hn.
      etransitivity; [exact (IH (f ∘ S) (acc ++ [snake1]) w1)|exact Hn].
    - exact (IH (f ∘ S) (acc ++ [snake]) w0). }
  apply (Hgen (λ index, index) [] w).
Qed.

Lemma gain_refl g : gain 0 g g.
Proof. unfold gain. lia. Qed.

Lemma gain_trans a b g1 g2 g3 : gain a g1 g2 → gain b g2 g3 → gain (a + b) g1 g3.
Proof. unfold gain. lia. Qed.

Lemma spawnShadowSnake_gain `{Platform} (wallHitPoint normal : Vec3) (g : Game.t) :
  gain 0 g (Game._spawnShadowSnake wallHitPoint normal g).
Proof.
  unfold Game._spawnShadowSnake. cbn [performance_now].
  destruct (Qltb _ _); [unfold gain; cbn; lia|].
  match goal with |- context [Snake.new false ?w0] =>
    destruct (new_effect false w0) as (_ & _ & _ & _ & Hn & _);
    destruct (Snake.new false w0) as [shadowSnake w1] end.
  cbn [snd] in Hn. unfold gain.
  cbn [Game.world Game.withWorld Game.score Game.withTimers Game.withShadowSnakes
       Game.withInvulnerable Game.withLastShadowSpawnTime].
  change (nibbles (setRotation _ _ (setPosition _ _ w1))) with (nibbles w1).
  rewrite Hn. cbn [nibbles]. lia.
Qed.

Lemma checkCubeBoundary_gain `{Platform} (g : Game.t) : gain 0 g (Game._checkCubeBoundary g).
Proof.
  unfold Game._checkCubeBoundary.
  destruct (Game.playerSnake g) as [player|]; [|apply gain_refl].
  destruct (negb _); [apply gain_refl|].
  destruct (Game.wallCrossing _ _ _) as [[wallHitPoint normal]|]; [|apply gain_refl].
  apply spawnShadowSnake_gain.
Qed.

Lemma checkNibbleCollection_gain (fuel : nat) (time : Q) (g g' : Game.t) :
  Game._checkNibbleCollection fuel time g = Some g' → gain 1 g g'.
Proof.
  unfold Game._checkNibbleCollection.
  destruct (Game.playerSnake g) as [player|];
    [|intros [= <-]; unfold gain; lia].
  destruct (Game.collect fuel player (Game.world g)) as [[[eaten player1] w1]|] eqn:E1; [|done].
  cbn [mbind option_bind]. apply collect_counts in E1 as (Hn1 & _).
  set (g1 := if eaten then _ else _).
  assert (Game.score g ≤ Game.score g1 ≤ Game.score g + 1
          ∧ Game.shadowSnakes g1 = Game.shadowSnakes g) as [Hs Hsh].
  { unfold g1. destruct eaten; cbn; split; (lia || done). }
  clearbody g1. unfold gain.
  destruct (Z.eqb _ 0).
  - destruct (Game.collectShadows fuel (Game.shadowSnakes g1) w1) as [[shadows w2]|] eqn:E2;
      [|done].
    cbn [mbind option_bind]. intros [= <-].
    apply collectShadows_counts in E2 as [Hn2 _].
    cbn [Game.world Game.withWorld Game.score Game.withShadowSnakes]. lia.
  - intros [= <-]. cbn [Game.world Game.withWorld Game.score]. lia.
Qed.

Lemma checkCollisions_dissolved (g : Game.t) : dissolved g (Game._checkCollisions g).
Proof.
  unfold Game._checkCollisions.
  destruct (CollisionSystem.checkCollisions _ _ _) as [collisions w] eqn:E.
  assert (nibbles w = nibbles (Game.world g)) as Hn.
  { unfold CollisionSystem.checkCollisions in E.
    destruct (Game.playerSnake g); injection E as _ <-; reflexivity. }
  destruct (resolve_dissolved collisions (Game.withWorld w g)) as [H1 H2 H3 H4 H5 H6].
  cbn [Game.withWorld Game.score Game.gameStarted Game.isPaused Game.shadowSnakes
       Game.isGameOver Game.world] in *.
  rewrite Hn in H6. by split.
Qed.

Lemma updateGameLogic_gain `{Platform} (fuel : nat) (time delta : Q) (g g' : Game.t) :
  Game._updateGameLogic fuel time delta g = Some g' → gain 1 g g'.
Proof.
  unfold Game._updateGameLogic.
  set (g1 := match Game.playerSnake g with Some _ => _ | None => g end).
  assert (gain 0 g g1) as G1.
  { unfold g1. destruct (Game.playerSnake g) as [player|]; [|apply gain_refl].
    pose proof (update_nibbles delta player (Game.world g)) as Hn.
    destruct (Snake.update delta player (Game.world g)) as [player1 w1].
    cbn [snd] in Hn. unfold gain.
    cbn [Game.world Game.withWorld Game.score Game.withPlayerSnake]. rewrite Hn. lia. }
  clearbody g1.
  pose proof (updateShadows_nibbles time delta (Game.shadowSnakes g1) (Game.world g1)) as Hn2.
  destruct (Game.updateShadows time delta _ _) as [shadows w2]. cbn [snd] in Hn2.
  set (g2 := Game.withWorld w2 (Game.withShadowSnakes shadows g1)).
  assert (gain 0 g1 g2) as G2.
  { unfold gain, g2. cbn [Game.world Game.withWorld Game.score Game.withShadowSnakes].
    rewrite Hn2. lia. }
  set (g3 := match Game.playerSnake g2 with Some _ => Game._checkCubeBoundary g2 | None => g2 end).
  assert (gain 0 g2 g3) as G3.
  { unfold g3. destruct (Game.playerSnake g2); [apply checkCubeBoundary_gain|apply gain_refl]. }
  clearbody g3.
  destruct (Game._checkNibbleCollection fuel time g3) as [g4|] eqn:E4; [|done].
  cbn [mbind option_bind]. apply checkNibbleCollection_gain in E4.
  cbn [performance_now].
  set (g5 := Game.withWorld _ g4).
  assert (gain 0 g4 g5) as G5 by (unfold gain, g5; cbn; lia).
  clearbody g5.
  assert (gain 1 g g5) as G05.
  { pose proof (gain_trans _ _ _ _ _ G1 G2) as A.
    pose proof (gain_trans _ _ _ _ _ A G3) as B.
    pose proof (gain_trans _ _ _ _ _ B E4) as C.
    exact (gain_trans _ _ _ _ _ C G5). }
  assert (∀ g6, gain 0 g6 (match Game.playerSnake g6 with
                           | Some _ => if negb (Game.isShadowSnakeInvulnerable g6)
                                       then Game._checkCollisions g6 else g6
                           | None => g6
                           end)) as G6.
  { intros g6. destruct (Game.playerSnake g6); [|apply gain_refl].
    destruct (negb _); [|apply gain_refl].
    destruct (checkCollisions_dissolved g6) as [Hs _ _ _ _ Hn]. unfold gain. lia. }
  destruct (Qltb _ _).
  - destruct (NibbleManager.spawn fuel (Game.world g5)) as [w6|] eqn:E6; [|done].
    cbn [mbind option_bind]. intros [= <-].
    apply spawn_places in E6 as (E6 & _).
    set (g6 := Game.withLastSpawnTime _ (Game.withWorld w6 g5)).
    change (gain 1 g (match Game.playerSnake g6 with
                      | Some _ => if negb (Game.isShadowSnakeInvulnerable g6)
                                  then Game._checkCollisions g6 else g6
                      | None => g6
                      end)).
    apply (gain_trans 1 0 g g6); [|exact (G6 g6)].
    apply (gain_trans 1 0 g g5); [exact G05|].
    unfold gain, g6. cbn [Game.world Game.withWorld Game.score Game.withLastSpawnTime].
    rewrite E6, length_app. lia.
  - cbn [mbind option_bind]. intros [= <-].
    apply (gain_trans 1 0 g g5); [exact G05|exact (G6 g5)].
Qed.

(** X27: a frame never thins the field.  After a frame of the
    animation loop there are at least as many nibbles as before it
    (what is eaten is replaced, what is dissolved is dropped) and the
    score is the same or one higher. *)
Theorem frame_never_thins_field `{Platform} (fuel : nat) (g g' : Game.t) :
  Game._animate fuel g = Some g' →
  length (nibbles (Game.world g)) ≤ length (nibbles (Game.world g'))
  ∧ Game.score g ≤ Game.score g' ≤ Game.score g + 1.
Proof.
  unfold Game._animate. cbn [performance_now].
  set (g0 := Game.withWorld (PerformanceMonitor.update _) _).
  assert (gain 0 g g0) as G0.
  { unfold gain, g0. cbn [Game.world Game.withWorld Game.withLastTime Game.score].
    match goal with |- context [PerformanceMonitor.update ?w0] =>
      destruct (update_scene w0) as (_ & _ & -> & _) end.
    cbn [nibbles]. lia. }
  clearbody g0.
  destruct (_ && _ && _).
  - intros Hg'%updateGameLogic_gain. exact (gain_trans 0 1 _ _ _ G0 Hg').
  - intros [= <-]. unfold gain in G0. lia.
Qed.

Lemma frame_never_thins_field_witness :
  let g := Game.withWorld nibbleAtHead startedGame in
  let g' := default g (Game._animate (H := flatPlatform) 200 g) in
  Game._animate (H := flatPlatform) 200 g = Some g'
  ∧ length (nibbles (Game.world g)) ≤ length (nibbles (Game.world g'))
  ∧ Game.score g ≤ Game.score g' ≤ Game.score g + 1.
Proof.
  intros g g'.
  assert (Game._animate (H := flatPlatform) 200 g = Some g') as H1
    by (vm_compute; reflexivity).
  split; [exact H1|].
  exact (frame_never_thins_field (H := flatPlatform) 200 g g' H1).
Defined.

(** ** Pausing *)

Lemma togglePause_running (g : Game.t) :
  Game.isGameOver g = false → Game.isPaused g = false →
  idle (Game._togglePause g)
  ∧ ∀ g', frozen (Game._togglePause g) g' →
          frozen g (Game._togglePause g')
          ∧ Game.isPaused g' = true
          ∧ Game.isPaused (Game._togglePause g') = false.
Proof.
  intros Hover Hpaused. unfold Game._togglePause at 1 2. rewrite Hover, Hpaused.
  split.
  - unfold idle. cbn [Game.withPaused Game.gameStarted Game.isGameOver Game.isPaused negb].
    by rewrite andb_false_r.
  - intros g' Hf. unfold frozen in Hf.
    cbn [Game.withPaused Game.world Game.playerSnake Game.shadowSnakes Game.score
         Game.isGameOver Game.gameStarted Game.isPaused Game.isShadowSnakeInvulnerable
         Game.timers Game.lastSpawnTime Game.lastShadowSpawnTime negb] in Hf.
    destruct Hf as (H1 & H2 & H3 & H4 & H5 & H6 & H7 & H8 & H9 & H10 & H11 & H12
                    & H13 & H14 & H15).
    unfold Game._togglePause. rewrite H9, Hover, H11.
    unfold frozen.
    cbn [Game.withPaused Game.world Game.playerSnake Game.shadowSnakes Game.score
         Game.isGameOver Game.gameStarted Game.isPaused Game.isShadowSnakeInvulnerable
         Game.timers Game.lastSpawnTime Game.lastShadowSpawnTime negb].
    rewrite Hpaused. split_and!; done.
Qed.

(** X28: a pause loses nothing and lets nothing in.  When a game that
    is not over is paused with [_togglePause], any number of frames
    runs to its end, and after each of them a rotation of the player
    from the input handler is ignored and a second [_togglePause]
    gives the game back as it was when it was paused, the clock,
    [lastTime] and the statistics of the performance monitor apart:
    the two spawn stamps have not moved with the clock, and the
    collision counter, which the monitor zeroes once a second also
    while the game is paused, has not gone up.  Once the game is over
    [_togglePause] does nothing. *)
Theorem pause_loses_nothing `{Platform} (fuel n : nat) (g : Game.t) :
  (Game.isGameOver g = false → Game.isPaused g = false →
   ∃ gs, frames fuel n (Game._togglePause g) = Some gs ∧ length gs = n
         ∧ Forall (λ g', frozen g (Game._togglePause g')
                         ∧ Game.isPaused (Game._togglePause g') = false
                         ∧ ∀ rotY rotX, Game.onSnakeRotate rotY rotX g' = g') gs)
  ∧ (Game.isGameOver g = true →
     Game._togglePause g = g ∧ ∀ rotY rotX, Game.onSnakeRotate rotY rotX g = g).
Proof.
  split.
  - intros Hover Hpaused.
    destruct (togglePause_running g Hover Hpaused) as [Hidle Hback].
    destruct (frames_idle fuel n _ Hidle) as (gs & Hgs & Hlen & Hall).
    exists gs. split; [exact Hgs|]. split; [exact Hlen|].
    eapply Forall_impl; [exact Hall|]. intros g' Hf.
    destruct (Hback g' Hf) as (Hfrozen & Hp & Hp').
    split; [exact Hfrozen|]. split; [exact Hp'|].
    intros rotY rotX. unfold Game.onSnakeRotate. rewrite Hp.
    by destruct (Game.playerSnake g').
  - intros Hover. split.
    + unfold Game._togglePause. by rewrite Hover.
    + intros rotY rotX. unfold Game.onSnakeRotate. rewrite Hover, andb_false_r.
      by destruct (Game.playerSnake g).
Qed.

Lemma pause_loses_nothing_witness :
  Game.isGameOver startedGame = false ∧ Game.isPaused startedGame = false
  ∧ ∃ gs, frames (H := flatPlatform) 0 3 (Game._togglePause startedGame) = Some gs
          ∧ length gs = 3%nat
          ∧ Forall (λ g', frozen startedGame (Game._togglePause g')
                          ∧ Game.isPaused (Game._togglePause g') = false
                          ∧ ∀ rotY rotX,
                              Game.onSnakeRotate (H := flatPlatform) rotY rotX g' = g') gs.
Proof.
  assert (Game.isGameOver startedGame = false) as H1 by reflexivity.
  assert (Game.isPaused startedGame = false) as H2 by reflexivity.
  split; [exact H1|]. split; [exact H2|].
  exact (proj1 (pause_loses_nothing (H := flatPlatform) 0 3 startedGame) H1 H2).
Defined.

(** ** Dissolution: where the nibbles land *)

















